(** * Slack summarizer: ingestion and summarization pipeline

    A shallow embedding of the TypeScript modules [ingest.ts] (rate-limited
    client, mention extractor, user directory cache, history ingestion; the
    file src/unnamed/part_014) and [summarize.ts] (task heuristics, the
    heuristic and model-backed summary paths; the second module of the file
    src/src/server.ts), followed by the properties of the specification
    that concern them.

    Conventions.
    - JavaScript strings are [string]s; the texts considered are ASCII, so
      that a character is one code unit.
    - A Slack timestamp ("1621573200.000100") is the integer number of
      microseconds it denotes; [parseFloat] is exact and order preserving
      on such values.
    - An [async] function is a computation in the monad [M] below: world
      state threaded explicitly, exceptions as values, and a separate
      outcome for a loop that does not come back. *)

From Stdlib Require Import ZArith QArith Ascii String List Bool Lia.
From stdpp Require Import base option list strings gmap pretty sorting.

Local Open Scope string_scope.
Local Open Scope list_scope.

(** ** JavaScript strings *)

Module Js.

Definition chars (s : string) : list ascii := list_ascii_of_string s.
Definition str (l : list ascii) : string := string_of_list_ascii l.

Lemma chars_str l : chars (str l) = l.
Proof. apply list_ascii_of_string_of_list_ascii. Qed.

Lemma str_chars s : str (chars s) = s.
Proof. apply string_of_list_ascii_of_string. Qed.

Lemma str_inj l1 l2 : str l1 = str l2 -> l1 = l2.
Proof. intros H. rewrite <- (chars_str l1), <- (chars_str l2). now rewrite H. Qed.

Lemma chars_inj s1 s2 : chars s1 = chars s2 -> s1 = s2.
Proof. intros H. rewrite <- (str_chars s1), <- (str_chars s2). now rewrite H. Qed.

Definition code (c : ascii) : nat := nat_of_ascii c.

Definition between (lo hi : nat) (c : ascii) : bool :=
  (lo <=? code c)%nat && (code c <=? hi)%nat.

Definition is_upper : ascii -> bool := between 65 90.
Definition is_lower : ascii -> bool := between 97 122.
Definition is_digit : ascii -> bool := between 48 57.

(** [\w], [\s] and [.] of ECMAScript regular expressions, on ASCII. *)
Definition is_word (c : ascii) : bool :=
  is_upper c || is_lower c || is_digit c || (code c =? 95)%nat.

Definition is_space (c : ascii) : bool :=
  between 9 13 c || (code c =? 32)%nat.

Definition is_line_terminator (c : ascii) : bool :=
  (code c =? 10)%nat || (code c =? 13)%nat.

Definition any_char (c : ascii) : bool := negb (is_line_terminator c).

Definition to_lower (c : ascii) : ascii :=
  if is_upper c then ascii_of_nat (code c + 32) else c.

Definition char_eqb (a b : ascii) : bool := Ascii.eqb a b.

(** Equality of characters under the [i] flag. *)
Definition char_eqb_ci (a b : ascii) : bool :=
  Ascii.eqb (to_lower a) (to_lower b).

#[global] Arguments char_eqb : simpl never.
#[global] Arguments char_eqb_ci : simpl never.

(** [a || b] on numbers: zero is falsy. *)
Definition or_num (a b : Z) : Z := if (a =? 0)%Z then b else a.

(** [[...new Set(l)]]: every element once, in order of first insertion. *)
Definition set_add (seen : list string) (x : string) : list string :=
  if bool_decide (x ∈ seen) then seen else seen ++ [x].

Definition set_of (l : list string) : list string :=
  fold_left set_add l [].

(** [String.prototype.trim]. *)
Fixpoint drop_space (l : list ascii) : list ascii :=
  match l with
  | c :: r => if is_space c then drop_space r else l
  | [] => []
  end.

Definition trim (s : string) : string :=
  str (rev (drop_space (rev (drop_space (chars s))))).

(** [s.slice(0, n)]. *)
Definition slice0 (n : nat) (s : string) : string := str (firstn n (chars s)).

(** [s.includes(c)] for a one-character needle. *)
Definition includes_char (c : ascii) (s : string) : bool :=
  existsb (char_eqb c) (chars s).

Definition newline : string := String "010" EmptyString.
Definition quote : string := String "034" EmptyString.

(** [l.join(sep)]. *)
Fixpoint join (sep : string) (l : list string) : string :=
  match l with
  | [] => ""
  | [x] => x
  | x :: r => x ++ sep ++ join sep r
  end.

End Js.

(** ** The regular expressions of the sources

    The fragment of ECMAScript patterns that the sources use: classes of
    one character, sequence, alternation, capture groups, word boundary,
    end of input, and quantifiers (greedy or lazy, bounded or not) over a
    class of one character. Matching is by backtracking with an explicit
    continuation, as in the ECMAScript specification. *)

Module Regex.

Inductive regex : Type :=
| Empty
| Char (p : ascii -> bool)
| Seq (r1 r2 : regex)
| Alt (r1 r2 : regex)
| Repeat (greedy : bool) (lo : nat) (hi : option nat) (p : ascii -> bool)
| Group (i : nat) (r : regex)
| WordBoundary
| EndOfInput.

Record mstate : Type := MState {
  consumed : list ascii;          (* what lies before the position, reversed *)
  remaining : list ascii;         (* what lies after the position *)
  captures : list (nat * list ascii)   (* most recent first *)
}.

Definition advance (c : ascii) (rest : list ascii) (st : mstate) : mstate :=
  MState (c :: consumed st) rest (captures st).

Definition word_before (st : mstate) : bool :=
  match consumed st with c :: _ => Js.is_word c | [] => false end.

Definition word_after (st : mstate) : bool :=
  match remaining st with c :: _ => Js.is_word c | [] => false end.

(** The text matched between two states of one attempt. *)
Definition between (st st' : mstate) : list ascii :=
  rev (firstn (length (consumed st') - length (consumed st)) (consumed st')).

Definition record (i : nat) (st st' : mstate) : mstate :=
  MState (consumed st') (remaining st') ((i, between st st') :: captures st').

Definition room (hi : option nat) : bool :=
  match hi with Some O => false | _ => true end.

Definition less (hi : option nat) : option nat :=
  match hi with Some n => Some (pred n) | None => None end.

Fixpoint quantify (greedy : bool) (lo : nat) (hi : option nat) (p : ascii -> bool)
    (input : list ascii) (st : mstate) (k : mstate -> option mstate)
    : option mstate :=
  match input with
  | c :: rest =>
      if p c && room hi then
        match lo with
        | S lo' => quantify greedy lo' (less hi) p rest (advance c rest st) k
        | O =>
            if greedy then
              match quantify greedy O (less hi) p rest (advance c rest st) k with
              | Some r => Some r
              | None => k st
              end
            else
              match k st with
              | Some r => Some r
              | None => quantify greedy O (less hi) p rest (advance c rest st) k
              end
        end
      else match lo with O => k st | S _ => None end
  | [] => match lo with O => k st | S _ => None end
  end.

Fixpoint run (r : regex) (st : mstate) (k : mstate -> option mstate)
    : option mstate :=
  match r with
  | Empty => k st
  | Char p =>
      match remaining st with
      | c :: rest => if p c then k (advance c rest st) else None
      | [] => None
      end
  | Seq r1 r2 => run r1 st (fun st' => run r2 st' k)
  | Alt r1 r2 =>
      match run r1 st k with
      | Some res => Some res
      | None => run r2 st k
      end
  | Repeat greedy lo hi p => quantify greedy lo hi p (remaining st) st k
  | Group i r1 => run r1 st (fun st' => k (record i st st'))
  | WordBoundary => if xorb (word_before st) (word_after st) then k st else None
  | EndOfInput => match remaining st with [] => k st | _ :: _ => None end
  end.

(** One attempt at a given position. *)
Definition match_at (r : regex) (before input : list ascii) : option mstate :=
  run r (MState before input []) Some.

Definition capture (i : nat) (st : mstate) : option (list ascii) :=
  snd <$> List.find (fun e => Nat.eqb (fst e) i) (captures st).

(** Length of the match that ends in [st'] and began with [before]. *)
Definition match_length (before : list ascii) (st' : mstate) : nat :=
  length (consumed st') - length before.

(** [RegExp.prototype.exec] without the [g] flag, as [String.prototype.match]
    uses it: the leftmost position at which an attempt succeeds. *)
Fixpoint search (r : regex) (before input : list ascii) : option mstate :=
  match match_at r before input with
  | Some st => Some st
  | None =>
      match input with
      | c :: rest => search r (c :: before) rest
      | [] => None
      end
  end.

(** The loop [while ((m = re.exec(text)) !== null)] of a pattern with the
    [g] flag: [skip] positions are still below [lastIndex]. A match moves
    [lastIndex] to its end; none of the patterns used with this loop
    matches the empty string (see [MentionFacts.mention_match_not_empty]),
    so that the position always advances. *)
Fixpoint exec_all (r : regex) (skip : nat) (before input : list ascii)
    : list mstate :=
  match skip with
  | S n =>
      match input with
      | c :: rest => exec_all r n (c :: before) rest
      | [] => []
      end
  | O =>
      match match_at r before input with
      | Some st =>
          st :: match input with
                | c :: rest =>
                    exec_all r (pred (match_length before st)) (c :: before) rest
                | [] => []
                end
      | None =>
          match input with
          | c :: rest => exec_all r O (c :: before) rest
          | [] => []
          end
      end
  end.

(** Number of capture groups, the length of a match array less one. *)
Fixpoint groups (r : regex) : nat :=
  match r with
  | Seq r1 r2 | Alt r1 r2 => groups r1 + groups r2
  | Group _ r1 => S (groups r1)
  | _ => O
  end.

(** The array [m.slice(1)] of a match: a group that took no part is
    [undefined], which [join] prints as the empty string. *)
Definition captured (r : regex) (st : mstate) : list string :=
  map (fun i => Js.str (default [] (capture i st))) (seq 1 (groups r)).

(** Builders. *)
Definition chr (c : ascii) : regex := Char (Js.char_eqb c).
Definition chr_ci (c : ascii) : regex := Char (Js.char_eqb_ci c).

Fixpoint lit_of (mk : ascii -> regex) (l : list ascii) : regex :=
  match l with
  | [] => Empty
  | [c] => mk c
  | c :: r => Seq (mk c) (lit_of mk r)
  end.

Definition lit (s : string) : regex := lit_of chr (Js.chars s).
Definition lit_ci (s : string) : regex := lit_of chr_ci (Js.chars s).

Fixpoint seqs (l : list regex) : regex :=
  match l with
  | [] => Empty
  | [r] => r
  | r :: rs => Seq r (seqs rs)
  end.

Fixpoint alts (l : list regex) : regex :=
  match l with
  | [] => Empty
  | [r] => r
  | r :: rs => Alt r (alts rs)
  end.

End Regex.

(** ** Mention extractor ([extractMentions], ingest.ts) *)

(** [[A-Z0-9]] *)
Definition id_char (c : ascii) : bool := Js.is_upper c || Js.is_digit c.

(** [/<@([A-Z0-9]+)>/g] *)
Definition mentionRegex : Regex.regex :=
  Regex.seqs [Regex.lit "<@";
              Regex.Group 1 (Regex.Repeat true 1 None id_char);
              Regex.chr ">"%char].

Definition extractMentions (text : string) : list string :=
  let mentions :=
    map (fun m => Js.str (default [] (Regex.capture 1 m)))
        (Regex.exec_all mentionRegex 0 [] (Js.chars text)) in
  Js.set_of mentions.

Example extractMentions_test_pair :
  extractMentions "<@U1234> please review this PR by tomorrow <@U5678>"
  = ["U1234"; "U5678"].
Proof. reflexivity. Qed.

(** ** Task heuristics ([extractTasksHeuristic], summarize.ts) *)

Module Patterns.
Import Regex.

Definition verbs : regex :=
  alts (map lit_ci ["do"; "create"; "update"; "change"; "fix"; "implement";
                    "add"; "remove"; "check"; "review"]).

(** [(.+?)(?:\.|$)], the tail of every pattern; [i] is the group number. *)
Definition title_tail (i : nat) : regex :=
  Seq (Group i (Repeat false 1 None Js.any_char))
      (Alt (chr "."%char) EndOfInput).

(** [/\btodo\b:?\s*(.+?)(?:\.|$)/i] *)
Definition todo : regex :=
  seqs [WordBoundary; lit_ci "todo"; WordBoundary;
        Repeat true 0 (Some 1) (Js.char_eqb ":"%char);
        Repeat true 0 None Js.is_space;
        title_tail 1].

(** [/\bplease\b.{0,15}(do|...|review)(.+?)(?:\.|$)/i] *)
Definition please : regex :=
  seqs [WordBoundary; lit_ci "please"; WordBoundary;
        Repeat true 0 (Some 15) Js.any_char;
        Group 1 verbs;
        title_tail 2].

(** [/(?:need|needs) to\s+(do|...|review)(.+?)(?:\.|$)/i] *)
Definition need_to : regex :=
  seqs [Alt (lit_ci "need") (lit_ci "needs"); lit_ci " to";
        Repeat true 1 None Js.is_space;
        Group 1 verbs;
        title_tail 2].

(** [/\b(do|...|review)\b.{0,15}(by|before|after|on)(.+?)(?:\.|$)/i] *)
Definition verb_by : regex :=
  seqs [WordBoundary; Group 1 verbs; WordBoundary;
        Repeat true 0 (Some 15) Js.any_char;
        Group 2 (alts (map lit_ci ["by"; "before"; "after"; "on"]));
        title_tail 3].

(** [/\[\s?\]\s+(.+?)(?:\.|$)/] *)
Definition checkbox : regex :=
  seqs [chr "["%char; Repeat true 0 (Some 1) Js.is_space; chr "]"%char;
        Repeat true 1 None Js.is_space;
        title_tail 1].

(** [/\*\s+(.+?)(?:\.|$)/] *)
Definition bullet : regex :=
  seqs [chr "*"%char; Repeat true 1 None Js.is_space; title_tail 1].

(** [/\d+\.\s+(.+?)(?:\.|$)/] *)
Definition numbered : regex :=
  seqs [Repeat true 1 None Js.is_digit; chr "."%char;
        Repeat true 1 None Js.is_space;
        title_tail 1].

End Patterns.

Definition TASK_PATTERNS : list Regex.regex :=
  [Patterns.todo; Patterns.please; Patterns.need_to; Patterns.verb_by;
   Patterns.checkbox; Patterns.bullet; Patterns.numbered].

(** [text.match(pattern)]: [None] is [null], otherwise the captures
    [matches.slice(1)]; the array has one more entry, the whole match. *)
Definition js_match (text : string) (pattern : Regex.regex)
    : option (list string) :=
  Regex.captured pattern <$> Regex.search pattern [] (Js.chars text).

(** Slack timestamps, in microseconds. *)
Definition Ts : Type := Z.

(** The messages handed to the summary functions. *)
Record SummaryMessage : Type := {
  sm_text : string;
  sm_ts : Ts;
  sm_thread_ts : option Ts;
  sm_permalink : string;
  sm_user_id : string;
  sm_reactions : option (gmap string (list string))
}.

Record Task : Type := {
  title : string;
  owner_user_id : option string;
  due_date : option string;
  confidence : Q;
  source_ts : Ts;
  source_permalink : string
}.

Section TaskHeuristics.

(** [chrono.parse(text)], each result given as
    [r.start.date().toISOString()]; the library is not part of the
    sources. *)
Variable chrono_parse : string -> list string.

Definition task_of_match (message : SummaryMessage) (caps : list string)
    : option Task :=
  let title := Js.trim (Js.join " " caps) in
  if (String.length title <? 5)%nat then None
  else
    let mentions := extractMentions (sm_text message) in
    let owner :=
      if (length mentions =? 1)%nat then head mentions else None in
    let parsedDate := chrono_parse (sm_text message) in
    let dueDate :=
      if (0 <? length parsedDate)%nat then head parsedDate else None in
    Some {| title := title;
            owner_user_id := owner;
            due_date := dueDate;
            confidence := 0.6;
            source_ts := sm_ts message;
            source_permalink := sm_permalink message |}.

Definition task_of_pattern (message : SummaryMessage) (pattern : Regex.regex)
    : option Task :=
  match js_match (sm_text message) pattern with
  | Some caps =>
      if (1 <? S (length caps))%nat then task_of_match message caps else None
  | None => None
  end.

Definition extractTasksHeuristic (message : SummaryMessage) : list Task :=
  omap (task_of_pattern message) TASK_PATTERNS.

End TaskHeuristics.

(** The mock message of the unit tests, with the text of each test. *)
Definition mockMessage (text : string) : SummaryMessage :=
  {| sm_text := text; sm_ts := 1621573200000000%Z; sm_thread_ts := None;
     sm_permalink := "https://example.com/archives/C1234/p1621573200000000";
     sm_user_id := "U9876"; sm_reactions := None |}.


(** ** Exceptions and promises *)

Inductive Exn : Type :=
| RateLimitedError (retryAfter : option Z)
    (* [error.code === ErrorCode.RateLimitedError]; [error.retryAfter] in seconds *)
| SlackError (code : string)          (* any other rejection of the Web API *)
| StoreError (operation : string)     (* a rejected Prisma call *)
| ServiceError (what : string)        (* a rejected call of the generative service *)
| JsError (message : string).         (* [throw new Error(message)] *)

(** A settled promise, or the outcome of a [try] block. *)
Inductive Result (A : Type) : Type :=
| Ok (a : A)
| Throw (e : Exn).
Arguments Ok {A} a.
Arguments Throw {A} e.

Definition is_rate_limited (e : Exn) : bool :=
  match e with RateLimitedError _ => true | _ => false end.

(** [error.retryAfter || 1] *)
Definition retry_after_or_1 (e : Exn) : Z :=
  match e with
  | RateLimitedError (Some s) => Js.or_num s 1
  | _ => 1
  end.

(** ** Rate-limited client ([makeSlackRequest], ingest.ts)

    [requestFn] is a thunk that is called once per attempt; its outcome at
    the call number [i] (from 0) is [requestFn i]. Besides the result the
    model returns the number of calls made and, for every retry, the values
    of the loop variables and the time slept. *)

Record RetryStep : Type := {
  step_retryAfter : option Z;   (* as supplied by the API, seconds *)
  step_delay : Z;               (* [delay] when the error was caught, ms *)
  step_slept : Z                (* argument of [sleep], ms *)
}.

Record Request (T : Type) : Type := {
  settled : Result T;
  attempts : nat;
  retried : list RetryStep
}.
Arguments settled {T} r.
Arguments attempts {T} r.
Arguments retried {T} r.

Definition supplied_retry_after (e : Exn) : option Z :=
  match e with RateLimitedError ra => ra | _ => None end.

Fixpoint request_loop {T : Type} (fuel : nat) (requestFn : nat -> Result T)
    (maxRetries : nat) (retries : nat) (delay : Z) (steps : list RetryStep)
    : option (Request T) :=
  match fuel with
  | O => None
  | S fuel' =>
      match requestFn retries with
      | Ok v =>
          Some {| settled := Ok v; attempts := S retries; retried := steps |}
      | Throw error =>
          if is_rate_limited error && (retries <? maxRetries)%nat then
            let retryAfter := retry_after_or_1 error in
            let ms := Js.or_num (retryAfter * 1000) delay in
            request_loop fuel' requestFn maxRetries (S retries) (delay * 2)
              (steps ++ [{| step_retryAfter := supplied_retry_after error;
                            step_delay := delay;
                            step_slept := ms |}])
          else
            Some {| settled := Throw error; attempts := S retries;
                    retried := steps |}
      end
  end.

(** The loop is entered with [retries = 0] and runs at most
    [maxRetries + 1] times (see [makeSlackRequest_returns]). *)
Definition makeSlackRequest {T : Type} (requestFn : nat -> Result T)
    (maxRetries : nat) (initialDelay : Z) : option (Request T) :=
  request_loop (S maxRetries) requestFn maxRetries 0 initialDelay [].

(** ** Slack Web API responses (the interfaces of ingest.ts) *)

Record Channel : Type := {
  ch_id : string;
  ch_name : string;
  is_channel : bool;
  is_group : bool;
  is_im : bool;
  is_mpim : bool
}.

Record ConversationListResponse : Type := {
  channels : list Channel;
  list_next_cursor : option string
}.

Record Reaction : Type := {
  reaction_name : string;
  reaction_count : nat;
  reaction_users : list string
}.

(** An element of [ConversationHistoryResponse['messages']]; replies have
    the same fields. *)
Record SlackMessage : Type := {
  msg_type : string;
  msg_user : option string;
  msg_text : string;
  msg_ts : Ts;
  msg_thread_ts : option Ts;
  msg_reply_count : option nat;
  msg_reactions : option (list Reaction)
}.

Record HistoryResponse : Type := {
  messages : list SlackMessage;
  has_more : bool;
  next_cursor : option string
}.

Record SlackUser : Type := {
  su_name : string;
  su_real_name : option string;
  su_email : option string;       (* [user.profile?.email] *)
  su_image_72 : option string;    (* [user.profile?.image_72] *)
  su_is_bot : option bool
}.

(** Truthiness of an optional string: [undefined] and [""] are falsy. *)
Definition truthy (s : option string) : bool :=
  match s with
  | Some v => negb (String.eqb v "")
  | None => false
  end.

(** [s || null] *)
Definition or_null (s : option string) : option string :=
  if truthy s then s else None.

(** ** The relational store (Prisma models) *)

Inductive ConversationType : Type := TChannel | TGroup | TIm | TMpim.

Record Conversation : Type := {
  conv_id : nat;
  conv_slack_id : string;
  conv_name : string;
  conv_type : ConversationType;
  last_ts_processed : option Ts;
  conv_createdAt : Z;
  conv_updatedAt : Z
}.

Record Message : Type := {
  m_channel_id : nat;
  m_ts : Ts;
  m_user_id : string;
  m_text : string;
  m_thread_ts : option Ts;
  m_permalink : string;
  m_reactions : option (gmap string (list string));
  m_mentions : list string;
  m_createdAt : Z
}.

Record User : Type := {
  u_slack_id : string;
  u_name : string;
  u_real_name : option string;
  u_email : option string;
  u_avatar : option string;
  u_is_bot : bool;
  u_last_updated : Z
}.

Record Highlight : Type := {
  h_text : string;
  h_permalink : string;
  h_ts : Ts;
  h_user_id : string
}.

Record MentionStat : Type := {
  mention_count : nat;
  mention_contexts : list string
}.

Record SummaryData : Type := {
  sd_summary : string;
  sd_highlights : list Highlight;
  sd_tasks : list Task;
  sd_mentions : gmap string MentionStat
}.

Record Summary : Type := {
  s_id : nat;
  s_channel_id : nat;
  s_period_start : Z;
  s_period_end : Z;
  s_summary : string;
  s_highlights : list Highlight;
  s_tasks : list Task;
  s_mentions : gmap string MentionStat
}.

Record Store : Type := {
  conversations : list Conversation;
  stored_messages : list Message;
  users : list User;
  summaries : list Summary
}.

(** The store operations that can be rejected. *)
Inductive StoreOp : Type :=
| ConversationUpsert (slack_id : string)
| ConversationUpdate (id : nat)
| ConversationFindUnique (id : nat)
| MessageUpsert (channel_id : nat) (ts : Ts)
| MessageFindMany (channel_id : nat)
| UserUpsert (slack_id : string)
| SummaryCreate (channel_id : nat).

(** ** The process state *)

Record UserCacheItem : Type := {
  uc_id : string;
  uc_name : string;
  uc_real_name : option string;
  uc_email : option string;
  uc_avatar : option string;
  uc_is_bot : bool;
  uc_timestamp : Z
}.

Inductive Level : Type := Debug | Info | Warn | Error.

Record World : Type := {
  store : Store;
  userCache : gmap string UserCacheItem;
  now : Z;                         (* [Date.now()], ms *)
  sleeps : list Z;                 (* arguments of [sleep], latest first *)
  logged : list (Level * string)   (* latest first *)
}.

Definition USER_CACHE_TTL : Z := 3600 * 1000.

(** ** Asynchronous computations

    [Done r w]: the computation settled with [r] in the world [w].
    [Pending]: a loop of the source did not end within the fuel given to
    the model; no [catch] sees it. *)

Inductive Outcome (A : Type) : Type :=
| Done (r : Result A) (w : World)
| Pending.
Arguments Done {A} r w.
Arguments Pending {A}.

Definition M (A : Type) : Type := World -> Outcome A.

Definition ret {A} (a : A) : M A := fun w => Done (Ok a) w.
Definition throw {A} (e : Exn) : M A := fun w => Done (Throw e) w.

Definition bind {A B} (m : M A) (k : A -> M B) : M B :=
  fun w =>
    match m w with
    | Done (Ok a) w' => k a w'
    | Done (Throw e) w' => Done (Throw e) w'
    | Pending => Pending
    end.

(** [try { m } catch (error) { handler error }] *)
Definition try_catch {A} (m : M A) (handler : Exn -> M A) : M A :=
  fun w =>
    match m w with
    | Done (Ok a) w' => Done (Ok a) w'
    | Done (Throw e) w' => handler e w'
    | Pending => Pending
    end.

Notation "x <- m ;; k" := (bind m (fun x => k))
  (at level 100, m at next level, right associativity).
Notation "m ;;; k" := (bind m (fun _ => k))
  (at level 100, right associativity).

Definition get : M World := fun w => Done (Ok w) w.
Definition modify (f : World -> World) : M unit := fun w => Done (Ok tt) (f w).

Definition set_store (s : Store) (w : World) : World :=
  {| store := s; userCache := userCache w; now := now w;
     sleeps := sleeps w; logged := logged w |}.

Definition set_userCache (c : gmap string UserCacheItem) (w : World) : World :=
  {| store := store w; userCache := c; now := now w;
     sleeps := sleeps w; logged := logged w |}.

(** [logger.<level>(..., text)]; logging does not fail. *)
Definition log (l : Level) (text : string) : M unit :=
  modify (fun w =>
    {| store := store w; userCache := userCache w; now := now w;
       sleeps := sleeps w; logged := (l, text) :: logged w |}).

(** [await sleep(ms)] *)
Definition sleep (ms : Z) : M unit :=
  modify (fun w =>
    {| store := store w; userCache := userCache w; now := (now w + ms)%Z;
       sleeps := ms :: sleeps w; logged := logged w |}).

Fixpoint for_each {A} (l : list A) (body : A -> M unit) : M unit :=
  match l with
  | [] => ret tt
  | x :: r => body x ;;; for_each r body
  end.

Fixpoint map_m {A B} (f : A -> M B) (l : list A) : M (list B) :=
  match l with
  | [] => ret []
  | x :: r => y <- f x ;; ys <- map_m f r ;; ret (y :: ys)
  end.

(** ** The environment: configuration, the Slack Web API and store faults

    Every API method answers a request by the outcome of each successive
    attempt ([nat -> Result _], see [makeSlackRequest]); [store_rejects]
    tells which store operations are rejected. *)

Record Env : Type := {
  MAX_RETRIES : nat;
  RATE_LIMIT_DELAY : Z;
  conversations_list : option string -> nat -> Result ConversationListResponse;
  conversations_info : string -> nat -> Result (option Channel);
  conversations_history :
    string -> option Ts -> option string -> nat -> nat -> Result HistoryResponse;
  conversations_replies :
    string -> Ts -> option string -> nat -> nat -> Result HistoryResponse;
  users_info : string -> nat -> Result (option SlackUser);
  chat_getPermalink : string -> Ts -> nat -> Result string;
  store_rejects : StoreOp -> bool
}.

Section Ingest.

Variable env : Env.

(** Bound on the number of pages a pagination loop of the model reads. *)
Variable fuel : nat.

(** [makeSlackRequest(requestFn)] with the configured defaults, in [M]:
    each retry warns and sleeps, a rejection is logged and rethrown. *)
Definition slackRequest {T} (requestFn : nat -> Result T) : M T :=
  match makeSlackRequest requestFn (MAX_RETRIES env) (RATE_LIMIT_DELAY env) with
  | None => fun _ => Pending
  | Some r =>
      for_each (retried r) (fun s =>
        log Warn "Rate limited by Slack API, retrying" ;;;
        sleep (step_slept s)) ;;;
      match settled r with
      | Ok v => ret v
      | Throw error => log Error "Error making Slack request" ;;; throw error
      end
  end.

(** *** Store operations *)

Definition store_call {A} (op : StoreOp) (what : string)
    (body : World -> Result A * Store) : M A :=
  fun w =>
    if store_rejects env op then Done (Throw (StoreError what)) w
    else let '(r, s) := body w in Done r (set_store s w).

Definition fresh_id (rows : list Conversation) : nat :=
  S (foldr Nat.max 0%nat (map conv_id rows)).

Definition with_conversations (s : Store) (rows : list Conversation) : Store :=
  {| conversations := rows; stored_messages := stored_messages s;
     users := users s; summaries := summaries s |}.

Definition with_messages (s : Store) (rows : list Message) : Store :=
  {| conversations := conversations s; stored_messages := rows;
     users := users s; summaries := summaries s |}.

Definition with_users (s : Store) (rows : list User) : Store :=
  {| conversations := conversations s; stored_messages := stored_messages s;
     users := rows; summaries := summaries s |}.

Definition with_summaries (s : Store) (rows : list Summary) : Store :=
  {| conversations := conversations s; stored_messages := stored_messages s;
     users := users s; summaries := rows |}.

(** [prisma.conversation.upsert({where: {slack_id}, update: {name, type,
    updatedAt}, create: {...}})] *)
Definition conversation_upsert (id name : string) (type : ConversationType)
    : M Conversation :=
  store_call (ConversationUpsert id) "conversation.upsert" (fun w =>
    let s := store w in
    match List.find (fun c => String.eqb (conv_slack_id c) id) (conversations s) with
    | Some c =>
        let c' := {| conv_id := conv_id c; conv_slack_id := conv_slack_id c;
                     conv_name := name; conv_type := type;
                     last_ts_processed := last_ts_processed c;
                     conv_createdAt := conv_createdAt c;
                     conv_updatedAt := now w |} in
        (Ok c',
         with_conversations s
           (map (fun x => if String.eqb (conv_slack_id x) id then c' else x)
                (conversations s)))
    | None =>
        let c' := {| conv_id := fresh_id (conversations s); conv_slack_id := id;
                     conv_name := name; conv_type := type;
                     last_ts_processed := None;
                     conv_createdAt := now w; conv_updatedAt := now w |} in
        (Ok c', with_conversations s (conversations s ++ [c']))
    end).

Definition set_last_ts (ts : Ts) (c : Conversation) : Conversation :=
  {| conv_id := conv_id c; conv_slack_id := conv_slack_id c;
     conv_name := conv_name c; conv_type := conv_type c;
     last_ts_processed := Some ts;
     conv_createdAt := conv_createdAt c; conv_updatedAt := conv_updatedAt c |}.

(** [prisma.conversation.update({where: {id}, data: {last_ts_processed}})];
    rejected when no row has the id. *)
Definition conversation_update_last_ts (id : nat) (ts : Ts) : M unit :=
  store_call (ConversationUpdate id) "conversation.update" (fun w =>
    let s := store w in
    if existsb (fun c => Nat.eqb (conv_id c) id) (conversations s) then
      (Ok tt,
       with_conversations s
         (map (fun c => if Nat.eqb (conv_id c) id then set_last_ts ts c else c)
              (conversations s)))
    else (Throw (StoreError "conversation.update: record not found"), s)).

Definition same_key (channel_id : nat) (ts : Ts) (m : Message) : bool :=
  Nat.eqb (m_channel_id m) channel_id && Z.eqb (m_ts m) ts.

(** [prisma.message.upsert] on the compound key [channel_id_ts]. A field
    given as [undefined] in [update] is left as it is, in [create] it takes
    its default, [null]. *)
Definition message_upsert (channel_id : nat) (ts : Ts) (user_id text : string)
    (thread_ts : option Ts) (permalink : string)
    (reactions : option (gmap string (list string))) (mentions : list string)
    : M Message :=
  store_call (MessageUpsert channel_id ts) "message.upsert" (fun w =>
    let s := store w in
    match List.find (same_key channel_id ts) (stored_messages s) with
    | Some m =>
        let m' := {| m_channel_id := m_channel_id m; m_ts := m_ts m;
                     m_user_id := m_user_id m; m_text := text;
                     m_thread_ts :=
                       match thread_ts with Some t => Some t | None => m_thread_ts m end;
                     m_permalink := permalink;
                     m_reactions :=
                       match reactions with Some r => Some r | None => m_reactions m end;
                     m_mentions := mentions;
                     m_createdAt := m_createdAt m |} in
        (Ok m',
         with_messages s
           (map (fun x => if same_key channel_id ts x then m' else x)
                (stored_messages s)))
    | None =>
        let m' := {| m_channel_id := channel_id; m_ts := ts;
                     m_user_id := user_id; m_text := text;
                     m_thread_ts := thread_ts; m_permalink := permalink;
                     m_reactions := reactions; m_mentions := mentions;
                     m_createdAt := now w |} in
        (Ok m', with_messages s (stored_messages s ++ [m']))
    end).

(** [prisma.user.upsert({where: {slack_id}, ...})] *)
Definition user_upsert (userId : string) (user : SlackUser) : M unit :=
  store_call (UserUpsert userId) "user.upsert" (fun w =>
    let s := store w in
    let u := {| u_slack_id := userId; u_name := su_name user;
                u_real_name := or_null (su_real_name user);
                u_email := or_null (su_email user);
                u_avatar := or_null (su_image_72 user);
                u_is_bot := default false (su_is_bot user);
                u_last_updated := now w |} in
    if existsb (fun x => String.eqb (u_slack_id x) userId) (users s) then
      (Ok tt,
       with_users s
         (map (fun x => if String.eqb (u_slack_id x) userId then u else x) (users s)))
    else (Ok tt, with_users s (users s ++ [u]))).

(** *** [listAllConversations] *)

Fixpoint list_loop (n : nat) (acc : list Channel) (cursor : option string)
    : M (list Channel) :=
  match n with
  | O => fun _ => Pending
  | S n' =>
      response <- slackRequest (conversations_list env (or_null cursor)) ;;
      let acc' := acc ++ channels response in
      let cursor' := list_next_cursor response in
      if truthy cursor' then list_loop n' acc' cursor' else ret acc'
  end.

Definition listAllConversations : M (list Channel) :=
  conversations <- list_loop fuel [] None ;;
  log Info "Found conversations" ;;;
  ret conversations.

(** *** [ensureConversation] *)

Definition ensureConversation (conversationInfo : Channel) : M Conversation :=
  let id := ch_id conversationInfo in
  let name := ch_name conversationInfo in
  match
    (if is_channel conversationInfo then Some TChannel
     else if is_group conversationInfo then Some TGroup
     else if is_im conversationInfo then Some TIm
     else if is_mpim conversationInfo then Some TMpim
     else None)
  with
  | None => throw (JsError ("Unknown conversation type for " ++ id))
  | Some type =>
      conversation <- conversation_upsert id name type ;;
      log Debug "Ensured conversation" ;;;
      ret conversation
  end.

(** *** [getPermalink] *)

Definition getPermalink (channel : string) (message_ts : Ts) : M string :=
  try_catch
    (slackRequest (chat_getPermalink env channel message_ts))
    (fun error => log Error "Failed to get permalink" ;;; ret "").

(** *** [getUserInfo] *)

Definition cache_item (userId : string) (user : SlackUser) (now : Z)
    : UserCacheItem :=
  {| uc_id := userId; uc_name := su_name user;
     uc_real_name := or_null (su_real_name user);
     uc_email := or_null (su_email user);
     uc_avatar := or_null (su_image_72 user);
     uc_is_bot := default false (su_is_bot user);
     uc_timestamp := now |}.

Definition cache_fresh (now : Z) (entry : option UserCacheItem) : bool :=
  match entry with
  | Some item => (now - uc_timestamp item <? USER_CACHE_TTL)%Z
  | None => false
  end.

Definition getUserInfo (userId : string) : M (option UserCacheItem) :=
  w <- get ;;
  let now := now w in
  if cache_fresh now (userCache w !! userId) then ret (userCache w !! userId)
  else
    try_catch
      (response <- slackRequest (users_info env userId) ;;
       match response with
       | None => throw (JsError ("User " ++ userId ++ " not found"))
       | Some user =>
           user_upsert userId user ;;;
           modify (fun w =>
             set_userCache (<[userId := cache_item userId user now]> (userCache w)) w) ;;;
           w' <- get ;;
           ret (userCache w' !! userId)
       end)
      (fun error => log Error "Failed to get user info" ;;; ret None).

(** *** [fetchThreadReplies] *)

Fixpoint replies_loop (n : nat) (conversationId : string) (threadTs : Ts)
    (replies : list SlackMessage) (cursor : option string) (hasMore : bool)
    : M (list SlackMessage) :=
  if hasMore then
    match n with
    | O => fun _ => Pending
    | S n' =>
        response <-
          slackRequest
            (conversations_replies env conversationId threadTs (or_null cursor) 100) ;;
        (* Skip the first message as it's the thread parent, already stored *)
        let replies' :=
          if (length replies =? 0)%nat && (0 <? length (messages response))%nat
          then replies ++ skipn 1 (messages response)
          else replies ++ messages response in
        replies_loop n' conversationId threadTs replies'
          (next_cursor response) (has_more response)
    end
  else ret replies.

Definition fetchThreadReplies (conversationId : string) (threadTs : Ts)
    : M (list SlackMessage) :=
  try_catch
    (replies_loop fuel conversationId threadTs [] None true)
    (fun error => log Error "Failed to fetch thread replies" ;;; throw error).

(** *** [fetchMessages] *)

Fixpoint history_loop (n : nat) (conversationId : string) (oldest : option Ts)
    (limit : nat) (allMessages : list SlackMessage) (cursor : option string)
    (hasMore : bool) : M (list SlackMessage) :=
  if hasMore && (length allMessages <? limit)%nat then
    match n with
    | O => fun _ => Pending
    | S n' =>
        response <-
          slackRequest
            (conversations_history env conversationId oldest (or_null cursor)
               (Nat.min 100 (limit - length allMessages))) ;;
        history_loop n' conversationId oldest limit
          (allMessages ++ messages response)
          (next_cursor response) (has_more response)
    end
  else ret allMessages.

(** [m.thread_ts && !m.reply_count] *)
Definition in_thread_without_replies (m : SlackMessage) : bool :=
  match msg_thread_ts m with
  | Some _ =>
      match msg_reply_count m with
      | Some (S _) => false
      | _ => true
      end
  | None => false
  end.

Definition fetchMessages (conversationId : string) (oldest : option Ts)
    (limit : nat) : M (list SlackMessage) :=
  try_catch
    (allMessages <- history_loop fuel conversationId oldest limit [] None true ;;
     (* Process messages that are part of threads *)
     for_each (List.filter in_thread_without_replies allMessages)
       (fun message =>
          try_catch
            (fetchThreadReplies conversationId (msg_ts message) ;;; ret tt)
            (fun error => log Error "Failed to fetch thread replies")) ;;;
     ret allMessages)
    (fun error => log Error "Failed to fetch messages" ;;; throw error).

(** *** [processMessage] *)

Definition format_reactions (rs : list Reaction) : gmap string (list string) :=
  foldl (fun acc r => <[reaction_name r := reaction_users r]> acc) ∅ rs.

Definition processMessage (message : SlackMessage) (channelId : string)
    (conversationDbId : nat) : M (option Message) :=
  try_catch
    ((* Skip messages without a user (system messages) *)
     if negb (truthy (msg_user message))
        || negb (String.eqb (msg_type message) "message")
     then ret None
     else
       permalink <- getPermalink channelId (msg_ts message) ;;
       let mentions := extractMentions (msg_text message) in
       map_m getUserInfo mentions ;;;
       let reactions := format_reactions <$> msg_reactions message in
       storedMessage <-
         message_upsert conversationDbId (msg_ts message)
           (default "" (msg_user message)) (msg_text message)
           (msg_thread_ts message) permalink reactions mentions ;;
       ret (Some storedMessage))
    (fun error => log Error "Failed to process message" ;;; ret None).

(** *** [ingestAllConversations] *)

(** The loop over the fetched batch: every message is handed to
    [processMessage], whose result is dropped, and [lastTs] follows the
    greatest timestamp seen. *)
Fixpoint process_batch (batch : list SlackMessage) (channelId : string)
    (conversationDbId : nat) (lastTs : option Ts) : M (option Ts) :=
  match batch with
  | [] => ret lastTs
  | message :: rest =>
      processMessage message channelId conversationDbId ;;;
      let lastTs' :=
        match lastTs with
        | None => Some (msg_ts message)
        | Some l => if (l <? msg_ts message)%Z then Some (msg_ts message) else lastTs
        end in
      process_batch rest channelId conversationDbId lastTs'
  end.

(** The loop over the batch, then the update of the last processed
    timestamp (the watermark of the conversation). *)
Definition store_batch (batch : list SlackMessage) (channelId : string)
    (conversationDbId : nat) : M unit :=
  lastTs <- process_batch batch channelId conversationDbId None ;;
  match lastTs with
  | Some ts => conversation_update_last_ts conversationDbId ts
  | None => ret tt
  end.

(** The body of the [try] block run for one listed conversation. The
    result tells whether control reached the end of the block; it is
    [false] after the [continue] of an inaccessible conversation, which
    also skips the delay that follows the block. *)
Definition ingestConversation (since : option Ts) (conversation : Channel)
    : M bool :=
  conversationInfo <- slackRequest (conversations_info env (ch_id conversation)) ;;
  match conversationInfo with
  | None => log Warn "Cannot access conversation, skipping" ;;; ret false
  | Some _ =>
      dbConversation <- ensureConversation conversation ;;
      let oldest :=
        match since with
        | Some _ => since
        | None => last_ts_processed dbConversation
        end in
      log Info "Fetching messages" ;;;
      batch <- fetchMessages (ch_id conversation) oldest 1000 ;;
      log Info "Processing messages" ;;;
      store_batch batch (ch_id conversation) (conv_id dbConversation) ;;;
      log Info "Finished processing conversation" ;;;
      ret true
  end.

Definition ingestAllConversations (since : option Ts) : M unit :=
  try_catch
    (log Info "Starting ingestion for all conversations" ;;;
     conversations <- listAllConversations ;;
     for_each conversations (fun conversation =>
       completed <-
         try_catch
           (ingestConversation since conversation)
           (fun error => log Error "Error processing conversation" ;;; ret true) ;;
       (* Avoid rate limiting by adding a small delay between conversations *)
       if completed then sleep 1000 else ret tt) ;;;
     log Info "Completed ingestion for all conversations")
    (fun error => log Error "Failed to ingest conversations" ;;; throw error).

(** *** [queueMessageForIngestion]

    The event carries the fields of a message and its channel. *)

(** [new Date(parseFloat(ts) * 1000)], a number of milliseconds. *)
Definition date_of_ts (ts : Ts) : Z := (ts / 1000)%Z.

Definition queueMessageForIngestion (event : SlackMessage) (channel : string)
    : M unit :=
  try_catch
    (if negb (String.eqb (msg_type event) "message") then ret tt
     else
       conversationInfo <- slackRequest (conversations_info env channel) ;;
       match conversationInfo with
       | None => log Error "Failed to get conversation info"
       | Some info =>
           conversation <- ensureConversation info ;;
           processMessage event channel (conv_id conversation) ;;;
           match msg_thread_ts event with
           | Some thread_ts =>
               if negb (thread_ts =? msg_ts event)%Z then
                 threadInfo <-
                   slackRequest (conversations_replies env channel thread_ts None 1) ;;
                 match messages threadInfo with
                 | parent :: _ =>
                     processMessage parent channel (conv_id conversation) ;;; ret tt
                 | [] => ret tt
                 end
               else ret tt
           | None => ret tt
           end ;;;
           let messageDate := date_of_ts (msg_ts event) in
           match last_ts_processed conversation with
           | Some last =>
               if (date_of_ts last <? messageDate)%Z
               then conversation_update_last_ts (conv_id conversation) (msg_ts event)
               else ret tt
           | None => conversation_update_last_ts (conv_id conversation) (msg_ts event)
           end
       end)
    (fun error => log Error "Failed to queue message for ingestion").

End Ingest.

(** ** Summaries (summarize.ts) *)

(** The parsed reply of the generative service, before the defaults of
    [generateAISummary] are applied: any key may be missing. *)
Record AiReply : Type := {
  ai_summary : option string;
  ai_highlights : option (list Highlight);
  ai_tasks : option (list Task);
  ai_mentions : option (gmap string MentionStat)
}.

Section Summarize.

Variable env : Env.
Variable chrono_parse : string -> list string.

(** [new Date(parseFloat(ts) * 1000).toLocaleString()]; it depends on the
    locale of the host. *)
Variable toLocaleString : Ts -> string.

(** The client of the generative service, [null] when no key is configured.
    A call answers with the parsed JSON content or is rejected (a failed
    request, or content that [JSON.parse] refuses). *)
Variable openai : option (list SummaryMessage -> string -> Result AiReply).

Definition generateAISummary (msgs : list SummaryMessage) (channelName : string)
    : M SummaryData :=
  match openai with
  | None => throw (JsError "OpenAI API key not configured")
  | Some create =>
      try_catch
        (match create msgs channelName with
         | Ok summaryData =>
             ret {| sd_summary :=
                      if truthy (ai_summary summaryData)
                      then default "" (ai_summary summaryData)
                      else "No summary available.";
                    sd_highlights := default [] (ai_highlights summaryData);
                    sd_tasks := default [] (ai_tasks summaryData);
                    sd_mentions := default ∅ (ai_mentions summaryData) |}
         | Throw error => throw error
         end)
        (fun error => log Error "Error generating AI summary" ;;; throw error)
  end.

(** [messages.some(m => m.thread_ts === msg.ts && m.ts !== msg.ts)] *)
Definition is_thread_parent (msgs : list SummaryMessage) (msg : SummaryMessage)
    : bool :=
  existsb (fun m =>
    match sm_thread_ts m with
    | Some t => (t =? sm_ts msg)%Z && negb (sm_ts m =? sm_ts msg)%Z
    | None => false
    end) msgs.

Definition is_highlight (msgs : list SummaryMessage) (msg : SummaryMessage)
    : bool :=
  match sm_reactions msg with
  | Some r => (0 <? size r)%nat
  | None => false
  end
  || is_thread_parent msgs msg
  || Js.includes_char "?"%char (sm_text msg).

Definition highlight_of (msg : SummaryMessage) : Highlight :=
  {| h_text := sm_text msg; h_permalink := sm_permalink msg;
     h_ts := sm_ts msg; h_user_id := sm_user_id msg |}.

(** One step of the [forEach] that fills [threadMap]. *)
Definition thread_step (threadMap : gmap Z (list SummaryMessage))
    (msg : SummaryMessage) : gmap Z (list SummaryMessage) :=
  match sm_thread_ts msg with
  | Some t =>
      if negb (sm_ts msg =? t)%Z
      then <[t := default [] (threadMap !! t) ++ [msg]]> threadMap
      else threadMap
  | None => threadMap
  end.

(** One step of the inner [forEach] that fills [mentionsMap]. *)
Definition mention_step (text : string) (mentionsMap : gmap string MentionStat)
    (userId : string) : gmap string MentionStat :=
  let entry :=
    default {| mention_count := 0; mention_contexts := [] |} (mentionsMap !! userId) in
  <[userId :=
      {| mention_count := mention_count entry + 1;
         mention_contexts :=
           if (length (mention_contexts entry) <? 3)%nat
           then mention_contexts entry ++ [(Js.slice0 30 text ++ "...")%string]
           else mention_contexts entry |}]> mentionsMap.

Definition key_message_line (i : nat) (h : Highlight) : string :=
  pretty (i + 1)%nat ++ ". " ++ Js.quote ++ Js.slice0 50 (h_text h) ++ "..."
    ++ Js.quote ++ Js.newline.

Definition generateHeuristicSummary (msgs : list SummaryMessage)
    (channelName : string) : SummaryData :=
  (* Extract key messages based on reactions, thread starts, and mentions *)
  let highlights :=
    firstn 5 (map highlight_of (List.filter (is_highlight msgs) msgs)) in
  (* Extract threads *)
  let threadMap := foldl thread_step ∅ msgs in
  (* Extract mentions *)
  let mentionsMap :=
    foldl (fun acc msg =>
             foldl (mention_step (sm_text msg)) acc (extractMentions (sm_text msg)))
          ∅ msgs in
  (* Extract tasks *)
  let tasks :=
    foldl (fun tasks msg => tasks ++ extractTasksHeuristic chrono_parse msg) [] msgs in
  (* Generate a simple summary text *)
  let first_ts := default 0%Z (sm_ts <$> head msgs) in
  let last_ts := default 0%Z (sm_ts <$> last msgs) in
  let summaryText :=
    ("Channel: " ++ channelName ++ Js.newline
     ++ "Period: " ++ toLocaleString first_ts ++ " to " ++ toLocaleString last_ts
     ++ Js.newline ++ Js.newline
     ++ "Total messages: " ++ pretty (length msgs) ++ Js.newline
     ++ "Active threads: " ++ pretty (size threadMap) ++ Js.newline
     ++ "Unique participants: "
     ++ pretty (length (Js.set_of (map sm_user_id msgs))) ++ Js.newline
     ++ (if (0 <? length highlights)%nat
         then Js.newline ++ "Key messages:" ++ Js.newline
              ++ String.concat EmptyString (imap key_message_line highlights)
         else EmptyString))%string in
  {| sd_summary := summaryText;
     sd_highlights := highlights;
     sd_tasks := tasks;
     sd_mentions := mentionsMap |}.

(** *** Store queries of the summary generator *)

Definition conversation_findUnique (id : nat) : M (option Conversation) :=
  store_call env (ConversationFindUnique id) "conversation.findUnique" (fun w =>
    (Ok (List.find (fun c => Nat.eqb (conv_id c) id) (conversations (store w))),
     store w)).

Definition ts_le (a b : Message) : Prop := (m_ts a <= m_ts b)%Z.

Local Instance ts_le_dec a b : Decision (ts_le a b).
Proof. unfold ts_le. apply _. Defined.

(** The rows of a channel created within the window, by ascending [ts]. *)
Definition messages_in_window (s : Store) (channel_id : nat)
    (startTime endTime : Z) : list Message :=
  merge_sort ts_le
    (List.filter
       (fun m => Nat.eqb (m_channel_id m) channel_id
                 && (startTime <=? m_createdAt m)%Z
                 && (m_createdAt m <=? endTime)%Z)
       (stored_messages s)).

(** [prisma.message.findMany({where: {channel_id, createdAt: {gte, lte}},
    orderBy: {ts: 'asc'}})] *)
Definition message_findMany (channel_id : nat) (startTime endTime : Z)
    : M (list Message) :=
  store_call env (MessageFindMany channel_id) "message.findMany" (fun w =>
    (Ok (messages_in_window (store w) channel_id startTime endTime), store w)).

Definition summary_create (channel_id : nat) (startTime endTime : Z)
    (d : SummaryData) : M Summary :=
  store_call env (SummaryCreate channel_id) "summary.create" (fun w =>
    let s := store w in
    let row := {| s_id := S (foldr Nat.max 0%nat (map s_id (summaries s)));
                  s_channel_id := channel_id;
                  s_period_start := startTime; s_period_end := endTime;
                  s_summary := sd_summary d; s_highlights := sd_highlights d;
                  s_tasks := sd_tasks d; s_mentions := sd_mentions d |} in
    (Ok row, with_summaries s (summaries s ++ [row]))).

Definition summary_message (m : Message) : SummaryMessage :=
  {| sm_text := m_text m; sm_ts := m_ts m; sm_thread_ts := m_thread_ts m;
     sm_permalink := m_permalink m; sm_user_id := m_user_id m;
     sm_reactions := m_reactions m |}.

(** *** [generateSummaryForTimeWindow] *)

Definition generateSummaryForTimeWindow (conversationId : nat)
    (startTime endTime : Z) : M (option Summary) :=
  try_catch
    (found <- conversation_findUnique conversationId ;;
     match found with
     | None =>
         log Error "Conversation not found" ;;;
         throw (JsError ("Conversation " ++ pretty conversationId ++ " not found"))
     | Some conversation =>
         msgs <- message_findMany conversationId startTime endTime ;;
         if (length msgs =? 0)%nat then
           log Info "No messages in time window, skipping summary" ;;;
           ret None
         else
           log Info "Generating summary" ;;;
           summaryData <-
             try_catch
               (match openai with
                | Some _ =>
                    (* Use OpenAI if available *)
                    generateAISummary (map summary_message msgs)
                      (conv_name conversation)
                | None =>
                    (* Fall back to heuristic methods *)
                    ret (generateHeuristicSummary (map summary_message msgs)
                           (conv_name conversation))
                end)
               (fun error =>
                  log Error "Error generating summary, falling back to heuristic" ;;;
                  ret (generateHeuristicSummary (map summary_message msgs)
                         (conv_name conversation))) ;;
           summary <- summary_create conversationId startTime endTime summaryData ;;
           log Info "Summary generated and stored" ;;;
           ret (Some summary)
     end)
    (fun error => log Error "Failed to generate summary" ;;; throw error).

End Summarize.

(** ** Reaction events ([app.event('reaction_added')], slack.ts) *)

Record ReactionEvent : Type := {
  re_item_type : string;   (* [event.item.type] *)
  re_channel : string;     (* [event.item.channel] *)
  re_ts : Ts;              (* [event.item.ts] *)
  re_reaction : string;    (* [event.reaction] *)
  re_user : string         (* [event.user] *)
}.

(** The stored reactions are a plain object, read with [reactions[name]]:
    a name that is not a key of the object is looked up in
    [Object.prototype], whose members are these. *)
Definition Object_prototype : list string :=
  ["constructor"; "hasOwnProperty"; "isPrototypeOf"; "propertyIsEnumerable";
   "toLocaleString"; "toString"; "valueOf"; "__proto__";
   "__defineGetter__"; "__defineSetter__"; "__lookupGetter__";
   "__lookupSetter__"].

Inductive Property : Type :=
| Own (users : list string)   (* a key of the object: an array, truthy *)
| Inherited                   (* a member of [Object.prototype], truthy *)
| Undefined.

(** [reactions[name]] *)
Definition property (reactions : gmap string (list string)) (name : string)
    : Property :=
  match reactions !! name with
  | Some users => Own users
  | None => if bool_decide (name ∈ Object_prototype) then Inherited else Undefined
  end.

(** The two conditional statements between the read and the write of the
    handler. *)
Definition add_reaction (reactions : gmap string (list string))
    (reaction user : string) : Result (gmap string (list string)) :=
  (* Add the new reaction *)
  let reactions :=
    match property reactions reaction with
    | Undefined => <[reaction := []]> reactions
    | _ => reactions
    end in
  (* Add the user if not already present *)
  match property reactions reaction with
  | Own users =>
      Ok (if bool_decide (user ∈ users) then reactions
          else <[reaction := users ++ [user]]> reactions)
  | _ => Throw (JsError "reactions[event.reaction].includes is not a function")
  end.

Definition set_reactions (reactions : gmap string (list string)) (m : Message)
    : Message :=
  {| m_channel_id := m_channel_id m; m_ts := m_ts m; m_user_id := m_user_id m;
     m_text := m_text m; m_thread_ts := m_thread_ts m;
     m_permalink := m_permalink m; m_reactions := Some reactions;
     m_mentions := m_mentions m; m_createdAt := m_createdAt m |}.

Section Handlers.

(** The calls of the store that are rejected, by the name of the call. *)
Variable prisma_rejects : string -> bool.

Definition prisma_call {A} (what : string) (body : World -> Result A * Store)
    : M A :=
  fun w =>
    if prisma_rejects what then Done (Throw (StoreError what)) w
    else let '(r, s) := body w in Done r (set_store s w).

(** [prisma.conversation.findFirst({where: {slack_id}})] *)
Definition conversation_findFirst (slack_id : string) : M (option Conversation) :=
  prisma_call "conversation.findFirst" (fun w =>
    (Ok (List.find (fun c => String.eqb (conv_slack_id c) slack_id)
           (conversations (store w))),
     store w)).

(** [prisma.message.findUnique({where: {channel_id_ts}})] *)
Definition message_findUnique (channel_id : nat) (ts : Ts) : M (option Message) :=
  prisma_call "message.findUnique" (fun w =>
    (Ok (List.find (same_key channel_id ts) (stored_messages (store w))),
     store w)).

(** [prisma.message.update({where: {id: message.id}, data: {reactions}})];
    the rows of the model have no id, the row is the one of the key that it
    was found by. *)
Definition message_update_reactions (message : Message)
    (reactions : gmap string (list string)) : M unit :=
  prisma_call "message.update" (fun w =>
    let s := store w in
    (Ok tt,
     with_messages s
       (map (fun x =>
               if same_key (m_channel_id message) (m_ts message) x
               then set_reactions reactions x else x)
            (stored_messages s)))).

Definition reaction_added (event : ReactionEvent) : M unit :=
  try_catch
    (if String.eqb (re_item_type event) "message" then
       (* Fetch the conversation to get the internal ID *)
       found <- conversation_findFirst (re_channel event) ;;
       match found with
       | None =>
           log Warn "Conversation not found when processing reaction"
       | Some conversation =>
           (* Find the message in the database *)
           found <- message_findUnique (conv_id conversation) (re_ts event) ;;
           match found with
           | None => log Warn "Message not found when processing reaction"
           | Some message =>
               (* Get the current reactions *)
               let reactions := default ∅ (m_reactions message) in
               match add_reaction reactions (re_reaction event) (re_user event) with
               | Throw error => throw error
               | Ok reactions =>
                   (* Update the message in the database *)
                   message_update_reactions message reactions
               end
           end
       end
     else ret tt)
    (fun error => log Error "Error handling reaction_added event").

End Handlers.

(** ** Posting a summary ([postSummaryToSlack], summarize.ts) *)

(** The blocks of Block Kit that the digest is made of. *)
Inductive Block : Type :=
| header_block (text : string)
    (* [{type: 'header', text: {type: 'plain_text', text, emoji: true}}] *)
| section_block (text : string)
    (* [{type: 'section', text: {type: 'mrkdwn', text}}] *)
| divider_block.

(** The answer of [chat.postMessage]. *)
Record PostResult : Type := { posted_ts : string }.

(** The comparator [(a, b) => b[1].count - a[1].count] puts [a] before [b]. *)
Definition by_count_desc (a b : string * MentionStat) : Prop :=
  (mention_count (snd b) <= mention_count (snd a))%nat.

#[global] Instance by_count_desc_dec a b : Decision (by_count_desc a b).
Proof. unfold by_count_desc. apply _. Defined.

Section Post.

Variable prisma_rejects : string -> bool.

(** [config.DIGEST_CHANNEL] *)
Variable DIGEST_CHANNEL : option string.

(** [slackClient.chat.postMessage({channel, blocks, text})], called
    directly and not through [makeSlackRequest]. *)
Variable chat_postMessage : string -> list Block -> string -> Result PostResult.

(** [date.toLocaleString()] of a stored date, and
    [new Date(s).toLocaleDateString()]; both depend on the host. *)
Variable date_toLocaleString : Z -> string.
Variable toLocaleDateString : string -> string.

(** [Object.entries(mentions)]: the entries in the order of the keys of the
    object that the store returned. *)
Variable Object_entries : gmap string MentionStat -> list (string * MentionStat).

(** [prisma.summary.findUnique({where: {id}, include: {channel: true}})];
    the relation is required, a row without its conversation is an
    inconsistent result, which the client rejects. *)
Definition summary_findUnique (id : nat) : M (option (Summary * Conversation)) :=
  prisma_call prisma_rejects "summary.findUnique" (fun w =>
    let s := store w in
    match List.find (fun r => Nat.eqb (s_id r) id) (summaries s) with
    | None => (Ok None, s)
    | Some summary =>
        match List.find (fun c => Nat.eqb (conv_id c) (s_channel_id summary))
                (conversations s) with
        | Some channel => (Ok (Some (summary, channel)), s)
        | None =>
            (Throw (StoreError "summary.findUnique: inconsistent query result"), s)
        end
    end).

Definition highlight_line (index : nat) (highlight : Highlight) : string :=
  (pretty (index + 1)%nat ++ ". <" ++ h_permalink highlight ++ "|"
   ++ Js.slice0 100 (h_text highlight)
   ++ (if (100 <? String.length (h_text highlight))%nat then "..." else "")
   ++ ">")%string.

Definition task_line (index : nat) (task : Task) : string :=
  let taskText :=
    (pretty (index + 1)%nat ++ ". <" ++ source_permalink task ++ "|"
     ++ title task ++ ">")%string in
  let taskText :=
    if truthy (owner_user_id task)
    then (taskText ++ " (Owner: <@" ++ default "" (owner_user_id task) ++ ">)")%string
    else taskText in
  let taskText :=
    if truthy (due_date task)
    then (taskText ++ " (Due: "
          ++ toLocaleDateString (default "" (due_date task)) ++ ")")%string
    else taskText in
  taskText.

(** [Object.entries(mentions).sort(...).slice(0, 10)] *)
Definition top_mentions (mentions : gmap string MentionStat)
    : list (string * MentionStat) :=
  firstn 10 (merge_sort by_count_desc (Object_entries mentions)).

Definition mention_line (entry : string * MentionStat) : string :=
  ("<@" ++ fst entry ++ ">: " ++ pretty (mention_count (snd entry))
   ++ " mentions" ++ Js.newline)%string.

Definition mentions_text (mentions : gmap string MentionStat) : string :=
  foldl (fun mentionsText entry => (mentionsText ++ mention_line entry)%string)
        EmptyString (top_mentions mentions).

(** The Block Kit message of a summary. *)
Definition summary_blocks (summary : Summary) (channel : Conversation)
    : list Block :=
  let blocks :=
    [header_block ("Daily Summary: #" ++ conv_name channel);
     section_block ("*Period:* " ++ date_toLocaleString (s_period_start summary)
                    ++ " - " ++ date_toLocaleString (s_period_end summary));
     divider_block;
     section_block "*Summary*";
     section_block (Js.slice0 3000 (s_summary summary))] in
  (* Add highlights *)
  let blocks :=
    if (0 <? length (s_highlights summary))%nat
    then blocks ++ [divider_block; section_block "*Key Messages*"]
                ++ imap (fun index highlight =>
                           section_block (highlight_line index highlight))
                        (s_highlights summary)
    else blocks in
  (* Add tasks *)
  let blocks :=
    if (0 <? length (s_tasks summary))%nat
    then blocks ++ [divider_block; section_block "*Action Items*"]
                ++ imap (fun index task => section_block (task_line index task))
                        (s_tasks summary)
    else blocks in
  (* Add mentions *)
  let blocks :=
    if (0 <? length (Object_entries (s_mentions summary)))%nat
    then blocks ++ [divider_block; section_block "*Mention Stats*";
                    section_block (mentions_text (s_mentions summary))]
    else blocks in
  blocks.

Definition postSummaryToSlack (summaryId : nat) : M (option PostResult) :=
  try_catch
    (if negb (truthy DIGEST_CHANNEL) then
       log Warn "DIGEST_CHANNEL not configured, skipping posting summary" ;;;
       ret None
     else
       found <- summary_findUnique summaryId ;;
       match found with
       | None => throw (JsError ("Summary " ++ pretty summaryId ++ " not found"))
       | Some (summary, channel) =>
           (* Send the message to Slack *)
           match chat_postMessage (default "" DIGEST_CHANNEL)
                   (summary_blocks summary channel)
                   ("Daily Summary for #" ++ conv_name channel) with
           | Ok result =>
               log Info "Posted summary to Slack" ;;; ret (Some result)
           | Throw error => throw error
           end
       end)
    (fun error => log Error "Failed to post summary to Slack" ;;; throw error).

End Post.
(** * Properties *)

(** ** Mention extractor *)

Module MentionFacts.
Import Regex.

Fixpoint run_of (p : ascii -> bool) (l : list ascii) : list ascii :=
  match l with
  | c :: r => if p c then c :: run_of p r else []
  | [] => []
  end.

Fixpoint after_run (p : ascii -> bool) (l : list ascii) : list ascii :=
  match l with
  | c :: r => if p c then after_run p r else l
  | [] => []
  end.

Lemma run_of_split p l : l = run_of p l ++ after_run p l.
Proof.
  induction l as [|c r IH]; simpl; [reflexivity|].
  destruct (p c); simpl; [now rewrite <- IH | reflexivity].
Qed.

Lemma run_of_all p l : forallb p (run_of p l) = true.
Proof.
  induction l as [|c r IH]; simpl; [reflexivity|].
  destruct (p c) eqn:E; simpl; [now rewrite E | reflexivity].
Qed.

Lemma run_of_app p a c r :
  forallb p a = true -> p c = false ->
  run_of p (a ++ c :: r) = a /\ after_run p (a ++ c :: r) = c :: r.
Proof.
  intros Ha Hc. induction a as [|x a IH]; simpl in *.
  - now rewrite Hc.
  - apply andb_prop in Ha as [Hx Ha]. rewrite Hx.
    destruct (IH Ha) as [-> ->]. now split.
Qed.

(** A greedy unbounded quantifier whose continuation refuses the characters
    of the class takes the longest run. *)
Lemma quantify_greedy_longest p lo input st k :
  (forall st' c r, remaining st' = c :: r -> p c = true -> k st' = None) ->
  remaining st = input ->
  quantify true lo None p input st k
  = if (lo <=? length (run_of p input))%nat
    then k (MState (rev (run_of p input) ++ consumed st) (after_run p input)
                   (captures st))
    else None.
Proof.
  intros Hk. revert lo st.
  induction input as [|c rest IH]; intros lo st Hst; simpl.
  - destruct lo; simpl; [|reflexivity]. destruct st; simpl in *; now subst.
  - destruct (p c) eqn:Hc; simpl.
    + destruct lo as [|lo].
      * rewrite (IH 0%nat (advance c rest st) eq_refl). simpl.
        rewrite <- app_assoc. simpl.
        rewrite (Hk st c rest Hst Hc).
        now destruct (k _).
      * rewrite (IH lo (advance c rest st) eq_refl). simpl.
        rewrite <- app_assoc. simpl. reflexivity.
    + destruct lo; simpl; [|reflexivity]. destruct st; simpl in *; now subst.
Qed.

Lemma between_app st st' a :
  consumed st' = a ++ consumed st -> between st st' = rev a.
Proof.
  intros H. unfold between. rewrite H, length_app, Nat.add_sub.
  now rewrite firstn_app, Nat.sub_diag, firstn_all, firstn_O, app_nil_r.
Qed.

(** What one attempt of [mentionRegex] does, as a function of the input:
    the id and the text after the match. *)
Definition mention_at (input : list ascii) : option (list ascii * list ascii) :=
  match input with
  | c1 :: c2 :: tail =>
      if Js.char_eqb "<" c1 && Js.char_eqb "@" c2
         && (1 <=? length (run_of id_char tail))%nat then
        match after_run id_char tail with
        | c3 :: rest =>
            if Js.char_eqb ">" c3 then Some (run_of id_char tail, rest) else None
        | [] => None
        end
      else None
  | _ => None
  end.

Definition mention_state (before : list ascii) (m : list ascii * list ascii)
    : mstate :=
  MState (">"%char :: rev (fst m) ++ "@"%char :: "<"%char :: before) (snd m)
         [(1%nat, fst m)].

Lemma gt_not_id_char c : Js.char_eqb ">" c = true -> id_char c = false.
Proof. intros H. apply Ascii.eqb_eq in H. now subst. Qed.

Lemma match_at_mention before input :
  match_at mentionRegex before input = mention_state before <$> mention_at input.
Proof.
  unfold match_at, mention_at.
  destruct input as [|c1 [|c2 tail]]; simpl.
  - reflexivity.
  - now destruct (Js.char_eqb "<" c1).
  - destruct (Js.char_eqb "<" c1) eqn:E1; simpl; [|reflexivity].
    destruct (Js.char_eqb "@" c2) eqn:E2; simpl; [|reflexivity].
    rewrite quantify_greedy_longest; [| |reflexivity].
    + destruct (run_of id_char tail) as [|i0 id] eqn:Hid; simpl; [reflexivity|].
      destruct (after_run id_char tail) as [|c3 rest]; simpl; [reflexivity|].
      destruct (Js.char_eqb ">" c3) eqn:E3; simpl; [|reflexivity].
      apply Ascii.eqb_eq in E1, E2, E3. subst.
      unfold mention_state, record, advance. cbn [consumed remaining captures fst snd].
      erewrite between_app with (a := rev (i0 :: id)); [|reflexivity].
      now rewrite rev_involutive.
    + intros st' c r Hr Hc. simpl. rewrite Hr.
      destruct (Js.char_eqb ">" c) eqn:E; [|reflexivity].
      apply gt_not_id_char in E. congruence.
Qed.

(** A match of [mentionRegex] is at least four characters long. *)
Lemma mention_match_not_empty before input st :
  match_at mentionRegex before input = Some st ->
  (4 <= match_length before st)%nat.
Proof.
  rewrite match_at_mention.
  destruct (mention_at input) as [[id rest]|] eqn:Hat; [|discriminate].
  intros [= <-]. unfold mention_at in Hat.
  destruct input as [|c1 [|c2 tail]]; try discriminate.
  destruct (Js.char_eqb "<" c1 && Js.char_eqb "@" c2
            && (1 <=? length (run_of id_char tail))%nat) eqn:Hhead;
    [|discriminate].
  apply andb_prop in Hhead as [_ Hlen]. apply Nat.leb_le in Hlen.
  destruct (after_run id_char tail) as [|c3 r]; [discriminate|].
  destruct (Js.char_eqb ">" c3); [|discriminate].
  injection Hat as <- <-.
  unfold match_length, mention_state. cbn [consumed fst length].
  rewrite length_app, length_rev. cbn [length]. lia.
Qed.

Definition well_formed (id : list ascii) : Prop :=
  id <> [] /\ forallb id_char id = true.

(** [<@id>] stands in [input] after [n] characters. *)
Definition occurs_at (id input : list ascii) (n : nat) : Prop :=
  exists pre post,
    input = pre ++ "<"%char :: "@"%char :: id ++ ">"%char :: post /\ length pre = n.

Lemma mention_at_spec input id rest :
  mention_at input = Some (id, rest)
  <-> well_formed id /\ input = "<"%char :: "@"%char :: id ++ ">"%char :: rest.
Proof.
  unfold mention_at, well_formed. split.
  - destruct input as [|c1 [|c2 tail]]; try discriminate.
    destruct (Js.char_eqb "<" c1) eqn:E1; [|discriminate].
    destruct (Js.char_eqb "@" c2) eqn:E2; [|discriminate].
    simpl. destruct (run_of id_char tail) as [|i0 id'] eqn:Hid; [discriminate|].
    simpl. destruct (after_run id_char tail) as [|c3 r] eqn:Hafter; [discriminate|].
    destruct (Js.char_eqb ">" c3) eqn:E3; [|discriminate].
    intros [= <- <-].
    apply Ascii.eqb_eq in E1, E2, E3. subst c1 c2 c3.
    repeat split.
    + discriminate.
    + rewrite <- Hid. apply run_of_all.
    + rewrite (run_of_split id_char tail) at 1. now rewrite Hid, Hafter.
  - intros [[Hne Hall] ->].
    destruct (run_of_app id_char id ">"%char rest Hall eq_refl) as [Hr Ha].
    change (Js.char_eqb "<" "<") with true. change (Js.char_eqb "@" "@") with true.
    rewrite Hr, Ha. simpl.
    destruct id; [congruence|]. reflexivity.
Qed.

Lemma occurs_at_nil id n : ~ occurs_at id [] n.
Proof. intros (pre & post & H & _). now destruct pre. Qed.

Lemma occurs_at_cons id c input n :
  occurs_at id (c :: input) (S n) <-> occurs_at id input n.
Proof.
  split.
  - intros (pre & post & H & Hn). destruct pre as [|x pre]; [discriminate|].
    injection H as -> ->. injection Hn as Hn. now exists pre, post.
  - intros (pre & post & -> & Hn). exists (c :: pre), post. simpl. now rewrite Hn.
Qed.

Lemma occurs_at_head id input n :
  occurs_at id input n -> input !! n = Some "<"%char.
Proof.
  intros (pre & post & -> & <-).
  now rewrite lookup_app_r, Nat.sub_diag by lia.
Qed.

Lemma occurs_at_0 id input :
  well_formed id -> occurs_at id input 0 ->
  exists rest, mention_at input = Some (id, rest).
Proof.
  intros Hid (pre & post & -> & Hn). destruct pre; [|discriminate].
  exists post. now apply mention_at_spec.
Qed.

(** Inside a match no other match begins. *)
Lemma no_start_inside id0 rest0 m :
  forallb id_char id0 = true -> (m < 2 + length id0)%nat ->
  ("@"%char :: id0 ++ ">"%char :: rest0) !! m <> Some "<"%char.
Proof.
  intros Hall Hm. destruct m as [|m]; [discriminate|]. simpl.
  destruct (decide (m < length id0)%nat) as [Hlt|Hge].
  - rewrite lookup_app_l by assumption.
    destruct (id0 !! m) as [x|] eqn:Hx; [|discriminate].
    intros [= ->]. apply list_elem_of_lookup_2 in Hx.
    apply list_elem_of_In in Hx.
    rewrite forallb_forall in Hall. now apply Hall in Hx.
  - assert (m = length id0) as -> by lia.
    rewrite lookup_app_r, Nat.sub_diag by lia. discriminate.
Qed.

Definition mention_id (m : mstate) : list ascii := default [] (capture 1 m).

Lemma exec_all_mentions input : forall skip before id,
  In id (map mention_id (exec_all mentionRegex skip before input))
  <-> well_formed id /\ exists n, (skip <= n)%nat /\ occurs_at id input n.
Proof.
  induction input as [|c rest IH]; intros skip before id.
  - assert (exec_all mentionRegex skip before [] = []) as ->
      by now destruct skip.
    simpl. split; [tauto|]. intros (_ & n & _ & H). now apply occurs_at_nil in H.
  - destruct skip as [|skip].
    + cbn [exec_all]. rewrite match_at_mention.
      destruct (mention_at (c :: rest)) as [[id0 rest0]|] eqn:Hat.
      * cbn [fmap option_fmap option_map map mention_state fst snd].
        apply mention_at_spec in Hat as Hspec.
        destruct Hspec as [Hwf0 Hin]. injection Hin as -> ->.
        assert (mention_id (mention_state before (id0, rest0)) = id0) as ->
          by reflexivity.
        assert (match_length before (mention_state before (id0, rest0))
                = (3 + length id0)%nat) as ->.
        { unfold match_length, mention_state. cbn [consumed fst].
          cbn [length]. rewrite length_app, length_rev. cbn [length]. lia. }
        cbn [In Nat.pred Nat.add]. rewrite IH. split.
        -- intros [<-|(Hwf & n & Hn & Hocc)].
           ++ split; [assumption|]. exists 0%nat. split; [lia|].
              now exists [], rest0.
           ++ split; [assumption|]. exists (S n). split; [lia|].
              now apply occurs_at_cons.
        -- intros (Hwf & n & _ & Hocc). destruct n as [|n].
           ++ left. destruct (occurs_at_0 _ _ Hwf Hocc) as [r Hr].
              rewrite Hat in Hr. now injection Hr.
           ++ right. split; [assumption|]. apply occurs_at_cons in Hocc.
              exists n. split; [|assumption].
              destruct (decide (n < 2 + length id0)%nat) as [Hlt|]; [|lia].
              exfalso. apply occurs_at_head in Hocc.
              destruct Hwf0 as [_ Hall0].
              now apply (no_start_inside id0 rest0 n Hall0 Hlt).
      * cbn [fmap option_fmap option_map]. rewrite IH. split.
        -- intros (Hwf & n & _ & Hocc). split; [assumption|].
           exists (S n). split; [lia|]. now apply occurs_at_cons.
        -- intros (Hwf & n & _ & Hocc). split; [assumption|].
           destruct n as [|n].
           ++ destruct (occurs_at_0 _ _ Hwf Hocc) as [r Hr]. congruence.
           ++ exists n. split; [lia|]. now apply occurs_at_cons in Hocc.
    + cbn [exec_all]. rewrite IH. split.
      * intros (Hwf & n & Hn & Hocc). split; [assumption|].
        exists (S n). split; [lia|]. now apply occurs_at_cons.
      * intros (Hwf & n & Hn & Hocc). split; [assumption|].
        destruct n as [|n]; [lia|].
        exists n. split; [lia|]. now apply occurs_at_cons in Hocc.
Qed.

End MentionFacts.

(** ** [Js.set_of] keeps every element once *)

Lemma set_of_acc l : forall seen,
  NoDup seen ->
  NoDup (fold_left Js.set_add l seen)
  /\ forall x, x ∈ fold_left Js.set_add l seen <-> x ∈ seen \/ x ∈ l.
Proof.
  induction l as [|y l IH]; intros seen Hnd; simpl.
  - split; [assumption|]. intros x. rewrite elem_of_nil. tauto.
  - unfold Js.set_add at 2 4. case_bool_decide as Hy.
    + destruct (IH seen Hnd) as [H1 H2]. split; [assumption|].
      intros x. rewrite H2, elem_of_cons. split; [tauto|].
      intros [?|[->|?]]; tauto.
    + assert (NoDup (seen ++ [y])) as Hnd'.
      { apply NoDup_app. repeat split; try assumption.
        - intros x Hx Hx'. apply list_elem_of_singleton in Hx'. now subst.
        - apply NoDup_singleton. }
      destruct (IH _ Hnd') as [H1 H2]. split; [assumption|].
      intros x. rewrite H2, elem_of_app, list_elem_of_singleton, elem_of_cons.
      tauto.
Qed.

Lemma set_of_NoDup l : NoDup (Js.set_of l).
Proof. apply set_of_acc, NoDup_nil_2. Qed.

Lemma set_of_elem l x : x ∈ Js.set_of l <-> x ∈ l.
Proof.
  unfold Js.set_of. destruct (set_of_acc l [] (NoDup_nil_2)) as [_ H].
  rewrite H, elem_of_nil. tauto.
Qed.

Lemma chars_app a b : Js.chars (a ++ b) = Js.chars a ++ Js.chars b.
Proof. induction a as [|c a IH]; simpl; [reflexivity|]. now rewrite <- IH. Qed.

(** The ids that a text references by the syntax [<@ID>], [ID] a non-empty
    word over [[A-Z0-9]]: the specification of the extractor. *)
Definition references (text id : string) : Prop :=
  id <> "" /\ forallb id_char (Js.chars id) = true
  /\ exists pre post, text = (pre ++ "<@" ++ id ++ ">" ++ post)%string.

Lemma references_occurs text id :
  references text id
  <-> MentionFacts.well_formed (Js.chars id)
      /\ exists n, (0 <= n)%nat /\ MentionFacts.occurs_at (Js.chars id) (Js.chars text) n.
Proof.
  unfold references, MentionFacts.well_formed, MentionFacts.occurs_at. split.
  - intros (Hne & Hall & pre & post & ->). repeat split; try assumption.
    + intros H. apply Hne. rewrite <- (Js.str_chars id), H. reflexivity.
    + exists (length (Js.chars pre)). split; [lia|].
      exists (Js.chars pre), (Js.chars post).
      rewrite !chars_app. now split.
  - intros ((Hne & Hall) & n & _ & pre & post & Heq & _). repeat split.
    + intros ->. now apply Hne.
    + assumption.
    + exists (Js.str pre), (Js.str post).
      apply Js.chars_inj. now rewrite !chars_app, !Js.chars_str.
Qed.

Lemma extractMentions_elem text id :
  id ∈ extractMentions text <-> references text id.
Proof.
  unfold extractMentions. rewrite set_of_elem, references_occurs.
  rewrite <- MentionFacts.exec_all_mentions with (before := []).
  rewrite list_elem_of_In, !in_map_iff. split.
  - intros (m & <- & Hm). exists m. split; [|assumption].
    unfold MentionFacts.mention_id. now rewrite Js.chars_str.
  - intros (m & Hid & Hm). exists m. split; [|assumption].
    unfold MentionFacts.mention_id in Hid. now rewrite Hid, Js.str_chars.
Qed.

Lemma extractMentions_NoDup text : NoDup (extractMentions text).
Proof. apply set_of_NoDup. Qed.

(** C6. The mention extractor returns the ids referenced by the inline
    syntax [<@ID>] without duplicates: an id is in the result exactly when
    the text references it, and then it is there once; a text with no
    reference gives the empty list; the function is total, so that no input
    makes it fail. On ["<@U1> hi <@U1> <@U2>"] the result is [U1, U2]. *)
Theorem extractMentions_dedup :
  (forall text : string,
      NoDup (extractMentions text)
      /\ (forall id, id ∈ extractMentions text <-> references text id)
      /\ (forall id, references text id ->
                     count_occ string_dec (extractMentions text) id = 1%nat)
      /\ ((forall id, ~ references text id) -> extractMentions text = []))
  /\ extractMentions "<@U1> hi <@U1> <@U2>" = ["U1"; "U2"].
Proof.
  split; [|reflexivity]. intros text.
  pose proof (extractMentions_NoDup text) as Hnd.
  split; [assumption|]. split; [|split].
  - intros id. apply extractMentions_elem.
  - intros id Hid. apply extractMentions_elem, list_elem_of_In in Hid.
    apply NoDup_ListNoDup in Hnd.
    now apply (proj1 (NoDup_count_occ' string_dec _) Hnd).
  - intros Hnone. destruct (extractMentions text) as [|id l] eqn:E; [reflexivity|].
    exfalso. apply (Hnone id), extractMentions_elem. rewrite E. left.
Qed.

(** ** Rate-limited client *)

Section RetryLoop.

Context {T : Type}.
Variable requestFn : nat -> Result T.
Variable maxRetries : nat.

(** The loop comes back once the fuel exceeds the retries that remain. *)
Lemma request_loop_returns fuel : forall retries delay steps,
  (maxRetries - retries < fuel)%nat ->
  exists r, request_loop fuel requestFn maxRetries retries delay steps = Some r.
Proof.
  induction fuel as [|fuel IH]; intros retries delay steps Hfuel; [lia|].
  simpl. destruct (requestFn retries) as [v|error]; [eauto|].
  destruct (is_rate_limited error && (retries <? maxRetries)%nat) eqn:Hretry;
    [|eauto].
  apply andb_prop in Hretry as [_ Hlt]. apply Nat.ltb_lt in Hlt.
  apply IH. lia.
Qed.

Lemma makeSlackRequest_returns initialDelay :
  exists r, makeSlackRequest requestFn maxRetries initialDelay = Some r.
Proof. apply request_loop_returns. lia. Qed.

(** An operation that always reports a rate limit is called until the
    ceiling is reached. *)
Lemma request_loop_always_limited fuel : forall retries delay steps,
  (forall i, exists ra, requestFn i = Throw (RateLimitedError ra)) ->
  (retries <= maxRetries)%nat -> fuel = S (maxRetries - retries) ->
  exists r ra,
    request_loop fuel requestFn maxRetries retries delay steps = Some r
    /\ settled r = Throw (RateLimitedError ra)
    /\ attempts r = S maxRetries.
Proof.
  induction fuel as [|fuel IH]; intros retries delay steps Hlim Hle Hfuel;
    [discriminate|].
  simpl. destruct (Hlim retries) as [ra Hra]. rewrite Hra. simpl.
  destruct (retries <? maxRetries)%nat eqn:Hlt.
  - apply Nat.ltb_lt in Hlt. apply IH; [assumption|lia|lia].
  - apply Nat.ltb_ge in Hlt. assert (retries = maxRetries) as -> by lia.
    eexists _, ra. repeat split.
Qed.

(** What every retry of a run looked like: the attempt [i] reported a rate
    limit below the ceiling, [delay] had doubled [i] times, and the time
    slept is the supplied [retryAfter], one second when it is missing or
    zero. *)
Definition retry_ok (initialDelay : Z) (i : nat) (s : RetryStep) : Prop :=
  (i < maxRetries)%nat
  /\ requestFn i = Throw (RateLimitedError (step_retryAfter s))
  /\ step_delay s = (initialDelay * 2 ^ Z.of_nat i)%Z
  /\ step_slept s
     = (1000 * match step_retryAfter s with
               | Some ra => if (ra =? 0)%Z then 1 else ra
               | None => 1
               end)%Z.

Lemma slept_retry_after ra delay :
  Js.or_num (retry_after_or_1 (RateLimitedError ra) * 1000) delay
  = (1000 * match ra with
            | Some ra => if (ra =? 0)%Z then 1 else ra
            | None => 1
            end)%Z.
Proof.
  unfold retry_after_or_1, Js.or_num.
  destruct ra as [ra|]; [|reflexivity].
  destruct (ra =? 0)%Z eqn:E; [reflexivity|].
  apply Z.eqb_neq in E.
  destruct (ra * 1000 =? 0)%Z eqn:E'; [apply Z.eqb_eq in E'|]; lia.
Qed.

Lemma request_loop_steps initialDelay fuel : forall retries delay steps r,
  request_loop fuel requestFn maxRetries retries delay steps = Some r ->
  length steps = retries ->
  delay = (initialDelay * 2 ^ Z.of_nat retries)%Z ->
  (forall i s, steps !! i = Some s -> retry_ok initialDelay i s) ->
  S (length (retried r)) = attempts r
  /\ forall i s, retried r !! i = Some s -> retry_ok initialDelay i s.
Proof.
  induction fuel as [|fuel IH]; intros retries delay steps r Hrun Hlen Hdelay Hsteps;
    [discriminate|].
  simpl in Hrun. destruct (requestFn retries) as [v|error] eqn:Hreq.
  { injection Hrun as <-. simpl. now rewrite Hlen. }
  destruct (is_rate_limited error && (retries <? maxRetries)%nat) eqn:Hretry.
  2:{ injection Hrun as <-. simpl. now rewrite Hlen. }
  apply andb_prop in Hretry as [Hrl Hlt]. apply Nat.ltb_lt in Hlt.
  destruct error as [ra| | | |]; try discriminate.
  apply IH in Hrun; [assumption| | |].
  - rewrite length_app. simpl. lia.
  - rewrite Hdelay, Nat2Z.inj_succ, Z.pow_succ_r by lia. lia.
  - intros i s Hi. apply lookup_app_Some in Hi as [Hi|[Hge Hi]];
      [now apply Hsteps|].
    apply list_lookup_singleton_Some in Hi as [Hi <-].
    assert (i = retries) as -> by lia.
    unfold retry_ok. simpl. repeat split; try assumption.
    apply slept_retry_after.
Qed.

End RetryLoop.

(** C2. A call through the rate-limited wrapper with retry ceiling [N]:
    when the operation reports a rate limit twice and then succeeds and
    [2 <= N], the call returns the successful result (after three
    attempts); when the operation reports a rate limit at every attempt,
    the call fails, with that error, after exactly [N + 1] attempts. *)
Theorem makeSlackRequest_retry_ceiling :
  forall (T : Type) (requestFn : nat -> Result T) (N : nat) (initialDelay : Z),
    (forall ra0 ra1 v,
        (2 <= N)%nat ->
        requestFn 0%nat = Throw (RateLimitedError ra0) ->
        requestFn 1%nat = Throw (RateLimitedError ra1) ->
        requestFn 2%nat = Ok v ->
        exists r, makeSlackRequest requestFn N initialDelay = Some r
                  /\ settled r = Ok v /\ attempts r = 3%nat)
    /\ ((forall i, exists ra, requestFn i = Throw (RateLimitedError ra)) ->
        exists r ra, makeSlackRequest requestFn N initialDelay = Some r
                     /\ settled r = Throw (RateLimitedError ra)
                     /\ attempts r = (N + 1)%nat).
Proof.
  intros T requestFn N initialDelay. split.
  - intros ra0 ra1 v HN H0 H1 H2.
    destruct N as [|[|N]]; [lia|lia|].
    unfold makeSlackRequest. simpl. rewrite H0. simpl. rewrite H1. simpl.
    rewrite H2. eexists. repeat split.
  - intros Hlim. rewrite Nat.add_1_r.
    apply request_loop_always_limited; [assumption|lia|lia].
Qed.

(** The simulated APIs of the unit tests. *)
Definition limited_twice_then_ok (i : nat) : Result string :=
  if (i <? 2)%nat then Throw (RateLimitedError (Some 1%Z)) else Ok "ok".

Definition always_limited (i : nat) : Result string :=
  Throw (RateLimitedError (Some 1%Z)).

Lemma makeSlackRequest_retry_ceiling_witness :
  (exists r, makeSlackRequest limited_twice_then_ok 3 10 = Some r
             /\ settled r = Ok "ok" /\ attempts r = 3%nat)
  /\ (exists r ra, makeSlackRequest always_limited 2 10 = Some r
                   /\ settled r = Throw (RateLimitedError ra)
                   /\ attempts r = (2 + 1)%nat).
Proof.
  split.
  - apply (proj1 (makeSlackRequest_retry_ceiling string limited_twice_then_ok 3 10)
             (Some 1%Z) (Some 1%Z) "ok"); [lia|reflexivity..].
  - apply (proj2 (makeSlackRequest_retry_ceiling string always_limited 2 10)).
    intros i. now exists (Some 1%Z).
Defined.

(** The sleep that the claim C8 describes: the greater of the supplied
    [retryAfter] (in ms) and the current backoff delay. *)
Definition sleep_by_max (s : RetryStep) : Z :=
  Z.max (1000 * default 0%Z (step_retryAfter s)) (step_delay s).




(** ** Task heuristics *)

Section TaskFacts.

Variable chrono_parse : string -> list string.

Lemma task_of_match_owner message caps task :
  task_of_match chrono_parse message caps = Some task ->
  owner_user_id task
  = match extractMentions (sm_text message) with
    | [u] => Some u
    | _ => None
    end.
Proof.
  unfold task_of_match.
  destruct (String.length _ <? 5)%nat; [discriminate|].
  intros [= <-]. simpl.
  now destruct (extractMentions (sm_text message)) as [|u [|v l]].
Qed.

Lemma extractTasksHeuristic_owner message task :
  task ∈ extractTasksHeuristic chrono_parse message ->
  owner_user_id task
  = match extractMentions (sm_text message) with
    | [u] => Some u
    | _ => None
    end.
Proof.
  unfold extractTasksHeuristic. rewrite list_elem_of_omap.
  intros (pattern & _ & Htask). unfold task_of_pattern in Htask.
  destruct (js_match _ _) as [caps|]; [|discriminate].
  destruct (1 <? S (length caps))%nat; [|discriminate].
  now apply task_of_match_owner in Htask.
Qed.

End TaskFacts.

(** A list without duplicates is [[u]] exactly when [u] is its only member. *)
Lemma singleton_list (l : list string) (u : string) :
  NoDup l -> (l = [u] <-> forall x, x ∈ l <-> x = u).
Proof.
  intros Hnd. split.
  - intros -> x. apply list_elem_of_singleton.
  - intros H. destruct l as [|a l].
    + exfalso. apply (not_elem_of_nil u), H. reflexivity.
    + assert (a = u) as -> by (apply H; left).
      destruct l as [|b l]; [reflexivity|].
      assert (b = u) as -> by (apply H; right; left).
      apply NoDup_cons in Hnd as [Hnot _]. exfalso. apply Hnot. left.
Qed.

(** C7. Every task candidate of the heuristic extractor is owned by [u]
    exactly when the message text mentions [u] and no other id (one
    distinct mention, however often it is repeated); with no mention, or
    with two or more distinct ones, the owner is unset. *)
Theorem task_owner_single_mention :
  forall (chrono_parse : string -> list string) (message : SummaryMessage)
         (task : Task),
    task ∈ extractTasksHeuristic chrono_parse message ->
    (forall u, owner_user_id task = Some u
               <-> (forall id, references (sm_text message) id <-> id = u))
    /\ (length (extractMentions (sm_text message)) <> 1%nat ->
        owner_user_id task = None).
Proof.
  intros chrono_parse message task Htask.
  apply extractTasksHeuristic_owner in Htask.
  pose proof (extractMentions_NoDup (sm_text message)) as Hnd.
  pose proof (fun id => extractMentions_elem (sm_text message) id) as Helem.
  split.
  - intros u.
    assert ((forall id, references (sm_text message) id <-> id = u)
            <-> extractMentions (sm_text message) = [u]) as ->.
    { rewrite (singleton_list _ u Hnd). split; intros H id.
      - now rewrite Helem.
      - now rewrite <- Helem. }
    rewrite Htask.
    destruct (extractMentions (sm_text message)) as [|a [|b l]];
      split; congruence.
  - intros Hlen. rewrite Htask.
    now destruct (extractMentions (sm_text message)) as [|a [|b l]].
Qed.

Lemma task_owner_single_mention_witness :
  exists task,
    task ∈ extractTasksHeuristic (fun _ => [])
             (mockMessage "<@U1234> please review this code")
    /\ title task = "review  this code"
    /\ owner_user_id task = Some "U1234"
    /\ (forall id, references "<@U1234> please review this code" id
                   <-> id = "U1234").
Proof.
  assert ({| title := "review  this code"; owner_user_id := Some "U1234";
             due_date := None; confidence := 0.6;
             source_ts := 1621573200000000%Z;
             source_permalink :=
               "https://example.com/archives/C1234/p1621573200000000" |}
          ∈ extractTasksHeuristic (fun _ => [])
              (mockMessage "<@U1234> please review this code")) as Hin
    by (vm_compute; left).
  eexists. split; [exact Hin|]. split; [reflexivity|]. split; [reflexivity|].
  now apply (proj1 (task_owner_single_mention _ _ _ Hin) "U1234").
Defined.

(** ** Ingestion: what the helpers leave untouched *)

(** Projections of a world or a store that was rebuilt field by field. *)
Ltac frame :=
  cbn [store userCache now sleeps logged set_store set_userCache
       conversations stored_messages users summaries
       with_conversations with_messages with_users with_summaries] in *.

Section IngestFacts.

Variable env : Env.

(** The effects of the retries of one request. *)
Lemma retry_effects (steps : list RetryStep) : forall w,
  exists w',
    for_each steps (fun s =>
      log Warn "Rate limited by Slack API, retrying" ;;; sleep (step_slept s)) w
    = Done (Ok tt) w'
    /\ store w' = store w /\ userCache w' = userCache w.
Proof.
  induction steps as [|s steps IH]; intros w.
  - now exists w.
  - cbn [for_each]. unfold bind at 1. unfold bind at 1. cbn [log sleep modify].
    destruct (IH (Build_World (store w) (userCache w) (now w + step_slept s)%Z
                    (step_slept s :: sleeps w)
                    ((Warn, "Rate limited by Slack API, retrying") :: logged w)))
      as (w' & Hrun & Hs & Hc).
    exists w'. cbn [store userCache sleeps logged now] in *.
    now rewrite Hrun.
Qed.

(** A request through the client settles as [makeSlackRequest] says and
    touches neither the store nor the user cache. *)
Lemma slackRequest_run {T} (requestFn : nat -> Result T) (w : World) :
  exists req w',
    makeSlackRequest requestFn (MAX_RETRIES env) (RATE_LIMIT_DELAY env) = Some req
    /\ slackRequest env requestFn w = Done (settled req) w'
    /\ store w' = store w /\ userCache w' = userCache w.
Proof.
  destruct (makeSlackRequest_returns requestFn (MAX_RETRIES env)
              (RATE_LIMIT_DELAY env)) as [req Hreq].
  unfold slackRequest. rewrite Hreq.
  destruct (retry_effects (retried req) w) as (w1 & Hrun & Hs & Hc).
  unfold bind at 1. rewrite Hrun.
  destruct (settled req) as [v|error] eqn:Hsettled.
  - exists req, w1. rewrite Hsettled. now repeat split.
  - eexists req, _. rewrite Hsettled.
    split; [reflexivity|]. split; [reflexivity|]. now split.
Qed.

Lemma getPermalink_run channel ts w :
  exists link w',
    getPermalink env channel ts w = Done (Ok link) w'
    /\ store w' = store w /\ userCache w' = userCache w.
Proof.
  unfold getPermalink, try_catch.
  destruct (slackRequest_run (chat_getPermalink env channel ts) w)
    as (req & w1 & _ & Hrun & Hs & Hc).
  rewrite Hrun. destruct (settled req) as [link|error].
  - now exists link, w1.
  - eexists "", _. split; [reflexivity|]. now split.
Qed.

(** The lookup of a user in the directory, through the client. *)
Definition directory_lookup (userId : string) : option (Request (option SlackUser)) :=
  makeSlackRequest (users_info env userId) (MAX_RETRIES env) (RATE_LIMIT_DELAY env).

(** The lookup failed: the request was rejected, or answered without a user. *)
Definition lookup_failed (req : Request (option SlackUser)) : Prop :=
  match settled req with
  | Ok (Some _) => False
  | _ => True
  end.

(** [getUserInfo] settles without an exception; it writes to the user table
    and to the cache only. A failed lookup gives [null] and writes nothing. *)
Lemma getUserInfo_run userId w :
  exists found w',
    getUserInfo env userId w = Done (Ok found) w'
    /\ conversations (store w') = conversations (store w)
    /\ stored_messages (store w') = stored_messages (store w)
    /\ summaries (store w') = summaries (store w)
    /\ (cache_fresh (now w) (userCache w !! userId) = false ->
        forall req, directory_lookup userId = Some req -> lookup_failed req ->
        found = None /\ store w' = store w /\ userCache w' = userCache w).
Proof.
  unfold getUserInfo. unfold bind at 1. cbn [get].
  destruct (cache_fresh (now w) (userCache w !! userId)) eqn:Hfresh.
  { exists (userCache w !! userId), w. do 4 (split; [reflexivity|]). discriminate. }
  unfold try_catch, bind at 1.
  destruct (slackRequest_run (users_info env userId) w)
    as (req & w1 & Hreq & Hrun & Hs & Hc).
  rewrite Hrun.
  destruct (settled req) as [[user|]|error] eqn:Hsettled.
  - (* the user was found *)
    assert (forall r, directory_lookup userId = Some r -> lookup_failed r ->
            forall (P : Prop), P) as Hfound.
    { intros r Hr Hf P. exfalso. unfold directory_lookup in Hr.
      rewrite Hreq in Hr. injection Hr as <-. unfold lookup_failed in Hf.
      now rewrite Hsettled in Hf. }
    unfold bind at 1. unfold user_upsert, store_call.
    destruct (store_rejects env (UserUpsert userId)).
    + eexists None, _. split; [reflexivity|]. frame. rewrite Hs.
      do 3 (split; [reflexivity|]). intros _ r Hr Hf. now apply (Hfound r Hr Hf).
    + destruct (existsb _ (users (store w1)));
        (eexists _, _; split; [reflexivity|]; frame; rewrite Hs;
         do 3 (split; [reflexivity|]);
         intros _ r Hr Hf; now apply (Hfound r Hr Hf)).
  - eexists None, _. split; [reflexivity|]. frame. rewrite Hs, Hc.
    do 3 (split; [reflexivity|]). intros; now repeat split.
  - eexists None, _. split; [reflexivity|]. frame. rewrite Hs, Hc.
    do 3 (split; [reflexivity|]). intros; now repeat split.
Qed.

Lemma getUserInfo_all_run (ids : list string) : forall w,
  exists found w',
    map_m (getUserInfo env) ids w = Done (Ok found) w'
    /\ conversations (store w') = conversations (store w)
    /\ stored_messages (store w') = stored_messages (store w)
    /\ summaries (store w') = summaries (store w).
Proof.
  induction ids as [|id ids IH]; intros w.
  - now exists [], w.
  - cbn [map_m]. unfold bind at 1.
    destruct (getUserInfo_run id w) as (o & w1 & Hrun & Hc & Hm & Hsum & _).
    rewrite Hrun. unfold bind at 1.
    destruct (IH w1) as (os & w2 & Hrun2 & Hc2 & Hm2 & Hsum2).
    rewrite Hrun2. exists (o :: os), w2.
    split; [reflexivity|]. now rewrite Hc2, Hm2, Hsum2.
Qed.


(** *** The message upsert *)

Lemma upsert_replaced {A} (P : A -> bool) (l : list A) (old new : A) :
  List.find P l = Some old -> new ∈ map (fun x => if P x then new else x) l.
Proof.
  induction l as [|x l IH]; [discriminate|]. simpl.
  destruct (P x) eqn:HP; [left|]. intros H. right. now apply IH.
Qed.

Lemma message_upsert_run channel_id ts user_id text thread_ts permalink
    reactions mentions w :
  if store_rejects env (MessageUpsert channel_id ts) then
    message_upsert env channel_id ts user_id text thread_ts permalink
      reactions mentions w = Done (Throw (StoreError "message.upsert")) w
  else
    exists m w',
      message_upsert env channel_id ts user_id text thread_ts permalink
        reactions mentions w = Done (Ok m) w'
      /\ m ∈ stored_messages (store w')
      /\ m_channel_id m = channel_id /\ m_ts m = ts
      /\ m_permalink m = permalink
      /\ conversations (store w') = conversations (store w)
      /\ userCache w' = userCache w.
Proof.
  unfold message_upsert, store_call.
  destruct (store_rejects env (MessageUpsert channel_id ts)); [reflexivity|].
  destruct (List.find (same_key channel_id ts) (stored_messages (store w)))
    as [old|] eqn:Hfind.
  - eexists _, _. split; [reflexivity|]. frame.
    split; [now apply upsert_replaced with (old := old)|].
    apply find_some in Hfind as [_ Hkey]. unfold same_key in Hkey.
    apply andb_prop in Hkey as [Hc Ht].
    apply Nat.eqb_eq in Hc. apply Z.eqb_eq in Ht. now repeat split.
  - eexists _, _. split; [reflexivity|]. frame.
    split; [apply elem_of_app; right; left|]. now repeat split.
Qed.

(** [message.user] is missing or the type is not ['message']. *)
Definition skipped (message : SlackMessage) : bool :=
  negb (truthy (msg_user message))
  || negb (String.eqb (msg_type message) "message").

Lemma processMessage_run message channelId conversationDbId w :
  exists result w',
    processMessage env message channelId conversationDbId w = Done (Ok result) w'
    /\ conversations (store w') = conversations (store w)
    /\ (skipped message = true -> result = None /\ w' = w)
    /\ (store_rejects env (MessageUpsert conversationDbId (msg_ts message)) = true ->
        result = None
        /\ stored_messages (store w') = stored_messages (store w))
    /\ (skipped message = false ->
        store_rejects env (MessageUpsert conversationDbId (msg_ts message)) = false ->
        exists m, result = Some m
                  /\ m ∈ stored_messages (store w')
                  /\ m_channel_id m = conversationDbId
                  /\ m_ts m = msg_ts message).
Proof.
  unfold processMessage, try_catch. fold (skipped message).
  destruct (skipped message) eqn:Hskip.
  { exists None, w. cbn [ret]. split; [reflexivity|]. split; [reflexivity|].
    split; [now intros|]. split.
    - (* rejected or not, nothing was tried *) now intros.
    - discriminate. }
  unfold bind at 1.
  destruct (getPermalink_run channelId (msg_ts message) w)
    as (link & w1 & Hrun1 & Hs1 & Hc1).
  rewrite Hrun1. unfold bind at 1.
  destruct (getUserInfo_all_run (extractMentions (msg_text message)) w1)
    as (found & w2 & Hrun2 & Hconv2 & Hmsg2 & _).
  rewrite Hrun2. unfold bind at 1.
  pose proof (message_upsert_run conversationDbId (msg_ts message)
                (default "" (msg_user message)) (msg_text message)
                (msg_thread_ts message) link
                (format_reactions <$> msg_reactions message)
                (extractMentions (msg_text message)) w2) as Hup.
  destruct (store_rejects env (MessageUpsert conversationDbId (msg_ts message))).
  - rewrite Hup. eexists None, _. split; [reflexivity|]. frame.
    rewrite Hconv2, Hmsg2, Hs1.
    split; [reflexivity|]. split; [discriminate|]. split; [now intros|].
    discriminate.
  - destruct Hup as (m & w3 & Hrun3 & Hin & Hch & Hts & _ & Hconv3 & _).
    rewrite Hrun3. exists (Some m), w3. split; [reflexivity|].
    rewrite Hconv3, Hconv2, Hs1.
    split; [reflexivity|]. split; [discriminate|]. split; [discriminate|].
    intros _ _. now exists m.
Qed.

End IngestFacts.

(** ** Worlds and environments of the examples *)

Definition empty_world : World :=
  {| store := {| conversations := []; stored_messages := []; users := [];
                 summaries := [] |};
     userCache := ∅; now := 0; sleeps := []; logged := [] |}.

Definition general : Channel :=
  {| ch_id := "C1"; ch_name := "general"; is_channel := true;
     is_group := false; is_im := false; is_mpim := false |}.

Definition plain (user text : string) (ts : Ts) : SlackMessage :=
  {| msg_type := "message"; msg_user := Some user; msg_text := text;
     msg_ts := ts; msg_thread_ts := None; msg_reply_count := None;
     msg_reactions := None |}.

(** A workspace with the one channel [general] whose history is [history];
    permalinks resolve, no user is known to the directory, and the store
    rejects what [rejects] says. *)
Definition workspace (history : list SlackMessage) (thread : list SlackMessage)
    (rejects : StoreOp -> bool) : Env :=
  {| MAX_RETRIES := 3; RATE_LIMIT_DELAY := 1000;
     conversations_list := fun _ _ =>
       Ok {| channels := [general]; list_next_cursor := None |};
     conversations_info := fun _ _ => Ok (Some general);
     conversations_history := fun _ _ _ _ _ =>
       Ok {| messages := history; has_more := false; next_cursor := None |};
     conversations_replies := fun _ _ _ _ _ =>
       Ok {| messages := thread; has_more := false; next_cursor := None |};
     users_info := fun _ _ => Throw (SlackError "user_not_found");
     chat_getPermalink := fun _ _ _ => Ok "https://example.com/p";
     store_rejects := rejects |}.

(** The same, with a Web API that rejects every permalink request. *)
Definition workspace_without_permalinks : Env :=
  {| MAX_RETRIES := 3; RATE_LIMIT_DELAY := 1000;
     conversations_list := fun _ _ =>
       Ok {| channels := [general]; list_next_cursor := None |};
     conversations_info := fun _ _ => Ok (Some general);
     conversations_history := fun _ _ _ _ _ =>
       Ok {| messages := []; has_more := false; next_cursor := None |};
     conversations_replies := fun _ _ _ _ _ =>
       Ok {| messages := []; has_more := false; next_cursor := None |};
     users_info := fun _ _ => Throw (SlackError "user_not_found");
     chat_getPermalink := fun _ _ _ => Throw (SlackError "message_not_found");
     store_rejects := fun _ => false |}.

(** ** User directory cache *)

(** C9, as stated, fails: the directory does not know [U404]; the lookup
    through the cache gives [null], and neither the user table nor the
    cache receives a placeholder. *)
Lemma getUserInfo_placeholder_counterexample :
  exists w',
    getUserInfo (workspace [] [] (fun _ => false)) "U404" empty_world
    = Done (Ok None) w'
    /\ users (store w') = []
    /\ userCache w' !! "U404" = None.
Proof. eexists. split; [vm_compute; reflexivity|]. now split. Qed.

(** C9, amended. For every user id whose directory lookup fails (the
    request is rejected, or answered without a user) and that has no fresh
    cache entry, resolving the user through the cache settles, without an
    exception, with [null]: no record, placeholder or other, is returned,
    stored or cached. *)
Theorem getUserInfo_failed_lookup_null :
  forall (env : Env) (userId : string) (w : World)
         (req : Request (option SlackUser)),
    cache_fresh (now w) (userCache w !! userId) = false ->
    directory_lookup env userId = Some req ->
    lookup_failed req ->
    exists w',
      getUserInfo env userId w = Done (Ok None) w'
      /\ store w' = store w /\ userCache w' = userCache w.
Proof.
  intros env userId w req Hfresh Hreq Hfailed.
  destruct (getUserInfo_run env userId w) as (found & w' & Hrun & _ & _ & _ & H).
  destruct (H Hfresh req Hreq Hfailed) as (-> & Hs & Hc).
  now exists w'.
Qed.

Lemma getUserInfo_failed_lookup_null_witness :
  exists w',
    getUserInfo (workspace [] [] (fun _ => false)) "U404" empty_world
    = Done (Ok None) w'
    /\ store w' = store empty_world /\ userCache w' = userCache empty_world.
Proof.
  eapply (getUserInfo_failed_lookup_null
            (workspace [] [] (fun _ => false)) "U404" empty_world).
  - reflexivity.
  - reflexivity.
  - exact I.
Defined.

(** ** Processing one message *)

(** C10, as stated, fails for enrichment: the permalink request and the
    lookup of the mentioned user both fail, and the message is stored all
    the same, with an empty permalink; the result is the stored row. *)
Lemma processMessage_enrichment_counterexample :
  exists m w',
    chat_getPermalink workspace_without_permalinks "C1" 1000000%Z 0%nat
    = Throw (SlackError "message_not_found")
    /\ users_info workspace_without_permalinks "U2" 0%nat
       = Throw (SlackError "user_not_found")
    /\ processMessage workspace_without_permalinks
         (plain "U1" "ping <@U2>" 1000000%Z) "C1" 1 empty_world
       = Done (Ok (Some m)) w'
    /\ m_permalink m = ""
    /\ stored_messages (store w') = [m].
Proof. eexists _, _. repeat split. Qed.

(** C10, amended. Processing one message never raises to its caller and
    always settles. A message without an author id, or whose type is not
    ['message'], gives [null] and changes nothing. A message whose
    persistence (the upsert) is rejected gives [null] and leaves the stored
    message rows as they were. Any other message is stored and returned,
    whether or not its enrichment (permalink, mentioned users)
    succeeded. *)
Theorem processMessage_never_raises :
  forall (env : Env) (message : SlackMessage) (channelId : string)
         (conversationDbId : nat) (w : World),
  exists result w',
    processMessage env message channelId conversationDbId w = Done (Ok result) w'
    /\ (truthy (msg_user message) = false \/ msg_type message <> "message" ->
        result = None /\ w' = w)
    /\ (store_rejects env (MessageUpsert conversationDbId (msg_ts message)) = true ->
        result = None
        /\ stored_messages (store w') = stored_messages (store w))
    /\ (truthy (msg_user message) = true -> msg_type message = "message" ->
        store_rejects env (MessageUpsert conversationDbId (msg_ts message)) = false ->
        exists m, result = Some m
                  /\ m ∈ stored_messages (store w')
                  /\ m_channel_id m = conversationDbId
                  /\ m_ts m = msg_ts message).
Proof.
  intros env message channelId conversationDbId w.
  destruct (processMessage_run env message channelId conversationDbId w)
    as (result & w' & Hrun & _ & Hskip & Hrej & Hstored).
  exists result, w'. split; [assumption|]. split; [|split; [assumption|]].
  - intros H. apply Hskip. unfold skipped.
    destruct H as [-> | Htype]; [reflexivity|].
    apply String.eqb_neq in Htype. rewrite Htype. apply orb_true_r.
  - intros Huser Htype. apply Hstored. unfold skipped.
    rewrite Huser. apply String.eqb_eq in Htype. now rewrite Htype.
Qed.

Lemma processMessage_never_raises_witness :
  exists m w',
    processMessage (workspace [] [] (fun _ => false))
      (plain "U1" "hello" 1000000%Z) "C1" 1 empty_world = Done (Ok (Some m)) w'
    /\ m ∈ stored_messages (store w')
    /\ m_ts m = 1000000%Z.
Proof.
  destruct (processMessage_never_raises (workspace [] [] (fun _ => false))
              (plain "U1" "hello" 1000000%Z) "C1" 1 empty_world)
    as (result & w' & Hrun & _ & _ & Hstored).
  destruct Hstored as (m & -> & Hin & _ & Hts); [reflexivity..|].
  now exists m, w'.
Defined.

(** ** The batch loop and the watermark *)

(** The update of [lastTs] in the loop over the batch. *)
Definition later (lastTs : option Ts) (ts : Ts) : option Ts :=
  match lastTs with
  | None => Some ts
  | Some l => if (l <? ts)%Z then Some ts else lastTs
  end.

(** [t] is the greatest timestamp of the batch. *)
Definition is_latest (t : Ts) (batch : list SlackMessage) : Prop :=
  (exists m, m ∈ batch /\ msg_ts m = t)
  /\ forall m, m ∈ batch -> (msg_ts m <= t)%Z.

Lemma later_latest (batch : list SlackMessage) : forall m0 seen,
  is_latest m0 seen ->
  exists t, foldl later (Some m0) (map msg_ts batch) = Some t
            /\ is_latest t (seen ++ batch).
Proof.
  induction batch as [|m batch IH]; intros m0 seen Hm0.
  - exists m0. now rewrite app_nil_r.
  - cbn [map foldl later].
    replace (seen ++ m :: batch) with ((seen ++ [m]) ++ batch)
      by now rewrite <- app_assoc.
    destruct Hm0 as [(x & Hx & Hxt) Hmax].
    destruct (m0 <? msg_ts m)%Z eqn:Hlt; apply IH.
    + apply Z.ltb_lt in Hlt. split.
      * exists m. split; [|reflexivity]. apply elem_of_app. right. left.
      * intros y Hy. apply elem_of_app in Hy as [Hy|Hy].
        -- apply Hmax in Hy. lia.
        -- apply list_elem_of_singleton in Hy. subst. lia.
    + apply Z.ltb_ge in Hlt. split.
      * exists x. split; [|assumption]. apply elem_of_app. now left.
      * intros y Hy. apply elem_of_app in Hy as [Hy|Hy].
        -- now apply Hmax.
        -- apply list_elem_of_singleton in Hy. now subst.
Qed.

Lemma later_latest_batch (batch : list SlackMessage) :
  batch <> [] ->
  exists t, foldl later None (map msg_ts batch) = Some t /\ is_latest t batch.
Proof.
  destruct batch as [|m batch]; [congruence|]. intros _.
  cbn [map foldl later].
  apply (later_latest batch (msg_ts m) [m]). split.
  - exists m. split; [left|reflexivity].
  - intros y Hy. apply list_elem_of_singleton in Hy. subst. lia.
Qed.

Section BatchFacts.

Variable env : Env.

(** The loop over the batch settles with the greatest timestamp seen,
    whatever became of the messages, and leaves the conversations alone. *)
Lemma process_batch_run channelId conversationDbId (batch : list SlackMessage) :
  forall lastTs w,
  exists w',
    process_batch env batch channelId conversationDbId lastTs w
    = Done (Ok (foldl later lastTs (map msg_ts batch))) w'
    /\ conversations (store w') = conversations (store w).
Proof.
  induction batch as [|m batch IH]; intros lastTs w.
  - now exists w.
  - cbn [process_batch map foldl]. unfold bind at 1.
    destruct (processMessage_run env m channelId conversationDbId w)
      as (result & w1 & Hrun & Hconv & _).
    rewrite Hrun.
    destruct (IH (later lastTs (msg_ts m)) w1) as (w2 & Hrun2 & Hconv2).
    exists w2. split; [|now rewrite Hconv2].
    rewrite <- Hrun2. unfold later. now destruct lastTs.
Qed.

Lemma conversation_update_run id ts w :
  store_rejects env (ConversationUpdate id) = false ->
  (exists c, c ∈ conversations (store w) /\ conv_id c = id) ->
  exists w',
    conversation_update_last_ts env id ts w = Done (Ok tt) w'
    /\ conversations (store w')
       = map (fun c => if Nat.eqb (conv_id c) id then set_last_ts ts c else c)
             (conversations (store w))
    /\ stored_messages (store w') = stored_messages (store w).
Proof.
  intros Hacc (c & Hc & Hid). unfold conversation_update_last_ts, store_call.
  rewrite Hacc.
  assert (existsb (fun c => Nat.eqb (conv_id c) id) (conversations (store w)) = true)
    as ->.
  { apply existsb_exists. exists c. split; [now apply list_elem_of_In|].
    now apply Nat.eqb_eq. }
  eexists. split; [reflexivity|]. now split.
Qed.

End BatchFacts.

(** ** Watermark and persistence (C1) *)

(** The store rejects the upsert of the message with timestamp [ts]. *)
Definition rejects_message (ts : Ts) (op : StoreOp) : bool :=
  match op with
  | MessageUpsert _ t => (t =? ts)%Z
  | _ => false
  end.

Definition watermarks (w : World) : list (string * option Ts) :=
  map (fun c => (conv_slack_id c, last_ts_processed c)) (conversations (store w)).



Definition seeded_world (watermark : option Ts) : World :=
  {| store := {| conversations :=
                   [{| conv_id := 1; conv_slack_id := "C1"; conv_name := "general";
                       conv_type := TChannel; last_ts_processed := watermark;
                       conv_createdAt := 0; conv_updatedAt := 0 |}];
                 stored_messages := []; users := []; summaries := [] |};
     userCache := ∅; now := 0; sleeps := []; logged := [] |}.


(** ** Watermark monotonicity (C4) *)

(** C4 fails on the code at this input. The conversation has the watermark
    100 s; the run is started with the override 10 s, and the history after
    it holds one message, at 50 s (later ones are gone from the workspace).
    The run stores 50 s as the watermark: it went down. *)
Theorem ingest_override_lowers_watermark :
  exists w',
    ingestAllConversations
      (workspace [plain "U1" "old" 50000000%Z] [] (fun _ => false))
      5 (Some 10000000%Z) (seeded_world (Some 100000000%Z))
    = Done (Ok tt) w'
    /\ watermarks (seeded_world (Some 100000000%Z)) = [("C1", Some 100000000%Z)]
    /\ watermarks w' = [("C1", Some 50000000%Z)].
Proof. eexists. split; [vm_compute; reflexivity|]. now split. Qed.

(** *** The event path guards the watermark

    [queueMessageForIngestion], the sibling of the scheduled run, compares
    the new timestamp with the stored one before it writes: over a store
    whose ids are unique no watermark goes down. *)

Definition watermark_le (a b : option Ts) : Prop :=
  match a, b with
  | None, _ => True
  | Some x, Some y => (x <= y)%Z
  | Some _, None => False
  end.

Lemma watermark_le_refl a : watermark_le a a.
Proof. destruct a; simpl; [lia|exact I]. Qed.

Definition watermarks_kept (w w' : World) : Prop :=
  forall c, c ∈ conversations (store w) ->
    exists c', c' ∈ conversations (store w')
               /\ conv_id c' = conv_id c
               /\ watermark_le (last_ts_processed c) (last_ts_processed c').

Lemma watermarks_kept_same w w' :
  conversations (store w') = conversations (store w) -> watermarks_kept w w'.
Proof.
  intros H c Hc. exists c. rewrite H. split; [assumption|].
  split; [reflexivity|apply watermark_le_refl].
Qed.

Lemma NoDup_map_inj {A B} (g : A -> B) (l : list A) x y :
  NoDup (map g l) -> x ∈ l -> y ∈ l -> g x = g y -> x = y.
Proof.
  induction l as [|a l IH]; intros Hnd Hx Hy Hg.
  - now apply elem_of_nil in Hx.
  - simpl in Hnd. apply NoDup_cons in Hnd as [Hnot Hnd].
    apply elem_of_cons in Hx as [->|Hx]; apply elem_of_cons in Hy as [->|Hy].
    + reflexivity.
    + exfalso. apply Hnot. rewrite Hg. now apply list_elem_of_fmap_2.
    + exfalso. apply Hnot. rewrite <- Hg. now apply list_elem_of_fmap_2.
    + now apply IH.
Qed.

Lemma fresh_id_above (rows : list Conversation) c :
  c ∈ rows -> (conv_id c < fresh_id rows)%nat.
Proof.
  unfold fresh_id. induction rows as [|a rows IH]; intros Hc.
  - now apply elem_of_nil in Hc.
  - simpl. apply elem_of_cons in Hc as [->|Hc]; [lia|].
    apply IH in Hc. lia.
Qed.

Section EventFacts.

Variable env : Env.

(** An accepted upsert of a conversation keeps the id and the watermark of
    every row; the row it returns is the only one with its id. *)
Lemma conversation_upsert_run id name type w :
  NoDup (map conv_id (conversations (store w))) ->
  NoDup (map conv_slack_id (conversations (store w))) ->
  store_rejects env (ConversationUpsert id) = false ->
  exists c' w',
    conversation_upsert env id name type w = Done (Ok c') w'
    /\ (forall c, c ∈ conversations (store w) ->
          exists c2, c2 ∈ conversations (store w')
                     /\ conv_id c2 = conv_id c
                     /\ last_ts_processed c2 = last_ts_processed c)
    /\ (forall c2, c2 ∈ conversations (store w') -> conv_id c2 = conv_id c' ->
          last_ts_processed c2 = last_ts_processed c')
    /\ c' ∈ conversations (store w').
Proof.
  intros Hids Hslack Hacc. unfold conversation_upsert, store_call. rewrite Hacc.
  destruct (List.find _ (conversations (store w))) as [c0|] eqn:Hfind.
  - apply find_some in Hfind as [Hin0 Hkey0].
    apply list_elem_of_In in Hin0. apply String.eqb_eq in Hkey0.
    eexists _, _. split; [reflexivity|]. frame.
    set (c' := Build_Conversation _ _ _ _ _ _ _).
    split; [|split].
    + intros c Hc.
      exists (if String.eqb (conv_slack_id c) id then c' else c).
      split; [now apply (list_elem_of_fmap_2
                (fun x => if String.eqb (conv_slack_id x) id then c' else x))|].
      destruct (String.eqb_spec (conv_slack_id c) id) as [Heq|]; [|now split].
      assert (c = c0) as ->
        by (apply (NoDup_map_inj conv_slack_id _ _ _ Hslack Hc Hin0); congruence).
      now split.
    + intros c2 Hc2 Hid. apply list_elem_of_fmap in Hc2 as (x & -> & Hx).
      destruct (String.eqb_spec (conv_slack_id x) id) as [Heq|Hne]; [reflexivity|].
      exfalso. apply Hne.
      assert (x = c0) as ->
        by (apply (NoDup_map_inj conv_id _ _ _ Hids Hx Hin0); exact Hid).
      assumption.
    + apply (list_elem_of_fmap_2'
               (fun x => if String.eqb (conv_slack_id x) id then c' else x)
               _ c0); [assumption|].
      now rewrite (proj2 (String.eqb_eq _ _) Hkey0).
  - eexists _, _. split; [reflexivity|]. frame.
    split; [|split].
    + intros c Hc. exists c. split; [apply elem_of_app; now left|now split].
    + intros c2 Hc2 Hid. apply elem_of_app in Hc2 as [Hc2|Hc2].
      * apply fresh_id_above in Hc2. cbn [conv_id] in Hid. lia.
      * apply list_elem_of_singleton in Hc2. now subst.
    + apply elem_of_app. right. left.
Qed.


Lemma ensureConversation_run info w :
  NoDup (map conv_id (conversations (store w))) ->
  NoDup (map conv_slack_id (conversations (store w))) ->
  exists r w',
    ensureConversation env info w = Done r w'
    /\ match r with
       | Throw _ => store w' = store w
       | Ok c' =>
           (forall c, c ∈ conversations (store w) ->
              exists c2, c2 ∈ conversations (store w')
                         /\ conv_id c2 = conv_id c
                         /\ last_ts_processed c2 = last_ts_processed c)
           /\ (forall c2, c2 ∈ conversations (store w') -> conv_id c2 = conv_id c' ->
                 last_ts_processed c2 = last_ts_processed c')
       end.
Proof.
  intros Hids Hslack. unfold ensureConversation.
  destruct (if is_channel info then _ else _) as [type|].
  2:{ eexists _, _. split; [reflexivity|reflexivity]. }
  unfold bind at 1.
  destruct (store_rejects env (ConversationUpsert (ch_id info))) eqn:Hacc.
  - unfold conversation_upsert, store_call. rewrite Hacc.
    eexists _, _. split; [reflexivity|reflexivity].
  - destruct (conversation_upsert_run (ch_id info) (ch_name info) type w
                Hids Hslack Hacc) as (c' & w1 & Hrun & Hkept & Honly & _).
    rewrite Hrun. eexists _, _. split; [reflexivity|]. now frame.
Qed.

(** The look at the thread parent leaves the conversations alone. *)
Lemma event_thread_run (event : SlackMessage) channel conversationDbId w :
  exists r w',
    (match msg_thread_ts event with
     | Some thread_ts =>
         if negb (thread_ts =? msg_ts event)%Z then
           threadInfo <-
             slackRequest env (conversations_replies env channel thread_ts None 1) ;;
           match messages threadInfo with
           | parent :: _ =>
               processMessage env parent channel conversationDbId ;;; ret tt
           | [] => ret tt
           end
         else ret tt
     | None => ret tt
     end) w = Done r w'
    /\ conversations (store w') = conversations (store w).
Proof.
  destruct (msg_thread_ts event) as [thread_ts|]; [|now eexists _, _].
  destruct (negb (thread_ts =? msg_ts event)%Z); [|now eexists _, _].
  unfold bind at 1.
  destruct (slackRequest_run env (conversations_replies env channel thread_ts None 1) w)
    as (req & w2 & _ & Hrun2 & Hs2 & _).
  rewrite Hrun2. destruct (settled req) as [threadInfo|e].
  2:{ eexists _, _. split; [reflexivity|]. now rewrite Hs2. }
  destruct (messages threadInfo) as [|parent rest].
  { eexists _, _. split; [reflexivity|]. now rewrite Hs2. }
  unfold bind at 1.
  destruct (processMessage_run env parent channel conversationDbId w2)
    as (o3 & w3 & Hrun3 & Hconv3 & _).
  rewrite Hrun3. eexists _, _. split; [reflexivity|].
  now rewrite Hconv3, Hs2.
Qed.

(** The guarded update of the event path. *)
Lemma event_update_run (event : SlackMessage) (conversation : Conversation) w :
  (forall c2, c2 ∈ conversations (store w) -> conv_id c2 = conv_id conversation ->
     last_ts_processed c2 = last_ts_processed conversation) ->
  exists r w',
    (match last_ts_processed conversation with
     | Some last =>
         if (date_of_ts last <? date_of_ts (msg_ts event))%Z
         then conversation_update_last_ts env (conv_id conversation) (msg_ts event)
         else ret tt
     | None => conversation_update_last_ts env (conv_id conversation) (msg_ts event)
     end) w = Done r w'
    /\ watermarks_kept w w'.
Proof.
  intros Honly.
  assert (forall w0, conversations (store w0) = conversations (store w) ->
          watermark_le (last_ts_processed conversation) (Some (msg_ts event)) ->
          exists r w',
            conversation_update_last_ts env (conv_id conversation) (msg_ts event) w0
            = Done r w'
            /\ watermarks_kept w w') as Hupdate.
  { intros w0 Hw0 Hle. unfold conversation_update_last_ts, store_call.
    destruct (store_rejects env _).
    { eexists _, _. split; [reflexivity|]. now apply watermarks_kept_same. }
    destruct (existsb _ _).
    2:{ eexists _, _. split; [reflexivity|]. frame.
        now apply watermarks_kept_same. }
    eexists _, _. split; [reflexivity|]. frame.
    intros c Hc. rewrite Hw0.
    exists (if Nat.eqb (conv_id c) (conv_id conversation)
            then set_last_ts (msg_ts event) c else c).
    split; [now apply (list_elem_of_fmap_2
              (fun c => if Nat.eqb (conv_id c) (conv_id conversation)
                        then set_last_ts (msg_ts event) c else c))|].
    destruct (Nat.eqb_spec (conv_id c) (conv_id conversation)) as [Heq|].
    - split; [reflexivity|]. cbn [set_last_ts last_ts_processed].
      now rewrite (Honly c Hc Heq).
    - split; [reflexivity|apply watermark_le_refl]. }
  destruct (last_ts_processed conversation) as [last|] eqn:Hlast.
  - destruct (date_of_ts last <? date_of_ts (msg_ts event))%Z eqn:Hlt.
    + apply (Hupdate w eq_refl). simpl. apply Z.ltb_lt in Hlt.
      unfold date_of_ts in Hlt.
      destruct (Z.le_gt_cases last (msg_ts event)) as [|Hgt]; [assumption|].
      exfalso. assert (msg_ts event / 1000 <= last / 1000)%Z
        by (apply Z.div_le_mono; lia). lia.
    + exists (Ok tt), w. split; [reflexivity|]. now apply watermarks_kept_same.
  - now apply (Hupdate w eq_refl).
Qed.


Lemma watermark_le_trans a b c :
  watermark_le a b -> watermark_le b c -> watermark_le a c.
Proof. destruct a, b, c; simpl; try tauto; lia. Qed.

Lemma watermarks_kept_trans w1 w2 w3 :
  watermarks_kept w1 w2 -> watermarks_kept w2 w3 -> watermarks_kept w1 w3.
Proof.
  intros H12 H23 c Hc.
  destruct (H12 c Hc) as (c2 & Hc2 & Hid2 & Hle2).
  destruct (H23 c2 Hc2) as (c3 & Hc3 & Hid3 & Hle3).
  exists c3. split; [assumption|]. split; [congruence|].
  now apply watermark_le_trans with (b := last_ts_processed c2).
Qed.

(** The event path settles without an exception and lowers no watermark. *)
Lemma queueMessageForIngestion_keeps_watermarks event channel w :
  NoDup (map conv_id (conversations (store w))) ->
  NoDup (map conv_slack_id (conversations (store w))) ->
  exists w',
    queueMessageForIngestion env event channel w = Done (Ok tt) w'
    /\ watermarks_kept w w'.
Proof.
  intros Hids Hslack. unfold queueMessageForIngestion, try_catch.
  destruct (negb (String.eqb (msg_type event) "message")).
  { exists w. split; [reflexivity|]. now apply watermarks_kept_same. }
  unfold bind at 1.
  destruct (slackRequest_run env (conversations_info env channel) w)
    as (req & w1 & _ & Hrun1 & Hs1 & _).
  rewrite Hrun1. destruct (settled req) as [[info|]|e].
  2:{ eexists. split; [reflexivity|]. apply watermarks_kept_same. frame.
      now rewrite Hs1. }
  2:{ eexists. split; [reflexivity|]. apply watermarks_kept_same. frame.
      now rewrite Hs1. }
  unfold bind at 1.
  destruct (ensureConversation_run info w1) as (r2 & w2 & Hrun2 & H2);
    [now rewrite Hs1..|].
  rewrite Hrun2. destruct r2 as [conversation|e].
  2:{ eexists. split; [reflexivity|]. apply watermarks_kept_same. frame.
      now rewrite H2, Hs1. }
  destruct H2 as [Hkept Honly].
  assert (watermarks_kept w w2) as Hw2.
  { intros c Hc. rewrite <- Hs1 in Hc. destruct (Hkept c Hc) as (c2 & ? & ? & Hl).
    exists c2. split; [assumption|]. split; [assumption|].
    rewrite Hl. apply watermark_le_refl. }
  unfold bind at 1.
  destruct (processMessage_run env event channel (conv_id conversation) w2)
    as (o3 & w3 & Hrun3 & Hconv3 & _).
  rewrite Hrun3. unfold bind at 1.
  destruct (event_thread_run event channel (conv_id conversation) w3)
    as (r4 & w4 & Hrun4 & Hconv4).
  rewrite Hrun4. destruct r4 as [[]|e].
  2:{ eexists. split; [reflexivity|].
      apply watermarks_kept_trans with (w2 := w2); [assumption|].
      apply watermarks_kept_same. frame. now rewrite Hconv4, Hconv3. }
  destruct (event_update_run event conversation w4) as (r5 & w5 & Hrun5 & Hkept5).
  { intros c2 Hc2. apply Honly. now rewrite <- Hconv3, <- Hconv4. }
  rewrite Hrun5.
  assert (watermarks_kept w w5) as Hw5.
  { apply watermarks_kept_trans with (w2 := w2); [assumption|].
    apply watermarks_kept_trans with (w2 := w4); [|assumption].
    apply watermarks_kept_same. now rewrite Hconv4, Hconv3. }
  destruct r5 as [[]|e].
  - now exists w5.
  - eexists. split; [reflexivity|].
    apply watermarks_kept_trans with (w2 := w5); [assumption|].
    now apply watermarks_kept_same.
Qed.

End EventFacts.

(** ** Thread replies (C3) *)

Definition thread_starter : SlackMessage :=
  {| msg_type := "message"; msg_user := Some "U1"; msg_text := "question";
     msg_ts := 1000000%Z; msg_thread_ts := Some 1000000%Z;
     msg_reply_count := Some 1%nat; msg_reactions := None |}.

Definition thread_reply : SlackMessage :=
  {| msg_type := "message"; msg_user := Some "U2"; msg_text := "answer";
     msg_ts := 2000000%Z; msg_thread_ts := Some 1000000%Z;
     msg_reply_count := None; msg_reactions := None |}.

(** C3 fails on the code at this input. The conversation holds a thread
    starter and one reply: the history gives the starter, the replies of
    the thread are the starter and the reply. After the ingestion pass the
    store holds the starter only, and the watermark is the timestamp of the
    starter. *)
Theorem ingest_does_not_store_replies :
  exists w',
    conversations_replies
      (workspace [thread_starter] [thread_starter; thread_reply] (fun _ => false))
      "C1" 1000000%Z None 100 0
    = Ok {| messages := [thread_starter; thread_reply]; has_more := false;
            next_cursor := None |}
    /\ ingestAllConversations
         (workspace [thread_starter] [thread_starter; thread_reply] (fun _ => false))
         5 None empty_world
       = Done (Ok tt) w'
    /\ map m_ts (stored_messages (store w')) = [1000000%Z]
    /\ watermarks w' = [("C1", Some 1000000%Z)].
Proof.
  eexists. split; [reflexivity|]. split; [vm_compute; reflexivity|]. now split.
Qed.

Definition second_reply : SlackMessage :=
  {| msg_type := "message"; msg_user := Some "U3"; msg_text := "thanks";
     msg_ts := 3000000%Z; msg_thread_ts := Some 1000000%Z;
     msg_reply_count := None; msg_reactions := None |}.

(** The same when a reply shows in the history (its thread root differs
    from its own timestamp, and it has no reply count): the replies of the
    thread are fetched, the first one is skipped, the others are returned
    to [fetchMessages], which drops them. The second reply, which only the
    thread holds, is not stored. *)
Lemma ingest_drops_fetched_replies :
  exists w1 w',
    fetchThreadReplies
      (workspace [thread_starter; thread_reply]
         [thread_starter; thread_reply; second_reply] (fun _ => false))
      5 "C1" 2000000%Z empty_world
    = Done (Ok [thread_reply; second_reply]) w1
    /\ ingestAllConversations
         (workspace [thread_starter; thread_reply]
            [thread_starter; thread_reply; second_reply] (fun _ => false))
         5 None empty_world
       = Done (Ok tt) w'
    /\ map m_ts (stored_messages (store w')) = [1000000%Z; 2000000%Z].
Proof.
  eexists _, _. split; [vm_compute; reflexivity|].
  split; [vm_compute; reflexivity|reflexivity].
Qed.

(** *** The fetch never writes to the store *)

Definition keeps_store {A} (m : M A) : Prop :=
  forall w, match m w with
            | Done _ w' => store w' = store w
            | Pending => True
            end.

Lemma keeps_ret {A} (a : A) : keeps_store (ret a).
Proof. now intros w. Qed.

Lemma keeps_throw {A} e : keeps_store (throw (A := A) e).
Proof. now intros w. Qed.

Lemma keeps_log l t : keeps_store (log l t).
Proof. now intros w. Qed.

Lemma keeps_bind {A B} (m : M A) (k : A -> M B) :
  keeps_store m -> (forall a, keeps_store (k a)) -> keeps_store (bind m k).
Proof.
  intros Hm Hk w. unfold bind. specialize (Hm w).
  destruct (m w) as [[a|e] w1|]; [|assumption|exact I].
  specialize (Hk a w1). destruct (k a w1); [congruence|exact I].
Qed.

Lemma keeps_try_catch {A} (m : M A) (h : Exn -> M A) :
  keeps_store m -> (forall e, keeps_store (h e)) -> keeps_store (try_catch m h).
Proof.
  intros Hm Hh w. unfold try_catch. specialize (Hm w).
  destruct (m w) as [[a|e] w1|]; [assumption| |exact I].
  specialize (Hh e w1). destruct (h e w1); [congruence|exact I].
Qed.

Lemma keeps_for_each {A} (l : list A) (body : A -> M unit) :
  (forall x, keeps_store (body x)) -> keeps_store (for_each l body).
Proof.
  intros Hbody. induction l as [|x l IH]; [apply keeps_ret|].
  cbn [for_each]. apply keeps_bind; [apply Hbody|now intros].
Qed.

Section FetchFacts.

Variable env : Env.
Variable fuel : nat.

Lemma keeps_slackRequest {T} (requestFn : nat -> Result T) :
  keeps_store (slackRequest env requestFn).
Proof.
  intros w. destruct (slackRequest_run env requestFn w) as (req & w' & _ & -> & Hs & _).
  assumption.
Qed.

Lemma keeps_replies_loop conversationId threadTs n :
  forall replies cursor hasMore,
    keeps_store (replies_loop env n conversationId threadTs replies cursor hasMore).
Proof.
  induction n as [|n IH]; intros replies cursor hasMore.
  - destruct hasMore; [now intros w|apply keeps_ret].
  - cbn [replies_loop]. destruct hasMore; [|apply keeps_ret].
    apply keeps_bind; [apply keeps_slackRequest|]. intros response. apply IH.
Qed.

Lemma keeps_fetchThreadReplies conversationId threadTs :
  keeps_store (fetchThreadReplies env fuel conversationId threadTs).
Proof.
  apply keeps_try_catch; [apply keeps_replies_loop|].
  intros e. apply keeps_bind; [apply keeps_log|]. intros _. apply keeps_throw.
Qed.

Lemma keeps_history_loop conversationId oldest limit n :
  forall allMessages cursor hasMore,
    keeps_store
      (history_loop env n conversationId oldest limit allMessages cursor hasMore).
Proof.
  induction n as [|n IH]; intros allMessages cursor hasMore.
  - cbn [history_loop].
    destruct (hasMore && (length allMessages <? limit)%nat);
      [now intros w|apply keeps_ret].
  - cbn [history_loop].
    destruct (hasMore && (length allMessages <? limit)%nat); [|apply keeps_ret].
    apply keeps_bind; [apply keeps_slackRequest|]. intros response. apply IH.
Qed.

(** Whatever [fetchMessages] does with the threads it finds, the replies
    it fetches do not reach the store. *)
Lemma keeps_fetchMessages conversationId oldest limit :
  keeps_store (fetchMessages env fuel conversationId oldest limit).
Proof.
  apply keeps_try_catch.
  - apply keeps_bind; [apply keeps_history_loop|]. intros allMessages.
    apply keeps_bind; [|intros; apply keeps_ret].
    apply keeps_for_each. intros message.
    apply keeps_try_catch; [|intros; apply keeps_log].
    apply keeps_bind; [apply keeps_fetchThreadReplies|intros; apply keeps_ret].
  - intros e. apply keeps_bind; [apply keeps_log|]. intros _. apply keeps_throw.
Qed.

End FetchFacts.

(** ** Summary fallback (C5) *)

Section SummaryFacts.

Variable env : Env.
Variable chrono_parse : string -> list string.
Variable toLocaleString : Ts -> string.

(** The recap of the heuristic path is never empty. *)
Lemma heuristic_recap_not_empty msgs channelName :
  sd_summary (generateHeuristicSummary chrono_parse toLocaleString msgs channelName)
  <> "".
Proof. discriminate. Qed.

(** The recap of the model-backed path is never empty either. *)
Lemma generateAISummary_recap_not_empty openai msgs channelName w d w' :
  generateAISummary openai msgs channelName w = Done (Ok d) w' ->
  sd_summary d <> "".
Proof.
  unfold generateAISummary. destruct openai as [create|]; [|discriminate].
  unfold try_catch. destruct (create msgs channelName) as [reply|e];
    [|discriminate].
  intros [= <- _]. cbn [sd_summary].
  unfold truthy. destruct (ai_summary reply) as [s|]; [|discriminate].
  cbn [negb default]. destruct (String.eqb_spec s ""); [discriminate|assumption].
Qed.

(** The model-backed path is not configured, or its call is rejected. *)
Definition model_path_fails
    (openai : option (list SummaryMessage -> string -> Result AiReply))
    (msgs : list SummaryMessage) (channelName : string) : Prop :=
  match openai with
  | None => True
  | Some create => exists e, create msgs channelName = Throw e
  end.

Lemma summary_data_falls_back openai msgs channelName w :
  model_path_fails openai msgs channelName ->
  exists w',
    try_catch
      (match openai with
       | Some _ => generateAISummary openai msgs channelName
       | None =>
           ret (generateHeuristicSummary chrono_parse toLocaleString msgs channelName)
       end)
      (fun error =>
         log Error "Error generating summary, falling back to heuristic" ;;;
         ret (generateHeuristicSummary chrono_parse toLocaleString msgs channelName))
      w
    = Done (Ok (generateHeuristicSummary chrono_parse toLocaleString msgs channelName))
        w'
    /\ store w' = store w.
Proof.
  unfold model_path_fails, try_catch, generateAISummary.
  destruct openai as [create|].
  - intros [e He]. unfold try_catch. rewrite He.
    eexists. split; [reflexivity|reflexivity].
  - intros _. now exists w.
Qed.

End SummaryFacts.

(** C5. Whenever the model-backed path is not configured, or its call
    throws, generating the summary of a window that holds messages (the
    store answering the queries and accepting the new row) falls back to
    the heuristic path: the call returns a summary row, which is appended
    to the stored summaries, and whose recap, highlights, tasks and mentions
    are those of the heuristic summary; the recap is not empty, as on the
    model-backed path. *)
Theorem generateSummary_falls_back :
  forall (env : Env) (chrono_parse : string -> list string)
         (toLocaleString : Ts -> string)
         (openai : option (list SummaryMessage -> string -> Result AiReply))
         (conversationId : nat) (startTime endTime : Z) (w : World)
         (conversation : Conversation),
    store_rejects env (ConversationFindUnique conversationId) = false ->
    store_rejects env (MessageFindMany conversationId) = false ->
    store_rejects env (SummaryCreate conversationId) = false ->
    List.find (fun c => Nat.eqb (conv_id c) conversationId) (conversations (store w))
    = Some conversation ->
    messages_in_window (store w) conversationId startTime endTime <> [] ->
    model_path_fails openai
      (map summary_message
         (messages_in_window (store w) conversationId startTime endTime))
      (conv_name conversation) ->
    exists row w',
      generateSummaryForTimeWindow env chrono_parse toLocaleString openai
        conversationId startTime endTime w
      = Done (Ok (Some row)) w'
      /\ summaries (store w') = summaries (store w) ++ [row]
      /\ (let d :=
            generateHeuristicSummary chrono_parse toLocaleString
              (map summary_message
                 (messages_in_window (store w) conversationId startTime endTime))
              (conv_name conversation) in
          s_summary row = sd_summary d
          /\ s_highlights row = sd_highlights d
          /\ s_tasks row = sd_tasks d
          /\ s_mentions row = sd_mentions d)
      /\ s_summary row <> "".
Proof.
  intros env chrono_parse toLocaleString openai conversationId startTime endTime
    w conversation Hfind Hmany Hcreate Hconv Hwindow Hfails.
  unfold generateSummaryForTimeWindow.
  unfold try_catch at 1. unfold bind at 1.
  unfold conversation_findUnique, store_call at 1. rewrite Hfind, Hconv.
  unfold bind at 1. unfold message_findMany, store_call at 1. rewrite Hmany.
  assert (set_store (store w) w = w) as -> by now destruct w.
  assert (set_store (store w) w = w) as -> by now destruct w.
  destruct (messages_in_window (store w) conversationId startTime endTime)
    as [|m msgs] eqn:Hmsgs; [congruence|].
  cbn [length Nat.eqb]. unfold bind at 1. cbn [log modify]. unfold bind at 1.
  edestruct (summary_data_falls_back chrono_parse toLocaleString openai
               (map summary_message (m :: msgs)) (conv_name conversation))
    as (w1 & Hrun & Hs); [exact Hfails|].
  rewrite Hrun. unfold bind at 1. unfold summary_create, store_call.
  rewrite Hcreate. eexists _, _. split; [reflexivity|]. frame.
  rewrite Hs. frame. split; [reflexivity|]. split; [now repeat split|].
  discriminate.
Qed.

Definition stored_question : Message :=
  {| m_channel_id := 1; m_ts := 1000000%Z; m_user_id := "U1";
     m_text := "<@U2> please review this code?"; m_thread_ts := None;
     m_permalink := "https://example.com/p"; m_reactions := None;
     m_mentions := ["U2"]; m_createdAt := 500 |}.

Definition world_with_question : World :=
  {| store := {| conversations :=
                   [{| conv_id := 1; conv_slack_id := "C1"; conv_name := "general";
                       conv_type := TChannel; last_ts_processed := Some 1000000%Z;
                       conv_createdAt := 0; conv_updatedAt := 0 |}];
                 stored_messages := [stored_question];
                 users := []; summaries := [] |};
     userCache := ∅; now := 1000; sleeps := []; logged := [] |}.

Definition failing_service : option (list SummaryMessage -> string -> Result AiReply) :=
  Some (fun _ _ => Throw (ServiceError "timeout")).

Lemma generateSummary_falls_back_witness :
  exists row w',
    generateSummaryForTimeWindow (workspace [] [] (fun _ => false))
      (fun _ => []) (fun _ => "1/1/1970") failing_service 1 0 1000
      world_with_question
    = Done (Ok (Some row)) w'
    /\ summaries (store w') = summaries (store world_with_question) ++ [row]
    /\ map title (s_tasks row) = ["review  this code?"]
    /\ s_summary row <> "".
Proof.
  edestruct (generateSummary_falls_back (workspace [] [] (fun _ => false))
               (fun _ => []) (fun _ => "1/1/1970") failing_service 1 0 1000
               world_with_question)
    as (row & w' & Hrun & Hsum & (_ & _ & Htasks & _) & Hrecap).
  - reflexivity.
  - reflexivity.
  - reflexivity.
  - reflexivity.
  - vm_compute. discriminate.
  - exists (ServiceError "timeout"). reflexivity.
  - exists row, w'. split; [assumption|]. split; [assumption|].
    split; [|assumption]. now rewrite Htasks.
Defined.

(** * Further properties of the code *)

(** ** The retry loop settles with its last attempt *)

Section RetryOutcome.

Context {T : Type}.
Variable requestFn : nat -> Result T.
Variable maxRetries : nat.

(** The attempt [i] reported a rate limit. *)
Definition limited_at (i : nat) : Prop :=
  exists ra, requestFn i = Throw (RateLimitedError ra).

Lemma request_loop_last fuel : forall retries delay steps r,
  request_loop fuel requestFn maxRetries retries delay steps = Some r ->
  (retries <= maxRetries)%nat ->
  (retries < attempts r)%nat
  /\ (attempts r <= maxRetries + 1)%nat
  /\ settled r = requestFn (attempts r - 1)
  /\ (forall j, (retries <= j < attempts r - 1)%nat -> limited_at j)
  /\ ((attempts r <= maxRetries)%nat ->
      forall ra, settled r <> Throw (RateLimitedError ra)).
Proof.
  induction fuel as [|fuel IH]; intros retries delay steps r Hrun Hle;
    [discriminate|].
  simpl in Hrun. destruct (requestFn retries) as [v|error] eqn:Hreq.
  { injection Hrun as <-. cbn [attempts settled].
    rewrite Nat.sub_succ, Nat.sub_0_r, Hreq.
    split; [lia|]. split; [lia|]. split; [reflexivity|]. split.
    - intros j Hj. lia.
    - intros _ ra. discriminate. }
  destruct (is_rate_limited error && (retries <? maxRetries)%nat) eqn:Hretry.
  - apply andb_prop in Hretry as [Hrl Hlt]. apply Nat.ltb_lt in Hlt.
    apply IH in Hrun; [|lia].
    destruct Hrun as (Hgt & Hbound & Hlast & Hbefore & Hceiling).
    split; [lia|]. split; [lia|]. split; [assumption|].
    split; [|assumption].
    intros j Hj. destruct (Nat.eq_dec j retries) as [->|Hne].
    + destruct error; try discriminate. unfold limited_at. eexists. exact Hreq.
    + apply Hbefore. lia.
  - injection Hrun as <-. cbn [attempts settled].
    rewrite Nat.sub_succ, Nat.sub_0_r, Hreq.
    split; [lia|]. split; [lia|]. split; [reflexivity|]. split.
    + intros j Hj. lia.
    + intros Hlt ra [= ->]. simpl in Hretry.
      apply Nat.ltb_ge in Hretry. lia.
Qed.

Lemma request_loop_first fuel : forall i retries delay steps,
  (retries <= i)%nat -> (i <= maxRetries)%nat -> (i - retries < fuel)%nat ->
  length steps = retries ->
  (forall j, (retries <= j < i)%nat -> limited_at j) ->
  (forall ra, requestFn i <> Throw (RateLimitedError ra)) ->
  exists r,
    request_loop fuel requestFn maxRetries retries delay steps = Some r
    /\ settled r = requestFn i
    /\ attempts r = S i
    /\ length (retried r) = i.
Proof.
  induction fuel as [|fuel IH]; intros i retries delay steps Hri HiN Hfuel Hlen
    Hbefore Hnot; [lia|].
  simpl. destruct (Nat.eq_dec retries i) as [->|Hne].
  - destruct (requestFn i) as [v|error] eqn:Hreq.
    + eexists. split; [reflexivity|]. now repeat split.
    + assert (is_rate_limited error = false) as ->.
      { destruct error; try reflexivity. now destruct (Hnot retryAfter). }
      eexists. split; [reflexivity|]. now repeat split.
  - destruct (Hbefore retries) as [ra Hra]; [lia|]. rewrite Hra. simpl.
    assert ((retries <? maxRetries)%nat = true) as -> by (apply Nat.ltb_lt; lia).
    apply IH; try lia.
    + rewrite length_app. simpl. lia.
    + intros j Hj. apply Hbefore. lia.
    + assumption.
Qed.

End RetryOutcome.

(** X1. A call through the wrapper settles with the outcome of the first
    attempt that is not a rate limit, when that attempt comes within the
    ceiling: an error other than a rate limit is not retried, whatever
    retries remain. The operation has then been called [i + 1] times, with
    [i] sleeps. *)
Theorem makeSlackRequest_first_settled :
  forall (T : Type) (requestFn : nat -> Result T) (N : nat) (initialDelay : Z)
         (i : nat),
    (i <= N)%nat ->
    (forall j, (j < i)%nat -> exists ra, requestFn j = Throw (RateLimitedError ra)) ->
    (forall ra, requestFn i <> Throw (RateLimitedError ra)) ->
    exists r,
      makeSlackRequest requestFn N initialDelay = Some r
      /\ settled r = requestFn i
      /\ attempts r = (i + 1)%nat
      /\ length (retried r) = i.
Proof.
  intros T requestFn N initialDelay i HiN Hbefore Hnot.
  rewrite Nat.add_1_r. apply request_loop_first; try lia; try assumption.
  - reflexivity.
  - intros j Hj. apply Hbefore. lia.
Qed.

(** The API of the examples: a rate limit, then an error of another kind. *)
Definition limited_then_broken (i : nat) : Result string :=
  if (i <? 1)%nat then Throw (RateLimitedError (Some 1%Z))
  else Throw (SlackError "channel_not_found").

Lemma makeSlackRequest_first_settled_witness :
  exists r,
    makeSlackRequest limited_then_broken 3 10 = Some r
    /\ settled r = Throw (SlackError "channel_not_found")
    /\ attempts r = 2%nat
    /\ length (retried r) = 1%nat.
Proof.
  apply (makeSlackRequest_first_settled string limited_then_broken 3 10 1).
  - lia.
  - intros j Hj. assert (j = 0)%nat as -> by lia. now eexists.
  - intros ra. discriminate.
Defined.

(** X2. Every call through the wrapper comes back after at least one and at
    most [N + 1] calls of the operation; its result is the outcome of the
    last call, every earlier call reported a rate limit, and a rate-limit
    error reaches the caller only when the ceiling is exhausted. *)
Theorem makeSlackRequest_last_attempt :
  forall (T : Type) (requestFn : nat -> Result T) (N : nat) (initialDelay : Z),
  exists r,
    makeSlackRequest requestFn N initialDelay = Some r
    /\ (1 <= attempts r <= N + 1)%nat
    /\ settled r = requestFn (attempts r - 1)
    /\ (forall j, (j < attempts r - 1)%nat ->
          exists ra, requestFn j = Throw (RateLimitedError ra))
    /\ (forall ra, settled r = Throw (RateLimitedError ra) ->
          attempts r = (N + 1)%nat).
Proof.
  intros T requestFn N initialDelay.
  destruct (makeSlackRequest_returns requestFn N initialDelay) as [r Hr].
  exists r. split; [assumption|].
  destruct (request_loop_last requestFn N _ _ _ _ r Hr) as
    (Hgt & Hbound & Hlast & Hbefore & Hceiling); [lia|].
  split; [lia|]. split; [assumption|]. split.
  - intros j Hj. apply Hbefore. lia.
  - intros ra Hra. destruct (Nat.le_gt_cases (attempts r) N) as [Hle|]; [|lia].
    now destruct (Hceiling Hle ra).
Qed.

(** ** Pagination *)

(** What a request through the client settles with. *)
Definition settled_of {T} (env : Env) (requestFn : nat -> Result T)
    : option (Result T) :=
  settled <$> makeSlackRequest requestFn (MAX_RETRIES env) (RATE_LIMIT_DELAY env).

Lemma slackRequest_settled {T} env (requestFn : nat -> Result T) res w :
  settled_of env requestFn = Some res ->
  exists w',
    slackRequest env requestFn w = Done res w'
    /\ store w' = store w /\ userCache w' = userCache w.
Proof.
  unfold settled_of. intros Hres.
  destruct (slackRequest_run env requestFn w) as (req & w' & Hreq & Hrun & Hs & Hc).
  rewrite Hreq in Hres. injection Hres as <-. now exists w'.
Qed.

(** The pages that a cursor-paginated method serves from a cursor on:
    every request succeeds, [more] tells whether the loop of the caller
    goes on after a page, [next] is the cursor it then sends. *)
Section Served.

Context {R : Type}.
Variable ask : option string -> option (Result R).
Variable more : R -> bool.
Variable next : R -> option string.

Inductive served : option string -> list R -> Prop :=
| served_last cursor r :
    ask (or_null cursor) = Some (Ok r) -> more r = false ->
    served cursor [r]
| served_more cursor r rs :
    ask (or_null cursor) = Some (Ok r) -> more r = true ->
    served (next r) rs ->
    served cursor (r :: rs).

End Served.

Section PaginationFacts.

Variable env : Env.

(** *** [listAllConversations] *)

Lemma list_loop_served (rs : list ConversationListResponse) :
  forall n acc cursor w,
    served (fun c => settled_of env (conversations_list env c))
           (fun r => truthy (list_next_cursor r)) list_next_cursor cursor rs ->
    (length rs <= n)%nat ->
    exists w',
      list_loop env n acc cursor w
      = Done (Ok (acc ++ concat (map channels rs))) w'
      /\ store w' = store w /\ userCache w' = userCache w.
Proof.
  induction rs as [|r rs IH]; intros n acc cursor w Hserved Hn;
    [inversion Hserved|].
  destruct n as [|n]; [simpl in Hn; lia|].
  cbn [list_loop]. unfold bind at 1.
  inversion Hserved as [c r0 Hask Hmore|c r0 rs0 Hask Hmore Hrest]; subst.
  - destruct (slackRequest_settled env _ _ w Hask) as (w1 & Hrun & Hs & Hc).
    rewrite Hrun, Hmore. exists w1. cbn [map concat].
    now rewrite app_nil_r.
  - destruct (slackRequest_settled env _ _ w Hask) as (w1 & Hrun & Hs & Hc).
    rewrite Hrun, Hmore.
    destruct (IH n (acc ++ channels r) (list_next_cursor r) w1 Hrest)
      as (w2 & Hrun2 & Hs2 & Hc2); [simpl in Hn; lia|].
    exists w2. rewrite Hrun2. cbn [map concat]. rewrite <- app_assoc.
    split; [reflexivity|]. now rewrite Hs2, Hc2.
Qed.

End PaginationFacts.

(** X3. When the listing is served in pages, each request succeeding
    (after retries or not) and the last page alone carrying no cursor (or
    an empty one), [listAllConversations] follows the cursors to the last
    page and returns the channels of all the pages, in order; it writes
    nothing to the store. *)
Theorem listAllConversations_all_pages :
  forall (env : Env) (fuel : nat) (rs : list ConversationListResponse) (w : World),
    served (fun c => settled_of env (conversations_list env c))
           (fun r => truthy (list_next_cursor r)) list_next_cursor None rs ->
    (length rs <= fuel)%nat ->
    exists w',
      listAllConversations env fuel w = Done (Ok (concat (map channels rs))) w'
      /\ store w' = store w.
Proof.
  intros env fuel rs w Hserved Hfuel. unfold listAllConversations, bind.
  destruct (list_loop_served env rs fuel [] None w Hserved Hfuel)
    as (w1 & Hrun & Hs & _).
  rewrite Hrun. eexists. split; [reflexivity|]. exact Hs.
Qed.

(** A listing in two pages; the second one ends with the empty cursor. *)
Definition two_page_listing (history : list SlackMessage) : Env :=
  {| MAX_RETRIES := 3; RATE_LIMIT_DELAY := 1000;
     conversations_list := fun cursor _ =>
       match cursor with
       | None => Ok {| channels := [general]; list_next_cursor := Some "p2" |}
       | Some _ =>
           Ok {| channels :=
                   [{| ch_id := "C2"; ch_name := "random"; is_channel := false;
                       is_group := true; is_im := false; is_mpim := false |}];
                 list_next_cursor := Some "" |}
       end;
     conversations_info := fun _ _ => Ok (Some general);
     conversations_history := fun _ _ _ _ _ =>
       Ok {| messages := history; has_more := false; next_cursor := None |};
     conversations_replies := fun _ _ _ _ _ => Throw (SlackError "thread_not_found");
     users_info := fun _ _ => Throw (SlackError "user_not_found");
     chat_getPermalink := fun _ _ _ => Ok "https://example.com/p";
     store_rejects := fun _ => false |}.

Lemma listAllConversations_all_pages_witness :
  exists w',
    listAllConversations (two_page_listing []) 2 empty_world
    = Done (Ok [general;
                {| ch_id := "C2"; ch_name := "random"; is_channel := false;
                   is_group := true; is_im := false; is_mpim := false |}]) w'
    /\ store w' = store empty_world.
Proof.
  apply (listAllConversations_all_pages (two_page_listing []) 2
           [{| channels := [general]; list_next_cursor := Some "p2" |};
            {| channels :=
                 [{| ch_id := "C2"; ch_name := "random"; is_channel := false;
                     is_group := true; is_im := false; is_mpim := false |}];
               list_next_cursor := Some "" |}] empty_world).
  - apply served_more; [reflexivity|reflexivity|].
    apply served_last; reflexivity.
  - simpl. lia.
Defined.

(** *** [fetchThreadReplies] *)

(** What the loop does with one page. *)
Definition push_page (replies : list SlackMessage) (response : HistoryResponse)
    : list SlackMessage :=
  if (length replies =? 0)%nat && (0 <? length (messages response))%nat
  then replies ++ skipn 1 (messages response)
  else replies ++ messages response.

Lemma push_pages_started (rs : list HistoryResponse) : forall replies,
  replies <> [] ->
  foldl push_page replies rs = replies ++ concat (map messages rs).
Proof.
  induction rs as [|r rs IH]; intros replies Hne; cbn [foldl map concat].
  - now rewrite app_nil_r.
  - unfold push_page at 2. destruct replies as [|m replies]; [congruence|].
    cbn [length Nat.eqb andb]. rewrite IH, <- app_assoc; [reflexivity|].
    discriminate.
Qed.

Section ThreadFacts.

Variable env : Env.

Lemma replies_loop_served conversationId threadTs (rs : list HistoryResponse) :
  forall n replies cursor w,
    served (fun c => settled_of env
                       (conversations_replies env conversationId threadTs c 100))
           has_more next_cursor cursor rs ->
    (length rs <= n)%nat ->
    exists w',
      replies_loop env n conversationId threadTs replies cursor true w
      = Done (Ok (foldl push_page replies rs)) w'
      /\ store w' = store w.
Proof.
  induction rs as [|r rs IH]; intros n replies cursor w Hserved Hn;
    [inversion Hserved|].
  destruct n as [|n]; [simpl in Hn; lia|].
  cbn [replies_loop foldl]. unfold bind at 1.
  inversion Hserved as [c r0 Hask Hmore|c r0 rs0 Hask Hmore Hrest]; subst;
    destruct (slackRequest_settled env _ _ w Hask) as (w1 & Hrun & Hs & _);
    rewrite Hrun, Hmore; fold (push_page replies r).
  - exists w1. split; [|assumption]. now destruct n.
  - destruct (IH n (push_page replies r) (next_cursor r) w1 Hrest)
      as (w2 & Hrun2 & Hs2); [simpl in Hn; lia|].
    exists w2. split; [assumption|]. now rewrite Hs2.
Qed.

End ThreadFacts.

(** X4. When the replies of a thread are served in pages (every request
    succeeding) and the thread fits one page, or its first page holds at
    least two messages, [fetchThreadReplies] returns the messages of all
    the pages, in order, except the first one, the thread parent. *)
Theorem fetchThreadReplies_skips_parent :
  forall (env : Env) (fuel : nat) (conversationId : string) (threadTs : Ts)
         (r : HistoryResponse) (rs : list HistoryResponse) (w : World),
    served (fun c => settled_of env
                       (conversations_replies env conversationId threadTs c 100))
           has_more next_cursor None (r :: rs) ->
    (length (r :: rs) <= fuel)%nat ->
    rs = [] \/ (2 <= length (messages r))%nat ->
    exists w',
      fetchThreadReplies env fuel conversationId threadTs w
      = Done (Ok (skipn 1 (concat (map messages (r :: rs))))) w'
      /\ store w' = store w.
Proof.
  intros env fuel conversationId threadTs r rs w Hserved Hfuel Hshape.
  unfold fetchThreadReplies, try_catch.
  destruct (replies_loop_served env conversationId threadTs (r :: rs) fuel []
              None w Hserved Hfuel) as (w1 & Hrun & Hs).
  rewrite Hrun. exists w1. split; [|assumption]. do 2 f_equal.
  cbn [foldl map concat]. unfold push_page at 2. cbn [length Nat.eqb andb app].
  destruct (messages r) as [|parent [|reply rest]] eqn:Hr.
  - destruct Hshape as [->|Hlen]; [reflexivity|simpl in Hlen; lia].
  - destruct Hshape as [->|Hlen]; [reflexivity|simpl in Hlen; lia].
  - cbn [length Nat.ltb Nat.leb skipn app].
    rewrite push_pages_started; [reflexivity|discriminate].
Qed.

(** A thread of three messages, served in two pages. *)
Definition paged_thread : Env :=
  {| MAX_RETRIES := 3; RATE_LIMIT_DELAY := 1000;
     conversations_list := fun _ _ =>
       Ok {| channels := [general]; list_next_cursor := None |};
     conversations_info := fun _ _ => Ok (Some general);
     conversations_history := fun _ _ _ _ _ =>
       Ok {| messages := [thread_starter]; has_more := false; next_cursor := None |};
     conversations_replies := fun _ _ cursor _ _ =>
       match cursor with
       | None => Ok {| messages := [thread_starter; thread_reply];
                       has_more := true; next_cursor := Some "p2" |}
       | Some _ => Ok {| messages := [second_reply]; has_more := false;
                         next_cursor := None |}
       end;
     users_info := fun _ _ => Throw (SlackError "user_not_found");
     chat_getPermalink := fun _ _ _ => Ok "https://example.com/p";
     store_rejects := fun _ => false |}.

Lemma fetchThreadReplies_skips_parent_witness :
  exists w',
    fetchThreadReplies paged_thread 2 "C1" 1000000%Z empty_world
    = Done (Ok [thread_reply; second_reply]) w'
    /\ store w' = store empty_world.
Proof.
  apply (fetchThreadReplies_skips_parent paged_thread 2 "C1" 1000000%Z
           {| messages := [thread_starter; thread_reply];
              has_more := true; next_cursor := Some "p2" |}
           [{| messages := [second_reply]; has_more := false;
               next_cursor := None |}] empty_world).
  - apply served_more; [reflexivity|reflexivity|].
    apply served_last; reflexivity.
  - simpl. lia.
  - right. simpl. lia.
Defined.

(** X5. The test that skips the parent looks at what was collected so far,
    not at the page number: when the first page holds the parent alone and
    more pages follow, the first message of the second page, a reply, is
    skipped as well. *)
Theorem fetchThreadReplies_drops_reply_after_lone_parent :
  forall (env : Env) (fuel : nat) (conversationId : string) (threadTs : Ts)
         (r1 r2 : HistoryResponse) (rs : list HistoryResponse)
         (parent reply : SlackMessage) (others : list SlackMessage) (w : World),
    served (fun c => settled_of env
                       (conversations_replies env conversationId threadTs c 100))
           has_more next_cursor None (r1 :: r2 :: rs) ->
    (length (r1 :: r2 :: rs) <= fuel)%nat ->
    messages r1 = [parent] ->
    messages r2 = reply :: others ->
    others <> [] ->
    exists w',
      fetchThreadReplies env fuel conversationId threadTs w
      = Done (Ok (others ++ concat (map messages rs))) w'.
Proof.
  intros env fuel conversationId threadTs r1 r2 rs parent reply others w
    Hserved Hfuel Hr1 Hr2 Hothers.
  unfold fetchThreadReplies, try_catch.
  destruct (replies_loop_served env conversationId threadTs (r1 :: r2 :: rs) fuel []
              None w Hserved Hfuel) as (w1 & Hrun & _).
  rewrite Hrun. exists w1. do 2 f_equal.
  cbn [foldl]. unfold push_page at 3. rewrite Hr1. cbn.
  unfold push_page at 2. rewrite Hr2. cbn.
  now apply push_pages_started.
Qed.

Definition lone_parent_thread : Env :=
  {| MAX_RETRIES := 3; RATE_LIMIT_DELAY := 1000;
     conversations_list := fun _ _ =>
       Ok {| channels := [general]; list_next_cursor := None |};
     conversations_info := fun _ _ => Ok (Some general);
     conversations_history := fun _ _ _ _ _ =>
       Ok {| messages := [thread_starter]; has_more := false; next_cursor := None |};
     conversations_replies := fun _ _ cursor _ _ =>
       match cursor with
       | None => Ok {| messages := [thread_starter];
                       has_more := true; next_cursor := Some "p2" |}
       | Some _ => Ok {| messages := [thread_reply; second_reply];
                         has_more := false; next_cursor := None |}
       end;
     users_info := fun _ _ => Throw (SlackError "user_not_found");
     chat_getPermalink := fun _ _ _ => Ok "https://example.com/p";
     store_rejects := fun _ => false |}.

Lemma fetchThreadReplies_drops_reply_after_lone_parent_witness :
  exists w',
    fetchThreadReplies lone_parent_thread 2 "C1" 1000000%Z empty_world
    = Done (Ok [second_reply]) w'.
Proof.
  apply (fetchThreadReplies_drops_reply_after_lone_parent lone_parent_thread 2
           "C1" 1000000%Z
           {| messages := [thread_starter]; has_more := true;
              next_cursor := Some "p2" |}
           {| messages := [thread_reply; second_reply]; has_more := false;
              next_cursor := None |}
           [] thread_starter thread_reply [second_reply] empty_world).
  - apply served_more; [reflexivity|reflexivity|].
    apply served_last; reflexivity.
  - simpl. lia.
  - reflexivity.
  - reflexivity.
  - discriminate.
Defined.

(** *** [fetchMessages] *)

Section HistoryFacts.

Variable env : Env.
Variable fuel : nat.

(** The loop over the thread messages settles without an exception, or
    does not settle. *)
Lemma thread_fetches_swallowed conversationId (l : list SlackMessage) :
  forall w,
    match
      for_each l (fun message =>
        try_catch
          (fetchThreadReplies env fuel conversationId (msg_ts message) ;;; ret tt)
          (fun error => log Error "Failed to fetch thread replies")) w
    with
    | Done r _ => r = Ok tt
    | Pending => True
    end.
Proof.
  induction l as [|m l IH]; intros w; [reflexivity|].
  cbn [for_each]. unfold bind at 1, try_catch at 1, bind at 1.
  destruct (fetchThreadReplies env fuel conversationId (msg_ts m) w)
    as [[replies|e] w1|]; [apply IH|apply IH|exact I].
Qed.

Lemma fetchMessages_history conversationId oldest limit w r w' :
  fetchMessages env fuel conversationId oldest limit w = Done r w' ->
  exists w1,
    history_loop env fuel conversationId oldest limit [] None true w = Done r w1.
Proof.
  unfold fetchMessages, try_catch. unfold bind at 1.
  destruct (history_loop env fuel conversationId oldest limit [] None true w)
    as [[allMessages|e] w1|]; [| |discriminate].
  - unfold bind at 1.
    pose proof (thread_fetches_swallowed conversationId
                  (List.filter in_thread_without_replies allMessages) w1) as Hloop.
    destruct (for_each _ _ w1) as [r2 w2|]; [|discriminate].
    subst r2. intros [= <- _]. now exists w1.
  - intros [= <- _]. now exists w1.
Qed.

(** The history loop never holds more than [limit] messages when no page
    is longer than what was asked for. *)
Lemma history_loop_bound conversationId oldest limit :
  (forall cursor n r,
      settled_of env (conversations_history env conversationId oldest cursor n)
      = Some (Ok r) ->
      (length (messages r) <= n)%nat) ->
  forall n allMessages cursor hasMore w msgs w',
    (length allMessages <= limit)%nat ->
    history_loop env n conversationId oldest limit allMessages cursor hasMore w
    = Done (Ok msgs) w' ->
    (length msgs <= limit)%nat.
Proof.
  intros Hpage. induction n as [|n IH];
    intros allMessages cursor hasMore w msgs w' Hlen Hrun; cbn [history_loop] in Hrun.
  - destruct (hasMore && (length allMessages <? limit)%nat); [discriminate|].
    injection Hrun as <- _. assumption.
  - destruct (hasMore && (length allMessages <? limit)%nat) eqn:Hcond.
    2:{ injection Hrun as <- _. assumption. }
    unfold bind at 1 in Hrun.
    destruct (slackRequest_run env
                (conversations_history env conversationId oldest (or_null cursor)
                   (Nat.min 100 (limit - length allMessages))) w)
      as (req & w1 & Hreq & Hreq_run & _).
    rewrite Hreq_run in Hrun.
    destruct (settled req) as [response|e] eqn:Hsettled; [|discriminate].
    apply IH in Hrun; [assumption|].
    assert (length (messages response)
            <= Nat.min 100 (limit - length allMessages))%nat as Hle.
    { apply (Hpage (or_null cursor)). unfold settled_of.
      now rewrite Hreq; cbn; rewrite Hsettled. }
    rewrite length_app. lia.
Qed.

End HistoryFacts.

(** X6. Whenever [fetchMessages] settles, it settles as the paginated read
    of the history did: with the messages of the history, whatever became
    of the thread fetches (a failed one is logged and swallowed), or with
    the error of the history read, rethrown. *)
Theorem fetchMessages_settles_as_history :
  forall (env : Env) (fuel : nat) (conversationId : string) (oldest : option Ts)
         (limit : nat) (w : World) (r : Result (list SlackMessage)) (w' : World),
    fetchMessages env fuel conversationId oldest limit w = Done r w' ->
    exists w1,
      history_loop env fuel conversationId oldest limit [] None true w = Done r w1.
Proof. intros. eapply fetchMessages_history. eassumption. Qed.

Lemma fetchMessages_settles_as_history_witness :
  exists w' w1,
    conversations_replies (two_page_listing [thread_reply]) "C1" 2000000%Z None 100 0
    = Throw (SlackError "thread_not_found")
    /\ fetchMessages (two_page_listing [thread_reply]) 2 "C1" None 1000 empty_world
       = Done (Ok [thread_reply]) w'
    /\ history_loop (two_page_listing [thread_reply]) 2 "C1" None 1000 [] None true
         empty_world
       = Done (Ok [thread_reply]) w1.
Proof.
  assert (exists w',
            fetchMessages (two_page_listing [thread_reply]) 2 "C1" None 1000
              empty_world = Done (Ok [thread_reply]) w') as [w' Hrun]
    by (eexists; vm_compute; reflexivity).
  destruct (fetchMessages_settles_as_history _ _ _ _ _ _ _ _ Hrun) as [w1 Hhist].
  exists w', w1. split; [reflexivity|]. now split.
Defined.

(** X7. [fetchMessages] returns at most [limit] messages, provided no page
    of the history is longer than the page size asked for (which is the
    smaller of 100 and what is missing to [limit]). *)
Theorem fetchMessages_at_most_limit :
  forall (env : Env) (fuel : nat) (conversationId : string) (oldest : option Ts)
         (limit : nat) (w : World) (msgs : list SlackMessage) (w' : World),
    (forall cursor n r,
        settled_of env (conversations_history env conversationId oldest cursor n)
        = Some (Ok r) ->
        (length (messages r) <= n)%nat) ->
    fetchMessages env fuel conversationId oldest limit w = Done (Ok msgs) w' ->
    (length msgs <= limit)%nat.
Proof.
  intros env fuel conversationId oldest limit w msgs w' Hpage Hrun.
  apply fetchMessages_history in Hrun as [w1 Hloop].
  apply (history_loop_bound env conversationId oldest limit Hpage
           fuel [] None true w msgs w1); [simpl; lia|assumption].
Qed.

(** A history without end that serves pages of the size asked for. *)
Definition endless_history : Env :=
  {| MAX_RETRIES := 3; RATE_LIMIT_DELAY := 1000;
     conversations_list := fun _ _ =>
       Ok {| channels := [general]; list_next_cursor := None |};
     conversations_info := fun _ _ => Ok (Some general);
     conversations_history := fun _ _ _ n _ =>
       Ok {| messages := repeat (plain "U1" "again" 1000000%Z) n;
             has_more := true; next_cursor := Some "more" |};
     conversations_replies := fun _ _ _ _ _ => Throw (SlackError "thread_not_found");
     users_info := fun _ _ => Throw (SlackError "user_not_found");
     chat_getPermalink := fun _ _ _ => Ok "https://example.com/p";
     store_rejects := fun _ => false |}.

Lemma fetchMessages_at_most_limit_witness :
  exists msgs w',
    fetchMessages endless_history 5 "C1" None 150 empty_world = Done (Ok msgs) w'
    /\ length msgs = 150%nat
    /\ (length msgs <= 150)%nat.
Proof.
  assert (exists msgs w',
            fetchMessages endless_history 5 "C1" None 150 empty_world
            = Done (Ok msgs) w' /\ length msgs = 150%nat) as (msgs & w' & Hrun & Hlen)
    by (eexists _, _; split; vm_compute; reflexivity).
  exists msgs, w'. split; [assumption|]. split; [assumption|].
  apply (fetchMessages_at_most_limit endless_history 5 "C1" None 150 empty_world
           msgs w'); [|assumption].
  intros cursor n r Hr. cbn in Hr. injection Hr as <-. cbn [messages].
  now rewrite repeat_length.
Defined.

Section HistoryPages.

Variable env : Env.

Lemma history_loop_served conversationId oldest limit (rs : list HistoryResponse) :
  forall n allMessages cursor w,
    served (fun c => settled_of env
                       (conversations_history env conversationId oldest c 100))
           has_more next_cursor cursor rs ->
    (length rs <= n)%nat ->
    (length allMessages + length (concat (map messages rs)) + 100 <= limit)%nat ->
    exists w',
      history_loop env n conversationId oldest limit allMessages cursor true w
      = Done (Ok (allMessages ++ concat (map messages rs))) w'
      /\ store w' = store w.
Proof.
  induction rs as [|r rs IH]; intros n allMessages cursor w Hserved Hn Hroom;
    [inversion Hserved|].
  destruct n as [|n]; [simpl in Hn; lia|].
  cbn [history_loop map concat] in *. rewrite length_app in Hroom.
  assert ((length allMessages <? limit)%nat = true) as ->
    by (apply Nat.ltb_lt; lia).
  assert (Nat.min 100 (limit - length allMessages) = 100%nat) as -> by lia.
  cbn [andb]. unfold bind at 1.
  inversion Hserved as [c r0 Hask Hmore|c r0 rs0 Hask Hmore Hrest]; subst;
    destruct (slackRequest_settled env _ _ w Hask) as (w1 & Hrun & Hs & _);
    rewrite Hrun, Hmore.
  - exists w1. split; [|assumption]. cbn [concat map]. rewrite app_nil_r.
    now destruct n.
  - destruct (IH n (allMessages ++ messages r) (next_cursor r) w1 Hrest)
      as (w2 & Hrun2 & Hs2); [simpl in Hn; lia|rewrite length_app; lia|].
    exists w2. rewrite Hrun2, <- app_assoc. split; [reflexivity|].
    now rewrite Hs2.
Qed.

End HistoryPages.

(** X8. When the history is served in pages of up to 100 messages (every
    request succeeding, the last page alone saying that no more follow),
    the pages together leave room for a full page below [limit], and no
    message of them is a thread message without reply count,
    [fetchMessages] returns the messages of all the pages, in order, and
    writes nothing to the store. *)
Theorem fetchMessages_all_pages :
  forall (env : Env) (fuel : nat) (conversationId : string) (oldest : option Ts)
         (limit : nat) (rs : list HistoryResponse) (w : World),
    served (fun c => settled_of env
                       (conversations_history env conversationId oldest c 100))
           has_more next_cursor None rs ->
    (length rs <= fuel)%nat ->
    (length (concat (map messages rs)) + 100 <= limit)%nat ->
    List.filter in_thread_without_replies (concat (map messages rs)) = [] ->
    exists w',
      fetchMessages env fuel conversationId oldest limit w
      = Done (Ok (concat (map messages rs))) w'
      /\ store w' = store w.
Proof.
  intros env fuel conversationId oldest limit rs w Hserved Hfuel Hroom Hplain.
  destruct (history_loop_served env conversationId oldest limit rs fuel [] None w
              Hserved Hfuel) as (w1 & Hrun & Hs); [simpl; lia|].
  unfold fetchMessages, try_catch. unfold bind at 1. rewrite Hrun.
  cbn [app]. rewrite Hplain. now exists w1.
Qed.

(** A history of three messages, served in two pages. *)
Definition paged_history : Env :=
  {| MAX_RETRIES := 3; RATE_LIMIT_DELAY := 1000;
     conversations_list := fun _ _ =>
       Ok {| channels := [general]; list_next_cursor := None |};
     conversations_info := fun _ _ => Ok (Some general);
     conversations_history := fun _ _ cursor _ _ =>
       match cursor with
       | None => Ok {| messages := [plain "U1" "three" 3000000%Z;
                                    plain "U2" "two" 2000000%Z];
                       has_more := true; next_cursor := Some "p2" |}
       | Some _ => Ok {| messages := [plain "U1" "one" 1000000%Z];
                         has_more := false; next_cursor := None |}
       end;
     conversations_replies := fun _ _ _ _ _ => Throw (SlackError "thread_not_found");
     users_info := fun _ _ => Throw (SlackError "user_not_found");
     chat_getPermalink := fun _ _ _ => Ok "https://example.com/p";
     store_rejects := fun _ => false |}.

Lemma fetchMessages_all_pages_witness :
  exists w',
    fetchMessages paged_history 2 "C1" None 1000 empty_world
    = Done (Ok [plain "U1" "three" 3000000%Z; plain "U2" "two" 2000000%Z;
                plain "U1" "one" 1000000%Z]) w'
    /\ store w' = store empty_world.
Proof.
  apply (fetchMessages_all_pages paged_history 2 "C1" None 1000
           [{| messages := [plain "U1" "three" 3000000%Z;
                            plain "U2" "two" 2000000%Z];
               has_more := true; next_cursor := Some "p2" |};
            {| messages := [plain "U1" "one" 1000000%Z];
               has_more := false; next_cursor := None |}] empty_world).
  - apply served_more; [reflexivity|reflexivity|].
    apply served_last; reflexivity.
  - simpl. lia.
  - simpl. lia.
  - reflexivity.
Defined.

(** X9. Whatever [fetchMessages] fetches, history or thread replies, it
    writes nothing to the store: when it settles, with messages or with an
    error, the store is as it was. *)
Theorem fetchMessages_never_writes :
  forall (env : Env) (fuel : nat) (conversationId : string) (oldest : option Ts)
         (limit : nat) (w : World) (r : Result (list SlackMessage)) (w' : World),
    fetchMessages env fuel conversationId oldest limit w = Done r w' ->
    store w' = store w.
Proof.
  intros env fuel conversationId oldest limit w r w' Hrun.
  pose proof (keeps_fetchMessages env fuel conversationId oldest limit w) as H.
  now rewrite Hrun in H.
Qed.

Lemma fetchMessages_never_writes_witness :
  exists w',
    fetchMessages paged_thread 2 "C1" None 1000 (seeded_world (Some 5%Z))
    = Done (Ok [thread_starter]) w'
    /\ store w' = store (seeded_world (Some 5%Z)).
Proof.
  assert (exists w',
            fetchMessages paged_thread 2 "C1" None 1000 (seeded_world (Some 5%Z))
            = Done (Ok [thread_starter]) w') as [w' Hrun]
    by (eexists; vm_compute; reflexivity).
  exists w'. split; [assumption|].
  exact (fetchMessages_never_writes _ _ _ _ _ _ _ _ Hrun).
Defined.

(** ** [ensureConversation] *)

(** The type that [ensureConversation] gives a channel, if any. *)
Definition channel_type (info : Channel) : option ConversationType :=
  if is_channel info then Some TChannel
  else if is_group info then Some TGroup
  else if is_im info then Some TIm
  else if is_mpim info then Some TMpim
  else None.

Lemma find_slack_id (l : list Conversation) (c0 : Conversation) (id : string) :
  NoDup (map conv_slack_id l) -> c0 ∈ l -> conv_slack_id c0 = id ->
  List.find (fun c => String.eqb (conv_slack_id c) id) l = Some c0.
Proof.
  induction l as [|a l IH]; intros Hnd Hx Hg; [now apply elem_of_nil in Hx|].
  simpl in *. apply NoDup_cons in Hnd as [Hnot Hnd].
  apply elem_of_cons in Hx as [->|Hx].
  - now rewrite (proj2 (String.eqb_eq _ _) Hg).
  - destruct (String.eqb_spec (conv_slack_id a) id) as [Ha|]; [|now apply IH].
    exfalso. apply Hnot. rewrite Ha, <- Hg. now apply list_elem_of_fmap_2.
Qed.

(** X10. Ensuring a conversation that the store knows by its Slack id (ids
    being unique) updates the row in place: the row returned and stored
    keeps its database id, its watermark and its creation date, takes the
    name and type of the channel, no row is added, and the rows of other
    conversations and the messages are untouched. *)
Theorem ensureConversation_known :
  forall (env : Env) (info : Channel) (type : ConversationType) (w : World)
         (c0 : Conversation),
    NoDup (map conv_slack_id (conversations (store w))) ->
    c0 ∈ conversations (store w) ->
    conv_slack_id c0 = ch_id info ->
    channel_type info = Some type ->
    store_rejects env (ConversationUpsert (ch_id info)) = false ->
    exists c' w',
      ensureConversation env info w = Done (Ok c') w'
      /\ c' ∈ conversations (store w')
      /\ conv_id c' = conv_id c0
      /\ last_ts_processed c' = last_ts_processed c0
      /\ conv_createdAt c' = conv_createdAt c0
      /\ conv_name c' = ch_name info /\ conv_type c' = type
      /\ length (conversations (store w')) = length (conversations (store w))
      /\ (forall c, c ∈ conversations (store w) -> c <> c0 ->
            c ∈ conversations (store w'))
      /\ stored_messages (store w') = stored_messages (store w).
Proof.
  intros env info type w c0 Hslack Hin Hid Htype Hacc.
  unfold ensureConversation. fold (channel_type info). rewrite Htype.
  unfold bind at 1. unfold conversation_upsert, store_call. rewrite Hacc.
  rewrite (find_slack_id _ c0 _ Hslack Hin Hid).
  eexists _, _. split; [reflexivity|]. frame.
  set (c' := Build_Conversation _ _ _ _ _ _ _).
  split.
  { apply (list_elem_of_fmap_2'
             (fun x => if String.eqb (conv_slack_id x) (ch_id info) then c' else x)
             _ c0); [assumption|].
    now rewrite (proj2 (String.eqb_eq _ _) Hid). }
  do 5 (split; [reflexivity|]).
  split; [apply length_map|]. split; [|reflexivity].
  intros c Hc Hne.
  apply (list_elem_of_fmap_2'
           (fun x => if String.eqb (conv_slack_id x) (ch_id info) then c' else x)
           _ c); [assumption|].
  destruct (String.eqb_spec (conv_slack_id c) (ch_id info)) as [Heq|]; [|reflexivity].
  exfalso. apply Hne.
  apply (NoDup_map_inj conv_slack_id _ _ _ Hslack Hc Hin). congruence.
Qed.

Lemma ensureConversation_known_witness :
  exists c' w',
    ensureConversation (workspace [] [] (fun _ => false)) general
      (seeded_world (Some 100000000%Z)) = Done (Ok c') w'
    /\ conv_id c' = 1%nat
    /\ last_ts_processed c' = Some 100000000%Z
    /\ length (conversations (store w')) = 1%nat.
Proof.
  edestruct (ensureConversation_known (workspace [] [] (fun _ => false)) general
               TChannel (seeded_world (Some 100000000%Z)))
    as (c' & w' & Hrun & _ & Hid & Hlast & _ & _ & _ & Hlen & _).
  - simpl. apply NoDup_singleton.
  - left.
  - reflexivity.
  - reflexivity.
  - reflexivity.
  - exists c', w'. split; [exact Hrun|]. split; [exact Hid|].
    split; [exact Hlast|exact Hlen].
Defined.

(** X11. Ensuring a conversation that the store does not know adds one
    row, at the end: it has no watermark, the name and type of the channel,
    and a database id that no other row has; the rows that were there are
    untouched. *)
Theorem ensureConversation_new :
  forall (env : Env) (info : Channel) (type : ConversationType) (w : World),
    (forall c, c ∈ conversations (store w) -> conv_slack_id c <> ch_id info) ->
    channel_type info = Some type ->
    store_rejects env (ConversationUpsert (ch_id info)) = false ->
    exists c' w',
      ensureConversation env info w = Done (Ok c') w'
      /\ conversations (store w') = conversations (store w) ++ [c']
      /\ conv_slack_id c' = ch_id info
      /\ conv_name c' = ch_name info /\ conv_type c' = type
      /\ last_ts_processed c' = None
      /\ (forall c, c ∈ conversations (store w) -> conv_id c <> conv_id c')
      /\ stored_messages (store w') = stored_messages (store w).
Proof.
  intros env info type w Hnew Htype Hacc.
  unfold ensureConversation. fold (channel_type info). rewrite Htype.
  unfold bind at 1. unfold conversation_upsert, store_call. rewrite Hacc.
  destruct (List.find _ (conversations (store w))) as [c0|] eqn:Hfind.
  { apply find_some in Hfind as [Hin Heq]. apply list_elem_of_In in Hin.
    apply String.eqb_eq in Heq. now destruct (Hnew c0 Hin). }
  eexists _, _. split; [reflexivity|]. frame.
  do 5 (split; [reflexivity|]). split; [|reflexivity].
  intros c Hc. apply fresh_id_above in Hc. cbn [conv_id]. lia.
Qed.

Lemma ensureConversation_new_witness :
  exists c' w',
    ensureConversation (workspace [] [] (fun _ => false))
      {| ch_id := "D7"; ch_name := "direct"; is_channel := false;
         is_group := false; is_im := true; is_mpim := false |}
      (seeded_world (Some 100000000%Z)) = Done (Ok c') w'
    /\ conv_id c' = 2%nat /\ conv_type c' = TIm
    /\ last_ts_processed c' = None
    /\ length (conversations (store w')) = 2%nat.
Proof.
  edestruct (ensureConversation_new (workspace [] [] (fun _ => false))
               {| ch_id := "D7"; ch_name := "direct"; is_channel := false;
                  is_group := false; is_im := true; is_mpim := false |}
               TIm (seeded_world (Some 100000000%Z)))
    as (c' & w' & Hrun & Hrows & _ & _ & Htype & Hlast & _).
  - intros c Hc. apply list_elem_of_singleton in Hc. now subst.
  - reflexivity.
  - reflexivity.
  - exists c', w'. split; [exact Hrun|].
    vm_compute in Hrun. injection Hrun as <- <-. now repeat split.
Defined.

(** ** The user directory cache, on success *)

Lemma user_upsert_keeps_unique env userId user w :
  NoDup (map u_slack_id (users (store w))) ->
  match user_upsert env userId user w with
  | Done _ w' => NoDup (map u_slack_id (users (store w')))
  | Pending => True
  end.
Proof.
  intros Hnd. unfold user_upsert, store_call.
  destruct (store_rejects env (UserUpsert userId)); [assumption|].
  destruct (existsb _ (users (store w))) eqn:Hex; frame.
  - assert (map u_slack_id
              (map (fun x => if String.eqb (u_slack_id x) userId
                             then Build_User userId (su_name user)
                                    (or_null (su_real_name user))
                                    (or_null (su_email user))
                                    (or_null (su_image_72 user))
                                    (default false (su_is_bot user)) (now w)
                             else x) (users (store w)))
            = map u_slack_id (users (store w))) as ->; [|assumption].
    rewrite map_map. apply map_ext. intros x.
    destruct (String.eqb_spec (u_slack_id x) userId); [now subst|reflexivity].
  - rewrite map_app. apply NoDup_app. split; [assumption|]. split.
    + intros x Hx Hx'. apply list_elem_of_singleton in Hx'. subst x.
      apply list_elem_of_fmap in Hx as (u & Hu & Hin).
      assert (existsb (fun x => String.eqb (u_slack_id x) userId) (users (store w))
              = true) as Habs; [|congruence].
      apply existsb_exists. exists u. split; [now apply list_elem_of_In|].
      apply String.eqb_eq. now rewrite <- Hu.
    + apply NoDup_singleton.
Qed.

(** X12. A lookup that succeeds is written through and cached: with no
    fresh cache entry, the directory answering with a user and the store
    accepting the upsert, [getUserInfo] returns the record built from the
    answer, stamped with the time of the call; the record is in the cache
    and a row with the same fields is in the user table. A second lookup
    made while less than the TTL has passed since the first call gives the
    same record and touches neither the API nor the store. *)
Theorem getUserInfo_caches :
  forall (env : Env) (userId : string) (w : World)
         (req : Request (option SlackUser)) (user : SlackUser),
    cache_fresh (now w) (userCache w !! userId) = false ->
    directory_lookup env userId = Some req ->
    settled req = Ok (Some user) ->
    store_rejects env (UserUpsert userId) = false ->
    exists w',
      getUserInfo env userId w
      = Done (Ok (Some (cache_item userId user (now w)))) w'
      /\ userCache w' !! userId = Some (cache_item userId user (now w))
      /\ (exists u, u ∈ users (store w')
                    /\ u_slack_id u = userId /\ u_name u = su_name user
                    /\ u_is_bot u = default false (su_is_bot user))
      /\ ((now w' - now w < USER_CACHE_TTL)%Z ->
          getUserInfo env userId w'
          = Done (Ok (Some (cache_item userId user (now w)))) w').
Proof.
  intros env userId w req user Hfresh Hlookup Hsettled Hacc.
  unfold getUserInfo at 1. unfold bind at 1. cbn [get]. rewrite Hfresh.
  unfold try_catch, bind at 1.
  destruct (slackRequest_run env (users_info env userId) w)
    as (req' & w1 & Hreq & Hrun & Hs & Hc).
  unfold directory_lookup in Hlookup. rewrite Hlookup in Hreq.
  injection Hreq as <-. rewrite Hrun, Hsettled.
  unfold bind at 1. unfold user_upsert, store_call. rewrite Hacc.
  set (u := Build_User _ _ _ _ _ _ _).
  assert (exists rows,
            (if existsb (fun x => String.eqb (u_slack_id x) userId) (users (store w1))
             then (Ok tt,
                   with_users (store w1)
                     (map (fun x => if String.eqb (u_slack_id x) userId then u else x)
                          (users (store w1))))
             else (Ok tt, with_users (store w1) (users (store w1) ++ [u])))
            = (Ok tt, with_users (store w1) rows)
            /\ u ∈ rows) as (rows & -> & Hin).
  { destruct (existsb _ (users (store w1))) eqn:Hex.
    - eexists. split; [reflexivity|].
      apply existsb_exists in Hex as (x & Hx & Hkey).
      apply list_elem_of_In in Hx.
      apply (list_elem_of_fmap_2'
               (fun x => if String.eqb (u_slack_id x) userId then u else x) _ x);
        [assumption|now rewrite Hkey].
    - eexists. split; [reflexivity|]. apply elem_of_app. right. left. }
  eexists. split; [cbn; now rewrite lookup_insert_eq|].
  frame. split; [apply lookup_insert_eq|]. split.
  { exists u. split; [exact Hin|]. now repeat split. }
  intros Hclock. unfold getUserInfo, bind at 1. cbn [get]. frame.
  rewrite lookup_insert_eq. cbn [cache_fresh cache_item uc_timestamp].
  now assert ((now w1 - now w <? USER_CACHE_TTL)%Z = true) as ->
    by now apply Z.ltb_lt.
Qed.

(** A directory that knows [U7]. *)
Definition staffed_workspace : Env :=
  {| MAX_RETRIES := 3; RATE_LIMIT_DELAY := 1000;
     conversations_list := fun _ _ =>
       Ok {| channels := [general]; list_next_cursor := None |};
     conversations_info := fun _ _ => Ok (Some general);
     conversations_history := fun _ _ _ _ _ =>
       Ok {| messages := []; has_more := false; next_cursor := None |};
     conversations_replies := fun _ _ _ _ _ =>
       Ok {| messages := []; has_more := false; next_cursor := None |};
     users_info := fun userId attempt =>
       if String.eqb userId "U7" then
         if (attempt <? 1)%nat then Throw (RateLimitedError (Some 2%Z))
         else Ok (Some {| su_name := "ada"; su_real_name := Some "Ada";
                          su_email := None; su_image_72 := Some "";
                          su_is_bot := None |})
       else Throw (SlackError "user_not_found");
     chat_getPermalink := fun _ _ _ => Ok "https://example.com/p";
     store_rejects := fun _ => false |}.

Lemma getUserInfo_caches_witness :
  exists item w',
    getUserInfo staffed_workspace "U7" empty_world = Done (Ok (Some item)) w'
    /\ uc_name item = "ada" /\ uc_avatar item = None /\ uc_timestamp item = 0%Z
    /\ now w' = 2000%Z
    /\ getUserInfo staffed_workspace "U7" w' = Done (Ok (Some item)) w'.
Proof.
  edestruct (getUserInfo_caches staffed_workspace "U7" empty_world)
    as (w' & Hrun & _ & _ & Hagain).
  - reflexivity.
  - reflexivity.
  - reflexivity.
  - reflexivity.
  - eexists _, w'. split; [exact Hrun|].
    assert (now w' = 2000%Z) as Hnow
      by (vm_compute in Hrun; injection Hrun as <-; reflexivity).
    do 3 (split; [reflexivity|]). split; [exact Hnow|].
    apply Hagain. rewrite Hnow. reflexivity.
Defined.

(** X13. [getUserInfo] never raises and keeps the Slack ids of the user
    table unique: whatever the directory and the store answer, it settles
    with a record or [null], and a user table without duplicate ids has
    none afterwards. *)
Theorem getUserInfo_keeps_users_unique :
  forall (env : Env) (userId : string) (w : World),
    NoDup (map u_slack_id (users (store w))) ->
    exists found w',
      getUserInfo env userId w = Done (Ok found) w'
      /\ NoDup (map u_slack_id (users (store w'))).
Proof.
  intros env userId w Hnd.
  destruct (getUserInfo_run env userId w) as (found & w' & Hrun & _).
  exists found, w'. split; [assumption|].
  revert Hrun. unfold getUserInfo. unfold bind at 1. cbn [get].
  destruct (cache_fresh (now w) (userCache w !! userId)).
  { now intros [= _ <-]. }
  unfold try_catch, bind at 1.
  destruct (slackRequest_run env (users_info env userId) w)
    as (req & w1 & _ & Hrun1 & Hs & _).
  rewrite Hrun1. destruct (settled req) as [[user|]|e].
  - unfold bind at 1.
    pose proof (user_upsert_keeps_unique env userId user w1) as Hup.
    rewrite Hs in Hup. specialize (Hup Hnd).
    destruct (user_upsert env userId user w1) as [[[]|e] w2|]; [| |discriminate].
    + intros [= _ <-]. now frame.
    + intros [= _ <-]. now frame.
  - intros [= _ <-]. frame. now rewrite Hs.
  - intros [= _ <-]. frame. now rewrite Hs.
Qed.

Lemma getUserInfo_keeps_users_unique_witness :
  exists found w',
    getUserInfo staffed_workspace "U7" empty_world = Done (Ok found) w'
    /\ NoDup (map u_slack_id (users (store w'))).
Proof.
  apply (getUserInfo_keeps_users_unique staffed_workspace "U7" empty_world).
  apply NoDup_nil_2.
Defined.

(** ** Observing a message again *)

(** The row that the upsert of [message_upsert] writes and the rows of the
    table afterwards. *)
Definition upsert_row (rows : list Message) (channel_id : nat) (ts : Ts)
    (user_id text : string) (thread_ts : option Ts) (permalink : string)
    (reactions : option (gmap string (list string))) (mentions : list string)
    (now : Z) : Message * list Message :=
  match List.find (same_key channel_id ts) rows with
  | Some m =>
      let m' := {| m_channel_id := m_channel_id m; m_ts := m_ts m;
                   m_user_id := m_user_id m; m_text := text;
                   m_thread_ts :=
                     match thread_ts with Some t => Some t | None => m_thread_ts m end;
                   m_permalink := permalink;
                   m_reactions :=
                     match reactions with Some r => Some r | None => m_reactions m end;
                   m_mentions := mentions;
                   m_createdAt := m_createdAt m |} in
      (m', map (fun x => if same_key channel_id ts x then m' else x) rows)
  | None =>
      let m' := {| m_channel_id := channel_id; m_ts := ts;
                   m_user_id := user_id; m_text := text;
                   m_thread_ts := thread_ts; m_permalink := permalink;
                   m_reactions := reactions; m_mentions := mentions;
                   m_createdAt := now |} in
      (m', rows ++ [m'])
  end.

Section ReobserveFacts.

Variable env : Env.

Lemma message_upsert_exact channel_id ts user_id text thread_ts permalink
    reactions mentions w :
  store_rejects env (MessageUpsert channel_id ts) = false ->
  exists w',
    message_upsert env channel_id ts user_id text thread_ts permalink reactions
      mentions w
    = Done (Ok (fst (upsert_row (stored_messages (store w)) channel_id ts user_id
                       text thread_ts permalink reactions mentions (now w)))) w'
    /\ stored_messages (store w')
       = snd (upsert_row (stored_messages (store w)) channel_id ts user_id
                text thread_ts permalink reactions mentions (now w)).
Proof.
  intros Hacc. unfold message_upsert, store_call, upsert_row. rewrite Hacc.
  destruct (List.find _ (stored_messages (store w)));
    (eexists; split; [reflexivity|reflexivity]).
Qed.

Lemma processMessage_stores message channelId conversationDbId w :
  skipped message = false ->
  store_rejects env (MessageUpsert conversationDbId (msg_ts message)) = false ->
  exists permalink time w',
    processMessage env message channelId conversationDbId w
    = Done (Ok (Some (fst (upsert_row (stored_messages (store w)) conversationDbId
                             (msg_ts message) (default "" (msg_user message))
                             (msg_text message) (msg_thread_ts message) permalink
                             (format_reactions <$> msg_reactions message)
                             (extractMentions (msg_text message)) time)))) w'
    /\ stored_messages (store w')
       = snd (upsert_row (stored_messages (store w)) conversationDbId
                (msg_ts message) (default "" (msg_user message))
                (msg_text message) (msg_thread_ts message) permalink
                (format_reactions <$> msg_reactions message)
                (extractMentions (msg_text message)) time).
Proof.
  intros Hskip Hacc. unfold processMessage, try_catch. fold (skipped message).
  rewrite Hskip. unfold bind at 1.
  destruct (getPermalink_run env channelId (msg_ts message) w)
    as (link & w1 & Hrun1 & Hs1 & _).
  rewrite Hrun1. unfold bind at 1.
  destruct (getUserInfo_all_run env (extractMentions (msg_text message)) w1)
    as (found & w2 & Hrun2 & _ & Hmsg2 & _).
  rewrite Hrun2. unfold bind at 1.
  destruct (message_upsert_exact conversationDbId (msg_ts message)
              (default "" (msg_user message)) (msg_text message)
              (msg_thread_ts message) link
              (format_reactions <$> msg_reactions message)
              (extractMentions (msg_text message)) w2 Hacc) as (w3 & Hrun3 & Hrows).
  rewrite Hrun3. exists link, (now w2), w3.
  rewrite Hmsg2, Hs1 in Hrun3, Hrows. rewrite Hmsg2, Hs1.
  split; [reflexivity|assumption].
Qed.

End ReobserveFacts.

Lemma find_absent_app (P : Message -> bool) (rows : list Message) (m : Message) :
  (forall x, x ∈ rows -> P x = false) -> P m = true ->
  List.find P rows = None
  /\ List.find P (rows ++ [m]) = Some m
  /\ map (fun x => if P x then m else x) rows = rows.
Proof.
  intros Hrows Hm. induction rows as [|a rows IH]; simpl.
  - now rewrite Hm.
  - rewrite (Hrows a) by left.
    destruct IH as (H1 & H2 & H3); [intros x Hx; apply Hrows; now right|].
    now rewrite H1, H2, H3.
Qed.


(** The second observation: the text was edited and the reaction is gone. *)
Definition reacted (text : string) (reactions : option (list Reaction))
    : SlackMessage :=
  {| msg_type := "message"; msg_user := Some "U1"; msg_text := text;
     msg_ts := 1000000%Z; msg_thread_ts := None; msg_reply_count := None;
     msg_reactions := reactions |}.


(** ** The event path *)

(** X15. The event path never raises and never lowers a watermark: over
    a store whose conversation ids and Slack ids are unique, every
    conversation keeps its row, with a watermark at or after the one it
    had, whatever the event, the API and the store do. *)
Theorem queueMessageForIngestion_never_lowers :
  forall (env : Env) (event : SlackMessage) (channel : string) (w : World),
    NoDup (map conv_id (conversations (store w))) ->
    NoDup (map conv_slack_id (conversations (store w))) ->
    exists w',
      queueMessageForIngestion env event channel w = Done (Ok tt) w'
      /\ forall c, c ∈ conversations (store w) ->
           exists c', c' ∈ conversations (store w')
                      /\ conv_id c' = conv_id c
                      /\ watermark_le (last_ts_processed c) (last_ts_processed c').
Proof.
  intros env event channel w Hids Hslack.
  exact (queueMessageForIngestion_keeps_watermarks env event channel w Hids Hslack).
Qed.

Lemma queueMessageForIngestion_never_lowers_witness :
  exists w',
    queueMessageForIngestion (workspace [] [] (fun _ => false))
      (plain "U1" "late" 50000000%Z) "C1" (seeded_world (Some 100000000%Z))
    = Done (Ok tt) w'
    /\ map m_ts (stored_messages (store w')) = [50000000%Z]
    /\ watermarks w' = [("C1", Some 100000000%Z)].
Proof.
  destruct (queueMessageForIngestion_never_lowers
              (workspace [] [] (fun _ => false))
              (plain "U1" "late" 50000000%Z) "C1" (seeded_world (Some 100000000%Z)))
    as (w' & Hrun & _).
  - simpl. apply NoDup_singleton.
  - simpl. apply NoDup_singleton.
  - exists w'. split; [exact Hrun|].
    vm_compute in Hrun. injection Hrun as <-. split; reflexivity.
Defined.

(** ** The scheduled run *)

Lemma run_bind {A B} (m : M A) (k : A -> M B) (w : World) :
  bind m k w
  = match m w with
    | Done (Ok a) w' => k a w'
    | Done (Throw e) w' => Done (Throw e) w'
    | Pending => Pending
    end.
Proof. reflexivity. Qed.

Section RunFacts.

Variable env : Env.
Variable fuel : nat.

(** The loop over the conversations settles without an exception, or does
    not settle. *)
Lemma conversations_loop_settles since (l : list Channel) : forall w,
  match
    for_each l (fun conversation =>
      completed <-
        try_catch
          (ingestConversation env fuel since conversation)
          (fun error => log Error "Error processing conversation" ;;; ret true) ;;
      if completed then sleep 1000 else ret tt) w
  with
  | Done r _ => r = Ok tt
  | Pending => True
  end.
Proof.
  induction l as [|c l IH]; intros w; [reflexivity|].
  cbn [for_each]. unfold bind at 1, bind at 1, try_catch at 1.
  destruct (ingestConversation env fuel since c w) as [[[]|e] w1|];
    try exact I; apply IH.
Qed.

End RunFacts.



(** ** The watermark when the API honours the lower bound *)



(** ** Task candidates *)

Lemma drop_space_head l c r :
  Js.drop_space l = c :: r -> Js.is_space c = false.
Proof.
  induction l as [|a l IH]; simpl; [discriminate|].
  destruct (Js.is_space a) eqn:Ha; [assumption|]. now intros [= <- _].
Qed.

Lemma drop_space_keeps_last l h :
  Js.is_space h = false -> exists b, Js.drop_space (l ++ [h]) = b ++ [h].
Proof.
  intros Hh. induction l as [|a l IH]; simpl.
  - rewrite Hh. now exists [].
  - destruct (Js.is_space a); [assumption|]. now exists (a :: l).
Qed.

(** No white space at either end. *)
Definition trimmed (s : string) : Prop :=
  (forall c r, Js.chars s = c :: r -> Js.is_space c = false)
  /\ (forall c r, Js.chars s = r ++ [c] -> Js.is_space c = false).

Lemma trim_trimmed s : trimmed (Js.trim s).
Proof.
  unfold trimmed, Js.trim. rewrite Js.chars_str.
  destruct (Js.drop_space (Js.chars s)) as [|h t] eqn:Hdrop.
  { simpl. split; intros c r H; [discriminate|now destruct r]. }
  apply drop_space_head in Hdrop as Hh.
  cbn [rev]. destruct (drop_space_keeps_last (rev t) h Hh) as [b Hb].
  split.
  - rewrite Hb, rev_app_distr. cbn [rev app]. now intros c r [= <- _].
  - intros c r Hr. apply (f_equal (@rev ascii)) in Hr.
    rewrite rev_involutive, rev_app_distr in Hr. cbn [rev app] in Hr.
    now apply drop_space_head in Hr.
Qed.

Lemma omap_length_le {A B} (f : A -> option B) (l : list A) :
  (length (omap f l) <= length l)%nat.
Proof.
  induction l as [|a l IH]; [reflexivity|].
  cbn [omap list_omap]. destruct (f a); cbn [length]; lia.
Qed.

Section TaskCandidates.

Variable chrono_parse : string -> list string.

Lemma task_of_match_shape message caps task :
  task_of_match chrono_parse message caps = Some task ->
  (5 <= String.length (title task))%nat
  /\ trimmed (title task)
  /\ confidence task = 0.6%Q
  /\ source_ts task = sm_ts message
  /\ source_permalink task = sm_permalink message
  /\ due_date task = head (chrono_parse (sm_text message)).
Proof.
  unfold task_of_match.
  destruct (String.length _ <? 5)%nat eqn:Hlen; [discriminate|].
  intros [= <-]. cbn [title confidence source_ts source_permalink due_date].
  apply Nat.ltb_ge in Hlen.
  split; [exact Hlen|]. split; [apply trim_trimmed|].
  do 3 (split; [reflexivity|]).
  now destruct (chrono_parse (sm_text message)).
Qed.

(** X18. [extractTasksHeuristic] yields at most one task per pattern, seven
    at most; every task has a title of five characters or more without
    white space at its ends, the confidence 0.6, the time stamp and the
    permalink of the message it was found in, and as due date the first
    date that the date parser finds in the whole text of the message (none
    if it finds none). *)
Theorem extractTasksHeuristic_candidates (message : SummaryMessage) :
  (length (extractTasksHeuristic chrono_parse message) <= 7)%nat
  /\ Forall (fun task =>
       (5 <= String.length (title task))%nat
       /\ trimmed (title task)
       /\ confidence task = 0.6%Q
       /\ source_ts task = sm_ts message
       /\ source_permalink task = sm_permalink message
       /\ due_date task = head (chrono_parse (sm_text message)))
     (extractTasksHeuristic chrono_parse message).
Proof.
  unfold extractTasksHeuristic. split.
  - etransitivity; [apply omap_length_le|]. vm_compute. lia.
  - apply list.Forall_forall. intros task Hin.
    apply list_elem_of_omap in Hin as (pattern & _ & Htask).
    unfold task_of_pattern in Htask.
    destruct (js_match _ _) as [caps|]; [|discriminate].
    destruct (1 <? S (length caps))%nat; [|discriminate].
    now apply task_of_match_shape in Htask.
Qed.

End TaskCandidates.

(** ** The heuristic summary *)

Lemma in_firstn {A} (n : nat) (l : list A) (x : A) :
  In x (firstn n l) -> In x l.
Proof.
  intros H. rewrite <- (firstn_skipn n l). apply in_or_app. now left.
Qed.

Section HeuristicFacts.

Variable chrono_parse : string -> list string.
Variable toLocaleString : Ts -> string.

(** The three reasons for which a message of the window is a key message:
    it carries a reaction, another message of the window is a reply to it,
    or its text holds a question mark. *)
Definition qualifies (msgs : list SummaryMessage) (msg : SummaryMessage) : Prop :=
  (exists r, sm_reactions msg = Some r /\ (0 < size r)%nat)
  \/ (exists reply, In reply msgs /\ sm_thread_ts reply = Some (sm_ts msg)
                    /\ sm_ts reply <> sm_ts msg)
  \/ Js.includes_char "?"%char (sm_text msg) = true.

Lemma is_thread_parent_spec msgs msg :
  is_thread_parent msgs msg = true <->
  exists reply, In reply msgs /\ sm_thread_ts reply = Some (sm_ts msg)
                /\ sm_ts reply <> sm_ts msg.
Proof.
  unfold is_thread_parent. rewrite existsb_exists. split.
  - intros (reply & Hin & H). exists reply. split; [exact Hin|].
    destruct (sm_thread_ts reply) as [t|]; [|discriminate].
    apply andb_true_iff in H as [Ht Hne].
    apply Z.eqb_eq in Ht. apply negb_true_iff, Z.eqb_neq in Hne.
    now subst t.
  - intros (reply & Hin & Ht & Hne). exists reply. split; [exact Hin|].
    rewrite Ht, Z.eqb_refl. apply Z.eqb_neq in Hne. now rewrite Hne.
Qed.

Lemma is_highlight_spec msgs msg :
  is_highlight msgs msg = true <-> qualifies msgs msg.
Proof.
  unfold is_highlight, qualifies.
  rewrite !orb_true_iff, is_thread_parent_spec. split.
  - intros [[H|H]|H]; [left|right; left; exact H|right; right; exact H].
    destruct (sm_reactions msg) as [r|]; [|discriminate].
    exists r. split; [reflexivity|]. now apply Nat.ltb_lt in H.
  - intros [(r & -> & H)|[H|H]]; [left; left|left; right; exact H|right; exact H].
    now apply Nat.ltb_lt.
Qed.

(** X19. The key messages of the heuristic summary are five at most; each
    is a message of the window that carries a reaction, has a reply in the
    window or holds a question mark; and when five or fewer messages
    qualify, every one of them is a key message. *)
Theorem generateHeuristicSummary_highlights (msgs : list SummaryMessage)
    (channelName : string) :
  (length (sd_highlights
     (generateHeuristicSummary chrono_parse toLocaleString msgs channelName)) <= 5)%nat
  /\ (forall h,
        In h (sd_highlights
          (generateHeuristicSummary chrono_parse toLocaleString msgs channelName)) ->
        exists msg, In msg msgs /\ h = highlight_of msg /\ qualifies msgs msg)
  /\ ((length (List.filter (is_highlight msgs) msgs) <= 5)%nat ->
      forall msg, In msg msgs -> qualifies msgs msg ->
        In (highlight_of msg) (sd_highlights
          (generateHeuristicSummary chrono_parse toLocaleString msgs channelName))).
Proof.
  cbn [generateHeuristicSummary sd_highlights].
  split; [apply firstn_le_length|]. split.
  - intros h Hin. apply in_firstn in Hin.
    apply in_map_iff in Hin as (msg & <- & Hin).
    apply filter_In in Hin as [Hin Hq].
    exists msg. split; [exact Hin|]. split; [reflexivity|].
    now apply is_highlight_spec.
  - intros Hfew msg Hin Hq.
    rewrite firstn_all2 by (now rewrite length_map).
    apply in_map, filter_In. split; [exact Hin|].
    now apply is_highlight_spec.
Qed.

(** The messages of the window that mention [id], in the order of the
    window. *)
Definition mentioning (id : string) (msgs : list SummaryMessage)
    : list SummaryMessage :=
  List.filter (fun m => bool_decide (id ∈ extractMentions (sm_text m))) msgs.

(** The context kept for a mentioning message. *)
Definition mention_context (m : SummaryMessage) : string :=
  (Js.slice0 30 (sm_text m) ++ "...")%string.

(** The entry of a member mentioned by the messages [l]. *)
Definition stat_of (l : list SummaryMessage) : MentionStat :=
  {| mention_count := length l;
     mention_contexts := map mention_context (firstn 3 l) |}.

Definition entry_of (l : list SummaryMessage) : option MentionStat :=
  match l with [] => None | _ :: _ => Some (stat_of l) end.

Definition bump (text : string) (o : option MentionStat) : MentionStat :=
  let entry := default {| mention_count := 0; mention_contexts := [] |} o in
  {| mention_count := mention_count entry + 1;
     mention_contexts :=
       if (length (mention_contexts entry) <? 3)%nat
       then mention_contexts entry ++ [(Js.slice0 30 text ++ "...")%string]
       else mention_contexts entry |}.

Lemma mention_step_bump text acc u :
  mention_step text acc u = <[u := bump text (acc !! u)]> acc.
Proof. reflexivity. Qed.

Lemma mention_steps_lookup text ids acc id :
  NoDup ids ->
  foldl (mention_step text) acc ids !! id =
  if bool_decide (id ∈ ids) then Some (bump text (acc !! id)) else acc !! id.
Proof.
  intros Hnd. revert acc. induction Hnd as [|u r Hu Hnd IH]; intros acc.
  - reflexivity.
  - cbn [foldl]. rewrite IH, mention_step_bump.
    destruct (decide (id = u)) as [->|Hne].
    + rewrite (bool_decide_eq_false_2 (u ∈ r)) by exact Hu.
      rewrite bool_decide_eq_true_2 by left.
      now rewrite lookup_insert_eq.
    + rewrite lookup_insert_ne by congruence.
      destruct (decide (id ∈ r)) as [Hin|Hnin].
      * rewrite !bool_decide_eq_true_2; [reflexivity|now right|exact Hin].
      * rewrite !bool_decide_eq_false_2; [reflexivity| |exact Hnin].
        intros [?|?]%elem_of_cons; contradiction.
Qed.

Lemma bump_entry pre m :
  bump (sm_text m) (entry_of pre) = stat_of (pre ++ [m]).
Proof.
  destruct pre as [|p pre]; [reflexivity|].
  unfold entry_of, bump, stat_of. cbn [from_option id mention_count mention_contexts].
  set (l := p :: pre). f_equal.
  - rewrite length_app. reflexivity.
  - rewrite length_map. destruct (le_lt_dec 3 (length l)) as [Hlong|Hshort].
    + rewrite firstn_app. replace (3 - length l)%nat with 0%nat by lia.
      cbn [firstn]. rewrite app_nil_r.
      rewrite firstn_length_le by exact Hlong. reflexivity.
    + rewrite (firstn_all2 l) by lia.
      rewrite (firstn_all2 (l ++ [m])) by (rewrite length_app; cbn [length]; lia).
      apply Nat.ltb_lt in Hshort. rewrite Hshort, map_app. reflexivity.
Qed.

Lemma entry_of_snoc pre m : entry_of (pre ++ [m]) = Some (stat_of (pre ++ [m])).
Proof. now destruct pre. Qed.

Lemma mentions_fold_lookup msgs acc pre id :
  acc !! id = entry_of pre ->
  foldl (fun acc msg =>
           foldl (mention_step (sm_text msg)) acc (extractMentions (sm_text msg)))
        acc msgs !! id
  = entry_of (pre ++ mentioning id msgs).
Proof.
  revert acc pre. induction msgs as [|m msgs IH]; intros acc pre Hacc.
  - cbn. now rewrite app_nil_r.
  - cbn [foldl mentioning List.filter]. fold (mentioning id msgs).
    destruct (bool_decide (id ∈ extractMentions (sm_text m))) eqn:Hin.
    + rewrite (IH _ (pre ++ [m])); [now rewrite <- app_assoc|].
      rewrite mention_steps_lookup by apply extractMentions_NoDup.
      now rewrite Hin, Hacc, bump_entry, entry_of_snoc.
    + apply IH.
      rewrite mention_steps_lookup by apply extractMentions_NoDup.
      now rewrite Hin.
Qed.

(** X20. In the heuristic summary a member has an entry exactly when some
    message of the window mentions them; the count is the number of
    messages that mention them (a member named several times in one message
    counts once), and the contexts are the first thirty characters, followed
    by an ellipsis, of the first three of these messages. *)
Theorem generateHeuristicSummary_mentions (msgs : list SummaryMessage)
    (channelName id : string) :
  sd_mentions (generateHeuristicSummary chrono_parse toLocaleString msgs channelName)
    !! id
  = match mentioning id msgs with
    | [] => None
    | _ :: _ =>
        Some {| mention_count := length (mentioning id msgs);
                mention_contexts :=
                  map (fun m => (Js.slice0 30 (sm_text m) ++ "...")%string)
                      (firstn 3 (mentioning id msgs)) |}
    end.
Proof.
  cbn [generateHeuristicSummary sd_mentions].
  rewrite (mentions_fold_lookup msgs ∅ [] id) by apply lookup_empty.
  cbn [app]. unfold entry_of, stat_of. now destruct (mentioning id msgs).
Qed.

End HeuristicFacts.

(** ** [generateSummaryForTimeWindow]: the other paths *)

Section WindowFacts.

Variable env : Env.
Variable chrono_parse : string -> list string.
Variable toLocaleString : Ts -> string.
Variable openai : option (list SummaryMessage -> string -> Result AiReply).

Lemma set_store_same w : set_store (store w) w = w.
Proof. now destruct w. Qed.

Lemma summary_data_settles msgs channelName w :
  exists d w',
    try_catch
      (match openai with
       | Some _ => generateAISummary openai msgs channelName
       | None =>
           ret (generateHeuristicSummary chrono_parse toLocaleString msgs channelName)
       end)
      (fun error =>
         log Error "Error generating summary, falling back to heuristic" ;;;
         ret (generateHeuristicSummary chrono_parse toLocaleString msgs channelName))
      w
    = Done (Ok d) w'
    /\ store w' = store w.
Proof.
  unfold try_catch, generateAISummary. destruct openai as [create|].
  - unfold try_catch. destruct (create msgs channelName) as [reply|e].
    + eexists _, _. split; reflexivity.
    + eexists _, _. split; reflexivity.
  - eexists _, _. split; reflexivity.
Qed.

Lemma fresh_summary_id (rows : list Summary) :
  Forall (fun r => (s_id r < S (foldr Nat.max 0%nat (map s_id rows)))%nat) rows.
Proof.
  induction rows as [|r rows IH]; constructor; cbn [map foldr]; [lia|].
  eapply list.Forall_impl; [exact IH|]. cbn beta. intros; lia.
Qed.

(** X21. [generateSummaryForTimeWindow] always settles, and it changes the
    store in one way only: when it returns a summary row, that row has been
    appended to the stored summaries, it belongs to the conversation and
    the window asked for, and its id is above every id stored before; in
    every other case (it returns [null] or throws) the stored summaries
    are those of before. Conversations, messages and members are never
    touched. *)
Theorem generateSummary_stores_what_it_returns (conversationId : nat)
    (startTime endTime : Z) (w : World) :
  exists r w',
    generateSummaryForTimeWindow env chrono_parse toLocaleString openai
      conversationId startTime endTime w
    = Done r w'
    /\ conversations (store w') = conversations (store w)
    /\ stored_messages (store w') = stored_messages (store w)
    /\ users (store w') = users (store w)
    /\ match r with
       | Ok (Some row) =>
           summaries (store w') = summaries (store w) ++ [row]
           /\ s_channel_id row = conversationId
           /\ s_period_start row = startTime
           /\ s_period_end row = endTime
           /\ Forall (fun old => (s_id old < s_id row)%nat) (summaries (store w))
       | _ => summaries (store w') = summaries (store w)
       end.
Proof.
  unfold generateSummaryForTimeWindow.
  unfold try_catch at 1. unfold bind at 1.
  unfold conversation_findUnique, store_call at 1.
  destruct (store_rejects env (ConversationFindUnique conversationId)).
  { eexists _, _. split; [reflexivity|]. now frame. }
  rewrite set_store_same.
  destruct (List.find _ (conversations (store w))) as [conversation|].
  2:{ eexists _, _. split; [reflexivity|]. now frame. }
  unfold bind at 1. unfold message_findMany, store_call at 1.
  destruct (store_rejects env (MessageFindMany conversationId)).
  { eexists _, _. split; [reflexivity|]. now frame. }
  rewrite set_store_same.
  destruct (messages_in_window (store w) conversationId startTime endTime)
    as [|m msgs].
  { eexists _, _. split; [reflexivity|]. now frame. }
  cbn [length Nat.eqb]. unfold bind at 1. cbn [log modify]. unfold bind at 1.
  match goal with
  | |- context [try_catch ?body ?handler ?world] =>
      destruct (summary_data_settles (map summary_message (m :: msgs))
                  (conv_name conversation) world) as (d & w1 & Hrun & Hs)
  end.
  rewrite Hrun. unfold bind at 1. unfold summary_create, store_call.
  destruct (store_rejects env (SummaryCreate conversationId)).
  { eexists _, _. split; [reflexivity|]. frame. now rewrite Hs. }
  eexists _, _. split; [reflexivity|]. frame. rewrite Hs. frame.
  do 3 (split; [reflexivity|]). split; [reflexivity|].
  do 3 (split; [reflexivity|]). apply fresh_summary_id.
Qed.

(** X22. A window without stored messages: when the conversation exists and
    the store answers both queries, [generateSummaryForTimeWindow] returns
    [null] and leaves the store as it is, whether or not the generative
    service is configured and whatever it would answer. *)
Theorem generateSummary_empty_window (conversationId : nat)
    (startTime endTime : Z) (w : World) (conversation : Conversation) :
  store_rejects env (ConversationFindUnique conversationId) = false ->
  store_rejects env (MessageFindMany conversationId) = false ->
  List.find (fun c => Nat.eqb (conv_id c) conversationId) (conversations (store w))
  = Some conversation ->
  messages_in_window (store w) conversationId startTime endTime = [] ->
  exists w',
    generateSummaryForTimeWindow env chrono_parse toLocaleString openai
      conversationId startTime endTime w
    = Done (Ok None) w'
    /\ store w' = store w.
Proof.
  intros Hfind Hmany Hconv Hwindow.
  unfold generateSummaryForTimeWindow.
  unfold try_catch at 1. unfold bind at 1.
  unfold conversation_findUnique, store_call at 1. rewrite Hfind, Hconv.
  unfold bind at 1. unfold message_findMany, store_call at 1. rewrite Hmany.
  rewrite !set_store_same, Hwindow.
  eexists. split; [reflexivity|]. now frame.
Qed.

(** X23. A conversation id that the store does not hold: when the store
    answers the query, [generateSummaryForTimeWindow] throws the error
    [Conversation <id> not found] and leaves the store as it is. *)
Theorem generateSummary_unknown_conversation (conversationId : nat)
    (startTime endTime : Z) (w : World) :
  store_rejects env (ConversationFindUnique conversationId) = false ->
  Forall (fun c => conv_id c <> conversationId) (conversations (store w)) ->
  exists w',
    generateSummaryForTimeWindow env chrono_parse toLocaleString openai
      conversationId startTime endTime w
    = Done (Throw (JsError
              ("Conversation " ++ pretty conversationId ++ " not found"))) w'
    /\ store w' = store w.
Proof.
  intros Hfind Hnone.
  unfold generateSummaryForTimeWindow.
  unfold try_catch at 1. unfold bind at 1.
  unfold conversation_findUnique, store_call at 1. rewrite Hfind.
  rewrite set_store_same.
  assert (List.find (fun c => Nat.eqb (conv_id c) conversationId)
            (conversations (store w)) = None) as ->.
  { induction Hnone as [|c rows Hc _ IH]; [reflexivity|].
    cbn [List.find]. apply Nat.eqb_neq in Hc. now rewrite Hc. }
  eexists. split; [reflexivity|]. now frame.
Qed.

End WindowFacts.

(** The summary that the generative service answered with, with the
    defaults of [generateAISummary] for the fields it left out. *)
Definition normalised (reply : AiReply) : SummaryData :=
  {| sd_summary := match ai_summary reply with
                   | Some s => if String.eqb s "" then "No summary available." else s
                   | None => "No summary available."
                   end;
     sd_highlights := match ai_highlights reply with Some l => l | None => [] end;
     sd_tasks := match ai_tasks reply with Some l => l | None => [] end;
     sd_mentions := match ai_mentions reply with Some m => m | None => ∅ end |}.

(** X24. When the generative service is configured and answers, the stored
    row carries its answer and not the heuristic summary: the recap,
    highlights, tasks and mentions of the answer, an empty or missing
    recap replaced by [No summary available.] and a missing list or map by
    an empty one. *)
Theorem generateSummary_uses_model (env : Env)
    (chrono_parse : string -> list string) (toLocaleString : Ts -> string)
    (create : list SummaryMessage -> string -> Result AiReply)
    (conversationId : nat) (startTime endTime : Z) (w : World)
    (conversation : Conversation) (reply : AiReply) :
  store_rejects env (ConversationFindUnique conversationId) = false ->
  store_rejects env (MessageFindMany conversationId) = false ->
  store_rejects env (SummaryCreate conversationId) = false ->
  List.find (fun c => Nat.eqb (conv_id c) conversationId) (conversations (store w))
  = Some conversation ->
  messages_in_window (store w) conversationId startTime endTime <> [] ->
  create
    (map summary_message
       (messages_in_window (store w) conversationId startTime endTime))
    (conv_name conversation)
  = Ok reply ->
  exists row w',
    generateSummaryForTimeWindow env chrono_parse toLocaleString (Some create)
      conversationId startTime endTime w
    = Done (Ok (Some row)) w'
    /\ summaries (store w') = summaries (store w) ++ [row]
    /\ s_summary row = sd_summary (normalised reply)
    /\ s_highlights row = sd_highlights (normalised reply)
    /\ s_tasks row = sd_tasks (normalised reply)
    /\ s_mentions row = sd_mentions (normalised reply).
Proof.
  intros Hfind Hmany Hcreate Hconv Hwindow Hreply.
  unfold generateSummaryForTimeWindow.
  unfold try_catch at 1. unfold bind at 1.
  unfold conversation_findUnique, store_call at 1. rewrite Hfind, Hconv.
  unfold bind at 1. unfold message_findMany, store_call at 1. rewrite Hmany.
  rewrite !set_store_same.
  destruct (messages_in_window (store w) conversationId startTime endTime)
    as [|m msgs] eqn:Hmsgs; [congruence|].
  cbn [length Nat.eqb]. unfold bind at 1. cbn [log modify]. unfold bind at 1.
  unfold try_catch at 1. unfold generateAISummary, try_catch at 1.
  rewrite Hreply. cbn [ret].
  unfold bind at 1. unfold summary_create, store_call.
  rewrite Hcreate. eexists _, _. split; [reflexivity|]. frame.
  split; [reflexivity|]. unfold normalised, truthy. cbn [sd_summary sd_highlights sd_tasks sd_mentions].
  split; [|split; [|split]].
  - destruct (ai_summary reply) as [s|]; [|reflexivity].
    cbn [negb default from_option id]. now destruct (String.eqb s "").
  - now destruct (ai_highlights reply).
  - now destruct (ai_tasks reply).
  - now destruct (ai_mentions reply).
Qed.

Lemma generateSummary_empty_window_witness :
  exists w',
    generateSummaryForTimeWindow (workspace [] [] (fun _ => false))
      (fun _ => []) (fun _ => "1/1/1970") failing_service 1 2000 3000
      world_with_question
    = Done (Ok None) w'
    /\ store w' = store world_with_question.
Proof.
  eapply (generateSummary_empty_window (workspace [] [] (fun _ => false))
            (fun _ => []) (fun _ => "1/1/1970") failing_service 1 2000 3000
            world_with_question).
  - reflexivity.
  - reflexivity.
  - reflexivity.
  - vm_compute. reflexivity.
Defined.

Lemma generateSummary_unknown_conversation_witness :
  exists w',
    generateSummaryForTimeWindow (workspace [] [] (fun _ => false))
      (fun _ => []) (fun _ => "1/1/1970") failing_service 7 0 1000
      world_with_question
    = Done (Throw (JsError "Conversation 7 not found")) w'
    /\ store w' = store world_with_question.
Proof.
  apply (generateSummary_unknown_conversation (workspace [] [] (fun _ => false))
           (fun _ => []) (fun _ => "1/1/1970") failing_service 7 0 1000
           world_with_question).
  - reflexivity.
  - repeat constructor. cbn. lia.
Defined.

(** A service that answers with nothing but an empty recap. *)
Definition terse_service (msgs : list SummaryMessage) (channelName : string)
    : Result AiReply :=
  Ok {| ai_summary := Some ""; ai_highlights := None; ai_tasks := None;
        ai_mentions := None |}.

Lemma generateSummary_uses_model_witness :
  exists row w',
    generateSummaryForTimeWindow (workspace [] [] (fun _ => false))
      (fun _ => []) (fun _ => "1/1/1970") (Some terse_service) 1 0 1000
      world_with_question
    = Done (Ok (Some row)) w'
    /\ summaries (store w') = summaries (store world_with_question) ++ [row]
    /\ s_summary row = "No summary available."
    /\ s_highlights row = []
    /\ s_tasks row = []
    /\ s_mentions row = ∅.
Proof.
  eapply (generateSummary_uses_model (workspace [] [] (fun _ => false))
            (fun _ => []) (fun _ => "1/1/1970") terse_service 1 0 1000
            world_with_question _
            {| ai_summary := Some ""; ai_highlights := None; ai_tasks := None;
               ai_mentions := None |}).
  - reflexivity.
  - reflexivity.
  - reflexivity.
  - reflexivity.
  - vm_compute. discriminate.
  - reflexivity.
Defined.

(** ** Reaction events *)

Lemma property_own reactions name users :
  reactions !! name = Some users -> property reactions name = Own users.
Proof. unfold property. now intros ->. Qed.

Lemma property_undefined reactions name :
  reactions !! name = None -> name ∉ Object_prototype ->
  property reactions name = Undefined.
Proof.
  unfold property. intros -> Hname. now rewrite bool_decide_eq_false_2.
Qed.

Lemma add_reaction_adds reactions reaction user :
  reaction ∉ Object_prototype ->
  exists r',
    add_reaction reactions reaction user = Ok r'
    /\ (exists users, r' !! reaction = Some users /\ user ∈ users)
    /\ (forall name, name <> reaction -> r' !! name = reactions !! name)
    /\ add_reaction r' reaction user = Ok r'.
Proof.
  intros Hname. unfold add_reaction.
  assert (forall r users, r !! reaction = Some users -> user ∈ users ->
            match property r reaction with
            | Own users0 =>
                Ok (if bool_decide (user ∈ users0) then r
                    else <[reaction := users0 ++ [user]]> r)
            | _ => Throw (A := gmap string (list string))
                     (JsError "reactions[event.reaction].includes is not a function")
            end = Ok r) as Hagain.
  { intros r users Hr Hin. rewrite (property_own _ _ _ Hr).
    now rewrite bool_decide_eq_true_2. }
  assert (forall r users, r !! reaction = Some users ->
            match property r reaction with
            | Undefined => <[reaction := []]> r
            | _ => r
            end = r) as Hkeep.
  { intros r users Hr. now rewrite (property_own _ _ _ Hr). }
  destruct (reactions !! reaction) as [users|] eqn:Hown.
  - rewrite (Hkeep _ _ Hown), (property_own _ _ _ Hown).
    destruct (decide (user ∈ users)) as [Hin|Hnin].
    + rewrite bool_decide_eq_true_2 by exact Hin.
      exists reactions. split; [reflexivity|]. split; [now exists users|].
      split; [reflexivity|].
      rewrite (Hkeep _ _ Hown). now apply (Hagain _ users).
    + rewrite bool_decide_eq_false_2 by exact Hnin.
      eexists. split; [reflexivity|].
      assert (<[reaction := users ++ [user]]> reactions !! reaction
              = Some (users ++ [user])) as Hnew by apply lookup_insert_eq.
      split; [exists (users ++ [user]); split;
              [exact Hnew|apply elem_of_app; right; now left]|].
      split; [intros name Hne; now apply lookup_insert_ne|].
      rewrite (Hkeep _ _ Hnew). apply (Hagain _ _ Hnew).
      apply elem_of_app; right; now left.
  - rewrite (property_undefined _ _ Hown Hname).
    assert (<[reaction := []]> reactions !! reaction = Some []) as Hempty
      by apply lookup_insert_eq.
    rewrite (property_own _ _ _ Hempty).
    rewrite bool_decide_eq_false_2 by apply not_elem_of_nil.
    rewrite insert_insert_eq. cbn [app].
    assert (<[reaction := [user]]> reactions !! reaction = Some [user]) as Hnew
      by apply lookup_insert_eq.
    eexists. split; [reflexivity|].
    split; [exists [user]; split; [exact Hnew|now left]|].
    split; [intros name Hne; now apply lookup_insert_ne|].
    rewrite (Hkeep _ _ Hnew). apply (Hagain _ _ Hnew). now left.
Qed.

Lemma find_map_replace {A} (p : A -> bool) (g : A -> A) (l : list A) (m : A) :
  (forall x, p (g x) = p x) ->
  List.find p l = Some m ->
  List.find p (map (fun x => if p x then g x else x) l) = Some (g m).
Proof.
  intros Hp. induction l as [|a l IH]; [discriminate|].
  cbn [List.find map]. destruct (p a) eqn:Ha.
  - intros [= ->]. now rewrite Hp, Ha.
  - rewrite Ha. exact IH.
Qed.

Lemma map_replace_twice {A} (p : A -> bool) (g : A -> A) (l : list A) :
  (forall x, p (g x) = p x) -> (forall x, g (g x) = g x) ->
  map (fun x => if p x then g x else x) (map (fun x => if p x then g x else x) l)
  = map (fun x => if p x then g x else x) l.
Proof.
  intros Hp Hg. rewrite map_map. apply map_ext. intros a.
  destruct (p a) eqn:Ha; [now rewrite Hp, Ha, Hg|now rewrite Ha].
Qed.

Lemma same_key_eq channel_id ts m :
  same_key channel_id ts m = true -> m_channel_id m = channel_id /\ m_ts m = ts.
Proof.
  unfold same_key. intros [H1 H2]%andb_true_iff.
  now apply Nat.eqb_eq in H1; apply Z.eqb_eq in H2.
Qed.

(** Two rows that differ in their reactions at most. *)
Definition same_but_reactions (old new : Message) : Prop :=
  m_channel_id new = m_channel_id old /\ m_ts new = m_ts old
  /\ m_user_id new = m_user_id old /\ m_text new = m_text old
  /\ m_thread_ts new = m_thread_ts old /\ m_permalink new = m_permalink old
  /\ m_mentions new = m_mentions old /\ m_createdAt new = m_createdAt old.

Lemma Forall2_map_same {A} (R : A -> A -> Prop) (f : A -> A) (l : list A) :
  (forall x, R x (f x)) -> Forall2 R l (map f l).
Proof. intros H. induction l; constructor; auto. Qed.

Section ReactionFacts.

Variable prisma_rejects : string -> bool.

(** X25. A reaction to a stored message, its name not one of the members of
    [Object.prototype] and the store answering: the handler settles, the
    row of the message then lists the member under the reaction, the other
    reactions of the row are as before, the message qualifies as a key
    message of any window, and a second delivery of the same event changes
    nothing in the store. *)
Theorem reaction_added_records_user (event : ReactionEvent) (w : World)
    (conversation : Conversation) (message : Message) :
  re_item_type event = "message" ->
  (forall what, prisma_rejects what = false) ->
  List.find (fun c => String.eqb (conv_slack_id c) (re_channel event))
    (conversations (store w)) = Some conversation ->
  List.find (same_key (conv_id conversation) (re_ts event))
    (stored_messages (store w)) = Some message ->
  re_reaction event ∉ Object_prototype ->
  exists w' r',
    reaction_added prisma_rejects event w = Done (Ok tt) w'
    /\ List.find (same_key (conv_id conversation) (re_ts event))
         (stored_messages (store w')) = Some (set_reactions r' message)
    /\ (exists users,
          r' !! re_reaction event = Some users /\ re_user event ∈ users)
    /\ (forall name, name <> re_reaction event ->
          r' !! name = default ∅ (m_reactions message) !! name)
    /\ (forall msgs,
          is_highlight msgs (summary_message (set_reactions r' message)) = true)
    /\ (exists w'',
          reaction_added prisma_rejects event w' = Done (Ok tt) w''
          /\ store w'' = store w').
Proof.
  intros Htype Haccept Hconv Hmsg Hname.
  destruct (add_reaction_adds (default ∅ (m_reactions message))
              (re_reaction event) (re_user event) Hname)
    as (r' & Hadd & Hin & Hothers & Hagain).
  apply find_some in Hmsg as Hkey. destruct Hkey as [_ Hkey].
  apply same_key_eq in Hkey as [Hc Ht].
  assert (forall w0,
            List.find (fun c => String.eqb (conv_slack_id c) (re_channel event))
              (conversations (store w0)) = Some conversation ->
            forall message0 r0,
            List.find (same_key (conv_id conversation) (re_ts event))
              (stored_messages (store w0)) = Some message0 ->
            add_reaction (default ∅ (m_reactions message0))
              (re_reaction event) (re_user event) = Ok r0 ->
            m_channel_id message0 = conv_id conversation ->
            m_ts message0 = re_ts event ->
            reaction_added prisma_rejects event w0
            = Done (Ok tt)
                (set_store
                   (with_messages (store w0)
                      (map (fun x =>
                              if same_key (conv_id conversation) (re_ts event) x
                              then set_reactions r0 x else x)
                           (stored_messages (store w0)))) w0)) as Hrun.
  { intros w0 Hconv0 message0 r0 Hmsg0 Hadd0 Hc0 Ht0.
    unfold reaction_added, try_catch. rewrite Htype. cbn [String.eqb Ascii.eqb Bool.eqb].
    unfold bind at 1. unfold conversation_findFirst, prisma_call at 1.
    rewrite Haccept, Hconv0.
    unfold bind at 1. unfold message_findUnique, prisma_call at 1.
    rewrite Haccept. frame. rewrite Hmsg0, Hadd0.
    unfold message_update_reactions, prisma_call. rewrite Haccept. frame.
    rewrite Hc0, Ht0. reflexivity. }
  exists (set_store
            (with_messages (store w)
               (map (fun x =>
                       if same_key (conv_id conversation) (re_ts event) x
                       then set_reactions r' x else x)
                    (stored_messages (store w)))) w), r'.
  split; [now apply (Hrun w Hconv message r')|]. frame.
  split; [now apply (find_map_replace _ (set_reactions r'))|].
  split; [exact Hin|]. split; [exact Hothers|]. split.
  - intros msgs. unfold is_highlight. cbn [summary_message sm_reactions set_reactions m_reactions].
    destruct Hin as (users & Hlookup & _).
    assert (size r' <> 0)%nat as Hsize.
    { intros Hzero. apply map_size_empty_iff in Hzero. subst r'.
      now rewrite lookup_empty in Hlookup. }
    assert ((0 <? size r')%nat = true) as -> by (apply Nat.ltb_lt; lia).
    reflexivity.
  - eexists. split.
    + apply Hrun with (message0 := set_reactions r' message) (r0 := r').
      * frame. exact Hconv.
      * frame. now apply (find_map_replace _ (set_reactions r')).
      * exact Hagain.
      * exact Hc.
      * exact Ht.
    + frame. unfold with_messages. frame. f_equal.
      now apply map_replace_twice.
Qed.

(** X26. The handler of [reaction_added] never raises, whatever the event
    and whatever the store does, and it changes nothing but reactions: the
    conversations, members and summaries are those of before, and the stored
    messages are the same rows in the same order, each with its fields of
    before except, at most, its reactions. *)
Theorem reaction_added_changes_reactions_only (event : ReactionEvent) (w : World) :
  exists w',
    reaction_added prisma_rejects event w = Done (Ok tt) w'
    /\ conversations (store w') = conversations (store w)
    /\ users (store w') = users (store w)
    /\ summaries (store w') = summaries (store w)
    /\ Forall2 same_but_reactions
         (stored_messages (store w)) (stored_messages (store w')).
Proof.
  assert (Forall2 same_but_reactions (stored_messages (store w))
            (stored_messages (store w))) as Hsame.
  { apply Forall2_same_length_lookup_2; [reflexivity|].
    intros i x y Hx Hy. rewrite Hx in Hy. injection Hy as <-.
    now repeat split. }
  unfold reaction_added, try_catch.
  destruct (String.eqb (re_item_type event) "message").
  2:{ eexists. split; [reflexivity|]. now frame. }
  unfold bind at 1. unfold conversation_findFirst, prisma_call at 1.
  destruct (prisma_rejects "conversation.findFirst").
  { eexists. split; [reflexivity|]. now frame. }
  frame.
  destruct (List.find _ (conversations (store w))) as [conversation|].
  2:{ eexists. split; [reflexivity|]. now frame. }
  unfold bind at 1. unfold message_findUnique, prisma_call at 1.
  destruct (prisma_rejects "message.findUnique").
  { eexists. split; [reflexivity|]. now frame. }
  frame.
  destruct (List.find _ (stored_messages (store w))) as [message|].
  2:{ eexists. split; [reflexivity|]. now frame. }
  destruct (add_reaction _ _ _) as [reactions|error].
  2:{ eexists. split; [reflexivity|]. now frame. }
  unfold message_update_reactions, prisma_call.
  destruct (prisma_rejects "message.update").
  { eexists. split; [reflexivity|]. now frame. }
  eexists. split; [reflexivity|]. frame.
  do 3 (split; [reflexivity|]).
  apply Forall2_map_same. intros x.
  destruct (same_key _ _ x); now repeat split.
Qed.

(** X27. A reaction whose name is a member of [Object.prototype] (an emoji
    named [constructor], say) and that the message does not carry yet is
    lost: the handler reads the inherited member where it expects the list
    of members, the call of [includes] raises, the error is logged and the
    store is left as it was. *)
Theorem reaction_added_drops_inherited_name (event : ReactionEvent) (w : World)
    (conversation : Conversation) (message : Message) :
  re_item_type event = "message" ->
  (forall what, prisma_rejects what = false) ->
  List.find (fun c => String.eqb (conv_slack_id c) (re_channel event))
    (conversations (store w)) = Some conversation ->
  List.find (same_key (conv_id conversation) (re_ts event))
    (stored_messages (store w)) = Some message ->
  re_reaction event ∈ Object_prototype ->
  default ∅ (m_reactions message) !! re_reaction event = None ->
  exists w',
    reaction_added prisma_rejects event w = Done (Ok tt) w'
    /\ store w' = store w
    /\ logged w' = (Error, "Error handling reaction_added event") :: logged w.
Proof.
  intros Htype Haccept Hconv Hmsg Hname Hnone.
  unfold reaction_added, try_catch. rewrite Htype. cbn [String.eqb Ascii.eqb Bool.eqb].
  unfold bind at 1. unfold conversation_findFirst, prisma_call at 1.
  rewrite Haccept, Hconv.
  unfold bind at 1. unfold message_findUnique, prisma_call at 1.
  rewrite Haccept. frame. rewrite Hmsg.
  unfold add_reaction, property. rewrite Hnone.
  rewrite bool_decide_eq_true_2 by exact Hname. cbn match. rewrite Hnone.
  eexists. split; [reflexivity|]. now frame.
Qed.

End ReactionFacts.

(** A member reacts to the stored question. *)
Definition thumbsup : ReactionEvent :=
  {| re_item_type := "message"; re_channel := "C1"; re_ts := 1000000%Z;
     re_reaction := "thumbsup"; re_user := "U3" |}.

Lemma reaction_added_records_user_witness :
  exists w' r',
    reaction_added (fun _ => false) thumbsup world_with_question = Done (Ok tt) w'
    /\ List.find (same_key 1 1000000%Z) (stored_messages (store w'))
       = Some (set_reactions r' stored_question)
    /\ (exists users, r' !! "thumbsup" = Some users /\ "U3" ∈ users)
    /\ (forall name, name <> "thumbsup" -> r' !! name = (∅ : gmap string (list string)) !! name)
    /\ (forall msgs,
          is_highlight msgs (summary_message (set_reactions r' stored_question)) = true)
    /\ (exists w'',
          reaction_added (fun _ => false) thumbsup w' = Done (Ok tt) w''
          /\ store w'' = store w').
Proof.
  apply (reaction_added_records_user (fun _ => false) thumbsup world_with_question
           {| conv_id := 1; conv_slack_id := "C1"; conv_name := "general";
              conv_type := TChannel; last_ts_processed := Some 1000000%Z;
              conv_createdAt := 0; conv_updatedAt := 0 |}
           stored_question).
  - reflexivity.
  - reflexivity.
  - reflexivity.
  - reflexivity.
  - apply (proj1 (bool_decide_eq_false ("thumbsup" ∈ Object_prototype))).
    vm_compute. reflexivity.
Defined.

(** A member reacts with a custom emoji named [constructor]. *)
Definition constructor_emoji : ReactionEvent :=
  {| re_item_type := "message"; re_channel := "C1"; re_ts := 1000000%Z;
     re_reaction := "constructor"; re_user := "U3" |}.

Lemma reaction_added_drops_inherited_name_witness :
  exists w',
    reaction_added (fun _ => false) constructor_emoji world_with_question
    = Done (Ok tt) w'
    /\ store w' = store world_with_question
    /\ logged w'
       = (Error, "Error handling reaction_added event") :: logged world_with_question.
Proof.
  apply (reaction_added_drops_inherited_name (fun _ => false) constructor_emoji
           world_with_question
           {| conv_id := 1; conv_slack_id := "C1"; conv_name := "general";
              conv_type := TChannel; last_ts_processed := Some 1000000%Z;
              conv_createdAt := 0; conv_updatedAt := 0 |}
           stored_question).
  - reflexivity.
  - reflexivity.
  - reflexivity.
  - reflexivity.
  - apply (proj1 (bool_decide_eq_true ("constructor" ∈ Object_prototype))).
    vm_compute. reflexivity.
  - reflexivity.
Defined.

(** ** Posting a summary *)

Lemma string_app_assoc (a b c : string) : ((a ++ b) ++ c = a ++ (b ++ c))%string.
Proof. apply Js.chars_inj. now rewrite !chars_app, app_assoc. Qed.

Lemma string_app_empty (a : string) : (a ++ "" = a)%string.
Proof. apply Js.chars_inj. rewrite chars_app. apply app_nil_r. Qed.

Lemma foldl_append {A} (f : A -> string) (l : list A) (acc : string) :
  foldl (fun text e => (text ++ f e)%string) acc l
  = (acc ++ foldr (fun e text => (f e ++ text)%string) EmptyString l)%string.
Proof.
  revert acc. induction l as [|e l IH]; intros acc; cbn [foldl foldr].
  - now rewrite string_app_empty.
  - rewrite IH. cbn beta. now rewrite string_app_assoc.
Qed.

#[global] Instance by_count_desc_total : Total by_count_desc.
Proof. intros a b. unfold by_count_desc. lia. Qed.

#[global] Instance by_count_desc_trans : Transitive by_count_desc.
Proof. intros a b c. unfold by_count_desc. lia. Qed.

Lemma StronglySorted_lookup_lt {A} (R : relation A) (l : list A) :
  StronglySorted R l ->
  forall i j a b, (i < j)%nat -> l !! i = Some a -> l !! j = Some b -> R a b.
Proof.
  induction 1 as [|x l Hsorted IH Hall]; intros i j a b Hlt Ha Hb.
  - now rewrite lookup_nil in Ha.
  - destruct j as [|j]; [lia|]. cbn in Hb. destruct i as [|i].
    + cbn in Ha. injection Ha as <-.
      rewrite list.Forall_forall in Hall. apply Hall.
      now apply list_elem_of_lookup_2 in Hb.
    + cbn in Ha. apply (IH i j); [lia|assumption|assumption].
Qed.

Section PostFacts.

Variable prisma_rejects : string -> bool.
Variable DIGEST_CHANNEL : option string.
Variable chat_postMessage : string -> list Block -> string -> Result PostResult.
Variable date_toLocaleString : Z -> string.
Variable toLocaleDateString : string -> string.
Variable Object_entries : gmap string MentionStat -> list (string * MentionStat).



End PostFacts.

(** A summary with a single mentioned member. *)
Definition one_mention : gmap string MentionStat :=
  {[ "U2" := {| mention_count := 1; mention_contexts := ["please review..."] |} ]}.


(** ** From the generator to the digest *)

Lemma find_fresh_summary (rows : list Summary) (row : Summary) :
  Forall (fun old => (s_id old < s_id row)%nat) rows ->
  List.find (fun r => Nat.eqb (s_id r) (s_id row)) (rows ++ [row]) = Some row.
Proof.
  induction 1 as [|old rows Hold _ IH]; cbn [app List.find].
  - now rewrite Nat.eqb_refl.
  - assert (Nat.eqb (s_id old) (s_id row) = false) as ->
      by (apply Nat.eqb_neq; lia).
    exact IH.
Qed.


